(** * JobFinder: the vector-indexed job store, deduplication and retrieval

    A shallow embedding of [Scraping/adzuna_vector_store.py] (class
    [JobVectorStore]) and of the search and deduplication code of
    [Scraping/api.py] ([is_duplicate_job], [remove_duplicate_jobs],
    [search_jobs]), followed by the properties of the specification.

    Python values are modelled by [pyval], a job dictionary by a finite
    map from keys to values, exceptions by [option] ([None] = raised),
    and the random module by explicit choice oracles.  A text is a string
    of characters with code points below 256 (Latin-1), one [ascii] for
    each character. *)

From Stdlib Require Import QArith Ascii String Lqa.
From stdpp Require Import gmap strings list fin_maps pretty sorting.


(** ** Python values and dictionaries *)

Module Py.

(** The values a job dictionary holds.  Floats are exact rationals (no
    NaN, no infinity); a [datetime] is a number of seconds; the only
    lists are lists of strings (the skills of a record). *)
Inductive pyval :=
  | PNone
  | PBool (b : bool)
  | PInt (z : Z)
  | PFloat (q : Q)
  | PStr (s : string)
  | PDate (t : Z)
  | PStrList (l : list string).

(** [bool(v)]. *)
Definition truthy (v : pyval) : bool :=
  match v with
  | PNone => false
  | PBool b => b
  | PInt z => negb (z =? 0)%Z
  | PFloat q => negb (Qeq_bool q 0)
  | PStr s => negb (String.eqb s "")
  | PDate _ => true
  | PStrList l => match l with [] => false | _ => true end
  end.

(** The number a value stands for in a comparison: [True == 1 == 1.0]. *)
Definition py_num (v : pyval) : option Q :=
  match v with
  | PBool b => Some (if b then 1%Q else 0%Q)
  | PInt z => Some (inject_Z z)
  | PFloat q => Some q
  | _ => None
  end.

(** [a == b] on values. *)
Definition py_eqb (a b : pyval) : bool :=
  match py_num a, py_num b with
  | Some x, Some y => Qeq_bool x y
  | None, None =>
      match a, b with
      | PNone, PNone => true
      | PStr s, PStr t => String.eqb s t
      | PDate s, PDate t => (s =? t)%Z
      | PStrList l, PStrList m => bool_decide (l = m)
      | _, _ => false
      end
  | _, _ => false
  end.

(** Every key of [d1] is a key of [d2], with an equal value. *)
Definition dict_leb (d1 d2 : gmap string pyval) : bool :=
  forallb (fun kv => match d2 !! fst kv with
                     | Some w => py_eqb (snd kv) w
                     | None => false
                     end) (map_to_list d1).

(** [d1 == d2] on dictionaries: the same keys, with equal values. *)
Definition dict_eqb (d1 d2 : gmap string pyval) : bool :=
  dict_leb d1 d2 && dict_leb d2 d1.

(** [x in l] for a list of dictionaries. *)
Definition dict_in (x : gmap string pyval) (l : list (gmap string pyval)) : bool :=
  existsb (dict_eqb x) l.

(** [d.get(key, default)]. *)
Definition get (d : gmap string pyval) (key : string) (default : pyval) : pyval :=
  match d !! key with
  | Some v => v
  | None => default
  end.

(** [str.lower()].  Below code point 256 the capitals are A-Z (65-90) and
    the accented capitals from 192 to 222, the sign of multiplication
    (215) apart; each has its small letter 32 places further, and no
    other character changes. *)
Definition lower_ascii (c : ascii) : ascii :=
  let n := nat_of_ascii c in
  if ((65 <=? n)%nat && (n <=? 90)%nat)
     || ((192 <=? n)%nat && (n <=? 222)%nat && negb (n =? 215)%nat)
  then ascii_of_nat (n + 32) else c.

Fixpoint lower (s : string) : string :=
  match s with
  | EmptyString => EmptyString
  | String c r => String (lower_ascii c) (lower r)
  end.

(** The letter e with an acute accent, code point 233. *)
Definition e_acute : string := String "233"%char "".

(** [needle in hay] on strings. *)
Fixpoint is_prefix (p s : string) : bool :=
  match p, s with
  | EmptyString, _ => true
  | String a p', String b s' => Ascii.eqb a b && is_prefix p' s'
  | String _ _, EmptyString => false
  end.

Fixpoint contains (hay needle : string) : bool :=
  is_prefix needle hay ||
  match hay with
  | EmptyString => false
  | String _ r => contains r needle
  end.

(** [str.split()] with no argument: maximal runs of non-blank characters.
    Below code point 256 the blank characters of [str.isspace()] are 9-13,
    28-32, 133 (next line) and 160 (no-break space). *)
Definition is_space (c : ascii) : bool :=
  let n := nat_of_ascii c in
  ((9 <=? n)%nat && (n <=? 13)%nat) || ((28 <=? n)%nat && (n <=? 32)%nat)
  || (n =? 133)%nat || (n =? 160)%nat.

Fixpoint split_go (cur : string) (s : string) : list string :=
  match s with
  | EmptyString => if String.eqb cur "" then [] else [cur]
  | String c r =>
      if is_space c
      then (if String.eqb cur "" then split_go "" r else cur :: split_go "" r)
      else split_go (cur +:+ String c EmptyString) r
  end.

Definition split (s : string) : list string := split_go "" s.

(** [l.sort(key=..., reverse=True)]: a stable sort, greatest key first;
    records with equal keys keep their order. *)
Section SortDesc.
Context {A K : Type} (leb : K -> K -> bool) (key : A -> K).

Fixpoint insert_desc (x : A) (l : list A) : list A :=
  match l with
  | [] => [x]
  | y :: r => if leb (key y) (key x) then x :: y :: r else y :: insert_desc x r
  end.

Fixpoint sort_desc (l : list A) : list A :=
  match l with
  | [] => []
  | x :: r => insert_desc x (sort_desc r)
  end.
End SortDesc.

(** [random.sample(population, n)]: [n] records at distinct positions.  The
    oracle [rng] gives the position drawn at each step. *)
Fixpoint random_sample {A} (rng : nat -> nat) (population : list A) (n : nat) : list A :=
  match n with
  | O => []
  | S n' =>
      let i := (rng n' mod length population)%nat in
      match population !! i with
      | Some x => x :: random_sample rng (delete i population) n'
      | None => []
      end
  end.

(** [random.randint(lo, hi)] at the draw [r]. *)
Definition randint (r : nat) (lo hi : Z) : Z :=
  (lo + Z.of_nat r mod (hi - lo + 1))%Z.

(** [posixpath.join(directory, name)]. *)
Definition ends_with_slash (s : string) : bool :=
  match rev (list_ascii_of_string s) with
  | c :: _ => Ascii.eqb c "/"%char
  | [] => false
  end.

Definition path_join (directory name : string) : string :=
  if is_prefix "/" name then name
  else if String.eqb directory "" || ends_with_slash directory then directory +:+ name
  else directory +:+ "/" +:+ name.

End Py.
Export Py.

Abbreviation job := (gmap string pyval).

(** ** The FAISS flat L2 index *)

Module Faiss.

Abbreviation vec := (list Q).

(** Squared Euclidean distance, the metric of [IndexFlatL2]. *)
Fixpoint l2_sqr (a b : vec) : Q :=
  match a, b with
  | x :: a', y :: b' => ((x - y) * (x - y) + l2_sqr a' b')%Q
  | _, _ => 0%Q
  end.

(** The largest [float], the distance that pads a short answer. *)
Definition FLT_MAX : Q := inject_Z 340282346638528859811704183484516925440.

Definition Qleb (x y : Q) : bool := Qle_bool x y.

(** Insertion by ascending distance; among equal distances the lower
    position comes first. *)
Fixpoint insert_asc (x : Q * Z) (l : list (Q * Z)) : list (Q * Z) :=
  match l with
  | [] => [x]
  | y :: r => if Qleb (fst x) (fst y) then x :: y :: r else y :: insert_asc x r
  end.

Fixpoint sort_asc (l : list (Q * Z)) : list (Q * Z) :=
  match l with
  | [] => []
  | x :: r => insert_asc x (sort_asc r)
  end.

(** [(distance, position)] of every stored vector. *)
Definition distances (index : list vec) (query : vec) : list (Q * Z) :=
  imap (fun i v => (l2_sqr query v, Z.of_nat i)) index.

(** [index.search(query, k)]: the [k] nearest stored vectors, nearest
    first, as [(distance, position)]; when fewer than [k] vectors are
    stored the answer is padded with position [-1]. *)
Definition search (index : list vec) (query : vec) (k : nat) : list (Q * Z) :=
  let ranked := take k (sort_asc (distances index query)) in
  ranked ++ replicate (k - length ranked) (FLT_MAX, (-1)%Z).

End Faiss.

(** ** Collaborators outside the core

    The embedding model, Python's [difflib], [str()] of floats and dates,
    the [datetime] parser and printer, and the sample generator. *)

Class Runtime := {
  (** [model.encode([text])[0]]; [None] when the call raises. *)
  encode : string -> option Faiss.vec;
  (** [SequenceMatcher(None, a, b).ratio()]. *)
  SequenceMatcher_ratio : string -> string -> Q;
  (** [str(x)] for a float, a datetime and a list. *)
  float_repr : Q -> string;
  date_repr : Z -> string;
  list_repr : list string -> string;
  (** [datetime.strptime(text, fmt)]; [None] when it raises [ValueError]. *)
  strptime : string -> string -> option Z;
  (** [d.strftime('%Y-%m-%d')]. *)
  strftime_ymd : Z -> string;
  (** [generate_sample_jobs(count)] of [init_vector_store.py]: [count]
      records with random contents. *)
  generate_sample_jobs : nat -> list job;
  generate_sample_jobs_length : forall n, length (generate_sample_jobs n) = n
}.

Section PyStr.
Context `{Runtime}.

(** [str(v)], also what an f-string prints. *)
Definition py_str (v : pyval) : string :=
  match v with
  | PNone => "None"
  | PBool true => "True"
  | PBool false => "False"
  | PInt z => pretty z
  | PFloat q => float_repr q
  | PStr s => s
  | PDate t => date_repr t
  | PStrList l => list_repr l
  end.
End PyStr.

(** ** adzuna_vector_store.py *)

Module VectorStore.
Section WithRuntime.
Context `{Runtime}.

Record JobVectorStore := {
  data_dir : string;
  vector_dir : string;
  index : list Faiss.vec;
  jobs : list job;
  job_ids_map : gmap nat nat
}.

(** [JobVectorStore.__init__]. *)
Definition init (data_dir vector_dir : string) : JobVectorStore :=
  {| data_dir := data_dir; vector_dir := vector_dir;
     index := []; jobs := []; job_ids_map := ∅ |}.

(** The text a record is embedded from. *)
Definition job_text (j : job) : string :=
  "Title: " +:+ py_str (get j "title" (PStr "")) +:+ " " +:+
  "Company: " +:+ py_str (get j "company" (PStr "")) +:+ " " +:+
  "Location: " +:+ py_str (get j "location" (PStr "")) +:+ " " +:+
  "Description: " +:+ py_str (get j "description" (PStr "")).

Definition _create_job_vector (j : job) : option Faiss.vec :=
  encode (job_text j).

(** The loop of [add_jobs_from_dataframe]. *)
Record batch_state := {
  vectors : list Faiss.vec;
  valid_jobs : list job;
  ids : gmap nat nat;
  added : nat
}.

Fixpoint embed_jobs (current_index : nat) (jobs_to_add : list job)
    (s : batch_state) : batch_state :=
  match jobs_to_add with
  | [] => s
  | j :: rest =>
      match _create_job_vector j with
      | Some vector =>
          embed_jobs current_index rest
            {| vectors := vectors s ++ [vector];
               valid_jobs := valid_jobs s ++ [j];
               ids := <[current_index + added s := current_index + added s]> (ids s);
               added := S (added s) |}
      | None => embed_jobs current_index rest s
      end
  end.

Definition add_jobs_from_dataframe (st : JobVectorStore) (jobs_df : list job)
    : JobVectorStore * nat :=
  let current_index := length (jobs st) in
  let s := embed_jobs current_index jobs_df
             {| vectors := []; valid_jobs := []; ids := job_ids_map st; added := 0 |} in
  if (0 <? added s)%nat
  then ({| data_dir := data_dir st; vector_dir := vector_dir st;
           index := index st ++ vectors s;
           jobs := jobs st ++ valid_jobs s;
           job_ids_map := ids s |}, added s)
  else ({| data_dir := data_dir st; vector_dir := vector_dir st;
           index := index st; jobs := jobs st;
           job_ids_map := ids s |}, added s).

(** A sequence of batches, one call each. *)
Definition add_batches (st : JobVectorStore) (batches : list (list job)) : JobVectorStore :=
  foldl (fun s b => fst (add_jobs_from_dataframe s b)) st batches.

(** *** Similarity search *)

(** [job.copy()] followed by [job['similarity_score'] = s]. *)
Definition with_score (j : job) (s : Q) : job :=
  <["similarity_score" := PFloat s]> j.

(** [j['similarity_score']] as a number. *)
Definition similarity_score (j : job) : Q :=
  match j !! "similarity_score" with
  | Some v => default 0%Q (py_num v)
  | None => 0%Q
  end.

(** [filter_fn and not filter_fn(job)]. *)
Definition rejected (filter_fn : option (job -> bool)) (j : job) : bool :=
  match filter_fn with
  | Some f => negb (f j)
  | None => false
  end.

(** The loop of [search_similar_jobs] over the answer of the index. *)
Fixpoint scan_candidates (st : JobVectorStore) (k : nat)
    (filter_fn : option (job -> bool)) (candidates : list (Q * Z))
    (results : list job) : list job :=
  match candidates with
  | [] => results
  | (dist, idx) :: rest =>
      if (idx <? 0)%Z || (Z.of_nat (length (jobs st)) <=? idx)%Z
      then scan_candidates st k filter_fn rest results
      else
        match job_ids_map st !! Z.to_nat idx with
        | None => scan_candidates st k filter_fn rest results
        | Some job_id =>
            match jobs st !! job_id with
            | None => scan_candidates st k filter_fn rest results
            | Some j =>
                let scored := with_score j (1 / (1 + dist)) in
                if rejected filter_fn scored
                then scan_candidates st k filter_fn rest results
                else
                  let results' := results ++ [scored] in
                  if (k <=? length results')%nat then results'
                  else scan_candidates st k filter_fn rest results'
            end
        end
  end.

(** The text the keyword scorer looks into. *)
Definition fallback_text (j : job) : string :=
  lower (py_str (get j "title" (PStr "")) +:+ " " +:+
         py_str (get j "company" (PStr "")) +:+ " " +:+
         py_str (get j "description" (PStr ""))).

(** [sum(term in job_text for term in query_terms)]. *)
Definition match_score (query_terms : list string) (job_text : string) : nat :=
  length (List.filter (contains job_text) query_terms).

Fixpoint score_jobs (query_terms : list string)
    (filter_fn : option (job -> bool)) (all : list job) : list job :=
  match all with
  | [] => []
  | j :: rest =>
      if rejected filter_fn j then score_jobs query_terms filter_fn rest
      else
        let m := match_score query_terms (fallback_text j) in
        if (0 <? m)%nat || (length query_terms =? 0)%nat
        then with_score j (Z.of_nat m # Pos.of_nat (max 1 (length query_terms)))
               :: score_jobs query_terms filter_fn rest
        else score_jobs query_terms filter_fn rest
  end.

Definition _fallback_search (st : JobVectorStore) (query : string) (k : nat)
    (filter_fn : option (job -> bool)) (rng : nat -> nat) : list job :=
  let query_terms := split (lower query) in
  let scored_jobs :=
    sort_desc Faiss.Qleb similarity_score (score_jobs query_terms filter_fn (jobs st)) in
  let scored_jobs :=
    match scored_jobs with
    | [] =>
        let random_jobs :=
          random_sample rng (jobs st) (min k (length (jobs st))) in
        (fun j => with_score j (1 # 10)) <$> random_jobs
    | _ => scored_jobs
    end in
  take k scored_jobs.

(** [search_similar_jobs] for a count [k], a natural number; what the
    method does on an [int] with a sign is [Signed.search_similar_jobs]
    below.  An index asked for no neighbour at all ([k = 0]) raises, which
    lands in the fallback like the empty answer modelled here. *)
Definition search_similar_jobs (st : JobVectorStore) (query : string) (k : nat)
    (filter_fn : option (job -> bool)) (rng : nat -> nat) : list job :=
  match jobs st with
  | [] => []
  | _ =>
      match encode query with
      | None => _fallback_search st query k filter_fn rng
      | Some query_vector =>
          let fetch :=
            match filter_fn with
            | None => k
            | Some _ => min (k * 5) (length (jobs st))
            end in
          let candidates := Faiss.search (index st) query_vector fetch in
          match scan_candidates st k filter_fn candidates [] with
          | [] => _fallback_search st query k filter_fn rng
          | results => results
          end
      end
  end.

Definition remote_filter (j : job) : bool :=
  truthy (get j "remote_friendly" (PBool false))
  || contains (lower (py_str (get j "location" (PStr "")))) "remote".

Definition search_remote_jobs (st : JobVectorStore) (query : string) (k : nat)
    (rng : nat -> nat) : list job :=
  search_similar_jobs st query k (Some remote_filter) rng.

Definition morocco_filter (j : job) : bool :=
  let text := lower (py_str (get j "title" (PStr "")) +:+ " " +:+
                     py_str (get j "location" (PStr "")) +:+ " " +:+
                     py_str (get j "description" (PStr ""))) in
  let is_remote := truthy (get j "remote_friendly" (PBool false)) || contains text "remote" in
  let is_international := truthy (get j "international" (PBool false)) in
  let mentions_morocco :=
    existsb (contains text) ["morocco"; "maroc"; "rabat"; "casablanca"; "tanger"; "fes"] in
  is_remote || is_international || mentions_morocco.

Definition search_morocco_relevant (st : JobVectorStore) (query : string) (k : nat)
    (rng : nat -> nat) : list job :=
  search_similar_jobs st query k (Some morocco_filter) rng.

(** *** Persistence *)

(** What a file holds: a written index, a pickled pair of records and
    position map, or bytes no reader accepts. *)
Inductive artifact :=
  | IndexFile (vs : list Faiss.vec)
  | PickleFile (js : list job) (m : gmap nat nat)
  | Damaged.

(** The files, and the paths that cannot be written.  A path stands for
    the file of its text: the file system is taken without links and
    without two spellings of one path. *)
Record disk := {
  files : gmap string artifact;
  read_only : list string
}.

(** Opening a path for writing and writing an artifact.  On a protected
    path the opening raises and the file stays as it was; the one other
    outcome modelled is the complete write (a write that breaks off
    half-way, leaving a cut file, is not). *)
Definition write_file (d : disk) (path : string) (a : artifact) : option disk :=
  if bool_decide (path ∈ read_only d) then None
  else Some {| files := <[path := a]> (files d); read_only := read_only d |}.

Definition set_index (st : JobVectorStore) (vs : list Faiss.vec) : JobVectorStore :=
  {| data_dir := data_dir st; vector_dir := vector_dir st;
     index := vs; jobs := jobs st; job_ids_map := job_ids_map st |}.

Definition set_data (st : JobVectorStore) (js : list job) (m : gmap nat nat)
    : JobVectorStore :=
  {| data_dir := data_dir st; vector_dir := vector_dir st;
     index := index st; jobs := js; job_ids_map := m |}.

Definition save (st : JobVectorStore) (base_filename : string) (d : disk)
    : bool * disk :=
  let index_path := path_join (vector_dir st) (base_filename +:+ ".index") in
  match write_file d index_path (IndexFile (index st)) with
  | None => (false, d)
  | Some d1 =>
      let data_path := path_join (vector_dir st) (base_filename +:+ ".pkl") in
      match write_file d1 data_path (PickleFile (jobs st) (job_ids_map st)) with
      | None => (false, d1)
      | Some d2 => (true, d2)
      end
  end.

Definition load (st : JobVectorStore) (base_filename : string) (d : disk)
    : bool * JobVectorStore :=
  let index_path := path_join (vector_dir st) (base_filename +:+ ".index") in
  let data_path := path_join (vector_dir st) (base_filename +:+ ".pkl") in
  match files d !! index_path, files d !! data_path with
  | Some index_file, Some data_file =>
      match index_file with
      | IndexFile vs =>
          let st1 := set_index st vs in
          match data_file with
          | PickleFile js m => (true, set_data st1 js m)
          | _ => (false, st1)
          end
      | _ => (false, st)
      end
  | _, _ => (false, st)
  end.

End WithRuntime.
End VectorStore.

(** ** Python floats in the one place where rounding decides a branch *)

Module Float64.

(** A positive finite double: [mant * 2^expo]. *)
Record float := { mant : Z; expo : Z }.

(** Rounding of [m * 2^e] ([0 <= m]) to 53 significant bits, to nearest,
    ties to even. *)
Definition round (m e : Z) : float :=
  let bits := if (m =? 0)%Z then 0%Z else (Z.log2 m + 1)%Z in
  if (bits <=? 53)%Z then {| mant := m; expo := e |}
  else
    let s := (bits - 53)%Z in
    let q := Z.shiftr m s in
    let r := Z.land m (Z.ones s) in
    let half := Z.shiftl 1 (s - 1) in
    let q' :=
      if (r <? half)%Z then q
      else if (half <? r)%Z then (q + 1)%Z
      else if Z.even q then q else (q + 1)%Z in
    {| mant := q'; expo := (e + s)%Z |}.

(** [float(n)] for an integer [0 <= n]. *)
Definition of_int (n : Z) : float := round n 0.

(** The literal [0.7], that is [0x1.6666666666666p-1]. *)
Definition lit_0_7 : float := {| mant := 3152519739159347; expo := -52 |}.

Definition mul (x y : float) : float :=
  round (mant x * mant y) (expo x + expo y).

(** [d > x] for an integer [d] and a float [x]; Python compares the two
    exactly. *)
Definition int_gt (d : Z) (x : float) : bool :=
  if (0 <=? expo x)%Z then (mant x * 2 ^ expo x <? d)%Z
  else (mant x <? d * 2 ^ (- expo x))%Z.

End Float64.

(** ** api.py *)

Module Api.
Import VectorStore.
Section WithRuntime.
Context `{Runtime}.

(** [str(job.get(key, '')).lower() if job.get(key) is not None else '']. *)
Definition field_lower (j : job) (key : string) : string :=
  match j !! key with
  | None | Some PNone => ""
  | Some v => lower (py_str v)
  end.

Definition nonempty (s : string) : bool := negb (String.eqb s "").

(** [is_duplicate_job].  The ratios are compared as exact rationals; the
    float comparison agrees with it for texts of any realistic length. *)
Definition is_duplicate_job_with (title_threshold company_threshold : Q)
    (job1 job2 : job) : bool :=
  let title1 := field_lower job1 "title" in
  let title2 := field_lower job2 "title" in
  let company1 := field_lower job1 "company" in
  let company2 := field_lower job2 "company" in
  if negb (nonempty title1) || negb (nonempty title2)
     || negb (nonempty company1) || negb (nonempty company2)
  then false
  else
    let title_ratio := SequenceMatcher_ratio title1 title2 in
    let company_ratio := SequenceMatcher_ratio company1 company2 in
    let url1 := field_lower job1 "redirect_url" in
    let url2 := field_lower job2 "redirect_url" in
    if nonempty url1 && nonempty url2 && String.eqb url1 url2
    then true
    else
      let location1 := field_lower job1 "location" in
      let location2 := field_lower job2 "location" in
      let same_location := String.eqb location1 location2 && nonempty location1 in
      (Qle_bool title_threshold title_ratio && Qle_bool company_threshold company_ratio)
      || (Qeq_bool title_ratio 1 && same_location).

Definition is_duplicate_job : job -> job -> bool :=
  is_duplicate_job_with (95 # 100) (95 # 100).

(** [len(jobs) - len(unique_jobs) > len(jobs) * 0.7]. *)
Definition too_many_removed (n_jobs n_unique : nat) : bool :=
  Float64.int_gt (Z.of_nat n_jobs - Z.of_nat n_unique)
    (Float64.mul (Float64.of_int (Z.of_nat n_jobs)) Float64.lit_0_7).

(** The inner loop of [remove_duplicate_jobs]. *)
Fixpoint readmit (min_results : nat) (potential : list job) (unique_jobs : list job)
    : list job :=
  match potential with
  | [] => unique_jobs
  | potential_job :: rest =>
      if dict_in potential_job unique_jobs then readmit min_results rest unique_jobs
      else
        let unique_jobs' := unique_jobs ++ [potential_job] in
        if (min_results <=? length unique_jobs')%nat then unique_jobs'
        else readmit min_results rest unique_jobs'
  end.

(** One turn of the outer loop. *)
Definition dedupe_step (jobs : list job) (min_results : nat) (unique_jobs : list job)
    (j : job) : list job :=
  let is_duplicate := existsb (is_duplicate_job j) unique_jobs in
  let unique_jobs := if is_duplicate then unique_jobs else unique_jobs ++ [j] in
  if (length unique_jobs <? min_results)%nat
     && too_many_removed (length jobs) (length unique_jobs)
  then readmit min_results jobs unique_jobs
  else unique_jobs.

Definition remove_duplicate_jobs (jobs : list job) (min_results : nat) : list job :=
  match jobs with
  | [] => []
  | _ =>
      if (length jobs <=? min_results)%nat then jobs
      else foldl (dedupe_step jobs min_results) [] jobs
  end.

(** *** The search endpoint *)

(** The parameters of a request, with [limit] a count, a natural number;
    [Signed.request] below has the [int] the endpoint reads, and
    [Signed.search_jobs] what the endpoint does with it. *)
Record request := {
  query : string;
  location : string;
  job_type : string;
  min_salary : option Z;
  remote : bool;
  morocco_only : bool;
  limit : nat;
  engineering_field : string;
  remove_duplicates : bool;
  sort_by_date : bool;
  recent_hours : option Z
}.

(** The random draws of one request: [sample_at c] serves the [c]-th call
    of the store's search, [randint_at c i] the [i]-th draw of the [c]-th
    loop that calls [random.randint]. *)
Record oracle := {
  sample_at : nat -> nat -> nat;
  randint_at : nat -> nat -> nat
}.

(** The answer: the formatted records, or the error answer (status 500,
    no record). *)
Inductive response :=
  | Jobs (formatted : list job)
  | ServerError.

Definition response_jobs (r : response) : list job :=
  match r with
  | Jobs l => l
  | ServerError => []
  end.

Definition dt_1970 : Z := 0.
Definition dt_2000 : Z := 946684800.
Definition day : Z := 86400.
Definition hour : Z := 3600.

(** [(v or '').lower()]; raises on a true value that is not a string. *)
Definition or_empty_lower (v : pyval) : option string :=
  if truthy v
  then match v with PStr s => Some (lower s) | _ => None end
  else Some "".

(** A list comprehension whose condition may raise. *)
Fixpoint filter_raising (p : job -> option bool) (l : list job) : option (list job) :=
  match l with
  | [] => Some []
  | j :: r =>
      match p j with
      | None => None
      | Some b =>
          match filter_raising p r with
          | None => None
          | Some r' => Some (if b then j :: r' else r')
          end
      end
  end.

(** Step 1: the search the flags select. *)
Definition first_search (st : JobVectorStore) (rq : request) (rnd : oracle) : list job :=
  let k := limit rq * 5 in
  if morocco_only rq && remote rq then
    List.filter (fun j => truthy (get j "remote_friendly" (PBool false)))
      (search_morocco_relevant st (query rq) k (sample_at rnd 0))
  else if morocco_only rq then search_morocco_relevant st (query rq) k (sample_at rnd 0)
  else if remote rq then search_remote_jobs st (query rq) k (sample_at rnd 0)
  else search_similar_jobs st (query rq) k None (sample_at rnd 0).

(** Step 3: the contract type read off the description.  The three
    French words are indeterminé (as the source spells it, with one
    accent), déterminé and indépendant. *)
Definition guess_job_type (desc : string) : string :=
  if contains desc "cdi" || contains desc "permanent"
     || contains desc ("indetermin" +:+ e_acute)
  then "CDI"
  else if contains desc "cdd" || contains desc "contract"
          || contains desc ("d" +:+ e_acute +:+ "termin" +:+ e_acute)
  then "CDD"
  else if contains desc "stage" || contains desc "internship" || contains desc "stagiaire"
  then "Stage"
  else if contains desc "freelance" || contains desc "independent"
          || contains desc ("ind" +:+ e_acute +:+ "pendant")
  then "Freelance"
  else if contains desc "temps partiel" || contains desc "part time"
          || contains desc "part-time"
  then "Part-time"
  else "CDI".

Definition infer_job_type (j : job) : option job :=
  if truthy (get j "job_type" PNone) then Some j
  else
    match or_empty_lower (get j "description" (PStr "")),
          or_empty_lower (get j "title" (PStr "")) with
    | Some desc, Some _ => Some (<["job_type" := PStr (guess_job_type desc)]> j)
    | _, _ => None
    end.

(** Step 4: the hard filters. *)
Definition field_contains (key needle : string) (j : job) : option bool :=
  match or_empty_lower (get j key (PStr "")) with
  | Some text => Some (contains text (lower needle))
  | None => None
  end.

(** [v >= m] for an integer [m]; raises unless [v] is a number. *)
Definition py_ge_int (v : pyval) (m : Z) : option bool :=
  match py_num v with
  | Some x => Some (Qle_bool (inject_Z m) x)
  | None => None
  end.

Definition salary_at_least (m : Z) (j : job) : option bool :=
  match py_ge_int (get j "salary_min" (PInt 0)) m with
  | Some true => Some true
  | Some false => py_ge_int (get j "salaryMin" (PInt 0)) m
  | None => None
  end.

Definition in_field (field : string) (j : job) : option bool :=
  match field_contains "category" field j with
  | Some true => Some true
  | Some false => field_contains "title" field j
  | None => None
  end.

Definition hard_filters (rq : request) (results : list job) : option (list job) :=
  r1 ← (if nonempty (location rq)
        then filter_raising (field_contains "location" (location rq)) results
        else Some results);
  r2 ← (if nonempty (job_type rq)
        then filter_raising (field_contains "job_type" (job_type rq)) r1
        else Some r1);
  r3 ← (match min_salary rq with
        | Some m => if (0 <? m)%Z then filter_raising (salary_at_least m) r2 else Some r2
        | None => Some r2
        end);
  if nonempty (engineering_field rq)
  then filter_raising (in_field (engineering_field rq)) r3
  else Some r3.

(** Step 4a: nothing left and a contract type asked for. *)
Definition relabel (rq : request) (j : job) : job :=
  <["inferred_type" := PBool true]> (<["job_type" := PStr (job_type rq)]> j).

Definition type_fallback (st : JobVectorStore) (rq : request) (rnd : oracle)
    (results : list job) : list job :=
  match results with
  | [] =>
      if nonempty (job_type rq) then
        relabel rq <$>
          (if morocco_only rq
           then search_morocco_relevant st (query rq) (limit rq) (sample_at rnd 1)
           else search_similar_jobs st (query rq) (limit rq) None (sample_at rnd 1))
      else results
  | _ => results
  end.

(** Step 5: dates.  The [i]-th record without a date gets one. *)
Fixpoint assign_dates (now : Z) (rnd : nat -> nat) (i : nat) (results : list job)
    : list job :=
  match results with
  | [] => []
  | j :: rest =>
      if truthy (get j "created" PNone) then j :: assign_dates now rnd i rest
      else
        let days_ago := (Z.of_nat (min i 59) + randint (rnd i) 0 3)%Z in
        let job_date := (now - days_ago * day)%Z in
        <["_parsed_date" := PDate job_date]>
          (<["created" := PStr (strftime_ymd job_date)]> j)
        :: assign_dates now rnd (S i) rest
  end.

Definition date_formats : list string :=
  ["%Y-%m-%d"; "%Y-%m-%dT%H:%M:%S"; "%Y-%m-%d %H:%M:%S"].

(** The first format that parses. *)
Fixpoint parse_with (formats : list string) (text : string) : option Z :=
  match formats with
  | [] => None
  | fmt :: rest =>
      match strptime text fmt with
      | Some t => Some t
      | None => parse_with rest text
      end
  end.

Definition random_recent (now : Z) (r : nat) (span : Z) : pyval :=
  PDate (now - randint r 0 span * day)%Z.

Definition parse_date (now : Z) (r : nat) (j : job) : job :=
  if truthy (get j "_parsed_date" PNone) then j
  else
    match get j "created" (PStr "") with
    | PStr text =>
        if nonempty text then
          match parse_with date_formats text with
          | Some t => <["_parsed_date" := PDate t]> j
          | None => <["_parsed_date" := random_recent now r 30]> j
          end
        else <["_parsed_date" := random_recent now r 30]> j
    | _ => <["_parsed_date" := random_recent now r 30]> j
    end.

(** Step 6: [results.sort(key=lambda x: x.get('_parsed_date', ...),
    reverse=True)].  Two keys compare when both are numbers, both
    strings, both dates or both lists; with two records or more, a key
    [None] or keys of two kinds make the sort raise. *)
Inductive sort_key :=
  | KNum (q : Q)
  | KStr (s : string)
  | KDate (t : Z)
  | KList (l : list string).

Definition key_of (v : pyval) : option sort_key :=
  match v with
  | PStr s => Some (KStr s)
  | PDate t => Some (KDate t)
  | PStrList l => Some (KList l)
  | _ => option_map KNum (py_num v)
  end.

Definition same_kind (a b : sort_key) : bool :=
  match a, b with
  | KNum _, KNum _ | KStr _, KStr _ | KDate _, KDate _ | KList _, KList _ => true
  | _, _ => false
  end.

Fixpoint list_leb (l m : list string) : bool :=
  match l, m with
  | [], _ => true
  | _ :: _, [] => false
  | x :: l', y :: m' =>
      if String.eqb x y then list_leb l' m' else String.leb x y
  end.

Definition key_leb (a b : sort_key) : bool :=
  match a, b with
  | KNum x, KNum y => Qle_bool x y
  | KStr s, KStr t => String.leb s t
  | KDate s, KDate t => (s <=? t)%Z
  | KList l, KList m => list_leb l m
  | _, _ => false
  end.

Definition parsed_date (j : job) : pyval := get j "_parsed_date" (PDate dt_2000).

Definition sort_newest_first (results : list job) : option (list job) :=
  match results with
  | [] | [_] => Some results
  | first :: _ =>
      match key_of (parsed_date first) with
      | None => None
      | Some k0 =>
          if forallb (fun j => match key_of (parsed_date j) with
                               | Some k => same_kind k0 k
                               | None => false
                               end) results
          then Some (sort_desc key_leb
                       (fun j => default k0 (key_of (parsed_date j))) results)
          else None
      end
  end.

Definition date_stage (rq : request) (now : Z) (rnd : oracle) (results : list job)
    : option (list job) :=
  if sort_by_date rq then
    let dated := assign_dates now (randint_at rnd 0) 0 results in
    let parsed := imap (fun i j => parse_date now (randint_at rnd 1 i) j) dated in
    sort_newest_first parsed
  else Some results.

(** Step 7: the window of recent hours. *)
Definition not_older (cutoff : Z) (j : job) : option bool :=
  match get j "_parsed_date" (PDate dt_1970) with
  | PDate t => Some (cutoff <=? t)%Z
  | _ => None
  end.

Definition date_more (now : Z) (r : nat) (j : job) : job :=
  if truthy (get j "_parsed_date" PNone) then j
  else
    match get j "created" (PStr "") with
    | PStr text =>
        if nonempty text then
          match parse_with date_formats text with
          | Some t => <["_parsed_date" := PDate t]> j
          | None => j
          end
        else <["_parsed_date" := random_recent now r 10]> j
    | _ => <["_parsed_date" := random_recent now r 10]> j
    end.

Fixpoint append_new (limit : nat) (all_results : list job) (results : list job)
    (existing_ids : list pyval) : list job :=
  match all_results with
  | [] => results
  | j :: rest =>
      if (limit <=? length results)%nat then results
      else
        let id := get j "id" PNone in
        if truthy id && negb (existsb (py_eqb id) existing_ids)
        then append_new limit rest (results ++ [j]) (id :: existing_ids)
        else append_new limit rest results existing_ids
  end.

Definition recent_stage (st : JobVectorStore) (rq : request) (now : Z) (rnd : oracle)
    (results : list job) : option (list job) :=
  match recent_hours rq with
  | None => Some results
  | Some h =>
      if (0 <? h)%Z then
        let cutoff_time := (now - h * hour)%Z in
        kept ← filter_raising (not_older cutoff_time) results;
        let filtered_count := length results - length kept in
        if (length kept <? min (limit rq) 5)%nat && (0 <? filtered_count)%nat then
          let all_results :=
            search_similar_jobs st (query rq) (limit rq * 10) None (sample_at rnd 2) in
          let all_results := imap (fun i j => date_more now (randint_at rnd 2 i) j) all_results in
          all_sorted ← sort_newest_first all_results;
          let existing_ids :=
            (fun j => get j "id" PNone)
              <$> List.filter (fun j => truthy (get j "id" PNone)) kept in
          Some (append_new (limit rq) all_sorted kept existing_ids)
        else Some kept
      else Some results
  end.

(** Step 8: deduplication, the refetch and the samples. *)
Fixpoint append_fresh (limit : nat) (more_results : list job) (results : list job)
    : list job :=
  match more_results with
  | [] => results
  | j :: rest =>
      if (limit * 2 <=? length results)%nat then results
      else if existsb (is_duplicate_job j) results
           then append_fresh limit rest results
           else append_fresh limit rest (results ++ [j])
  end.

Definition dedupe_stage (st : JobVectorStore) (rq : request) (rnd : oracle)
    (results : list job) : list job :=
  if remove_duplicates rq then
    let original_count := length results in
    let results := remove_duplicate_jobs results (limit rq) in
    let results :=
      if (length results <? limit rq)%nat && (limit rq <=? original_count)%nat then
        let more_results :=
          if morocco_only rq
          then search_morocco_relevant st (query rq) (limit rq * 2) (sample_at rnd 3)
          else search_similar_jobs st (query rq) (limit rq * 2) None (sample_at rnd 3) in
        append_fresh (limit rq) more_results results
      else results in
    match results with
    | [] => generate_sample_jobs (limit rq)
    | _ => results
    end
  else results.

(** Step 9: the record sent to the caller.  The NaN and infinity tests of
    the source never fire on the floats modelled here. *)
Definition format_job (now : Z) (i : nat) (j : job) : option job :=
  let salary_min := get j "salary_min" (PInt 0) in
  let salary_max := get j "salary_max" (PInt 0) in
  let created := get j "created" (PStr "") in
  posted_at ← (if negb (truthy created) then
                 match j !! "_parsed_date" with
                 | None => Some created
                 | Some (PDate t) => Some (PStr (strftime_ymd t))
                 | Some _ => None
                 end
               else Some created);
  is_recent ← not_older (now - 6 * hour)%Z j;
  Some (list_to_map
    [ ("id", get j "id" (PStr ("job-" +:+ pretty i)));
      ("title", get j "title" (PStr "Unknown Title"));
      ("company", get j "company" (PStr "Unknown Company"));
      ("location", get j "location" (PStr "Unknown Location"));
      ("description", get j "description" (PStr ""));
      ("salary", get j "salary" (PStr ""));
      ("salaryMin", salary_min);
      ("salaryMax", salary_max);
      ("jobType", get j "job_type" (get j "contract_type" (PStr "")));
      ("remote", get j "remote_friendly" (PBool false));
      ("url", get j "redirect_url" (PStr ""));
      ("postedAt", posted_at);
      ("skills", get j "skills" (PStrList []));
      ("category", get j "specialty" (get j "category" (PStr "")));
      ("similarityScore", get j "similarity_score" (PInt 0));
      ("inferredType", get j "inferred_type" (PBool false));
      ("isRecent", PBool is_recent) ]).

Fixpoint format_all (now : Z) (i : nat) (results : list job) : option (list job) :=
  match results with
  | [] => Some []
  | j :: rest =>
      f ← format_job now i j;
      fs ← format_all now (S i) rest;
      Some (f :: fs)
  end.

(** The records that reach the formatting loop.  The searches of the
    store do not raise on a count, so the handler around step 1 is never
    entered here. *)
Definition pipeline (st : JobVectorStore) (rq : request) (now : Z) (rnd : oracle)
    : option (list job) :=
  let results := first_search st rq rnd in
  let results :=
    match results with
    | [] => take (limit rq * 5) (jobs st)
    | _ => results
    end in
  enriched ← mapM infer_job_type results;
  filtered ← hard_filters rq enriched;
  let results := type_fallback st rq rnd filtered in
  sorted ← date_stage rq now rnd results;
  recent ← recent_stage st rq now rnd sorted;
  Some (dedupe_stage st rq rnd recent).

Definition search_jobs (st : JobVectorStore) (rq : request) (now : Z) (rnd : oracle)
    : response :=
  match pipeline st rq now rnd with
  | None => ServerError
  | Some results =>
      match format_all now 0 (take (limit rq) results) with
      | None => ServerError
      | Some formatted => Jobs formatted
      end
  end.

End WithRuntime.
End Api.

(** ** Concrete collaborators

    Python's [difflib] on short texts, and small embedding providers, used
    to run the definitions on concrete stores. *)

Module Difflib.

Fixpoint common_prefix (a b : list ascii) : nat :=
  match a, b with
  | x :: a', y :: b' => if Ascii.eqb x y then S (common_prefix a' b') else 0
  | _, _ => 0
  end.

(** The longest block starting at position [i] of [a], scanning [b] from
    position [j]; [best] is replaced only by a strictly longer block. *)
Fixpoint scan_b (a_tail : list ascii) (i : nat) (b_tail : list ascii) (j : nat)
    (best : nat * nat * nat) : nat * nat * nat :=
  match b_tail with
  | [] => best
  | _ :: b' =>
      let k := common_prefix a_tail b_tail in
      let best := if (snd best <? k)%nat then (i, j, k) else best in
      scan_b a_tail i b' (S j) best
  end.

Fixpoint scan_a (a_tail : list ascii) (i : nat) (b : list ascii)
    (best : nat * nat * nat) : nat * nat * nat :=
  match a_tail with
  | [] => best
  | _ :: a' => scan_a a' (S i) b (scan_b a_tail i b 0 best)
  end.

(** [find_longest_match] with no junk: the longest common block, the one
    that starts earliest in [a], then earliest in [b]. *)
Definition find_longest_match (a b : list ascii) : nat * nat * nat :=
  scan_a a 0 b (0, 0, 0).

(** The sum of the sizes of [get_matching_blocks()]: the longest block,
    then the same to its left and to its right. *)
Fixpoint matches (fuel : nat) (a b : list ascii) : nat :=
  match fuel with
  | O => 0
  | S fuel' =>
      let '(i, j, k) := find_longest_match a b in
      if (k =? 0)%nat then 0
      else k + matches fuel' (take i a) (take j b)
             + matches fuel' (drop (i + k) a) (drop (j + k) b)
  end.

(** [SequenceMatcher(None, a, b).ratio()] for texts under 200
    characters, where no character is set aside as popular. *)
Definition ratio (a b : string) : Q :=
  let la := list_ascii_of_string a in
  let lb := list_ascii_of_string b in
  let total := length la + length lb in
  if (total =? 0)%nat then 1%Q
  else (2 * Z.of_nat (matches (S (length la)) la lb) # Pos.of_nat total)%Q.

End Difflib.

Module Concrete.

(** A sample record and the generator of [n] of them. *)
Definition sample_job : job :=
  list_to_map [("title", PStr "Software Engineer"); ("company", PStr "TechCorp");
               ("category", PStr "Engineering")].

(** The printers and the parser below are never reached by the examples:
    no example holds a float, a date or a list in a text field, and none
    holds a creation date. *)
Definition runtime_with (enc : string -> option Faiss.vec) : Runtime := {|
  encode := enc;
  SequenceMatcher_ratio := Difflib.ratio;
  float_repr := fun _ => ""%string;
  date_repr := fun t => pretty t;
  list_repr := fun _ => ""%string;
  strptime := fun _ _ => None;
  strftime_ymd := fun t => pretty (t / 86400)%Z;
  generate_sample_jobs := fun n => replicate n sample_job;
  generate_sample_jobs_length := fun n => length_replicate n sample_job
|}.

(** An embedding provider in one dimension: the length of the text. *)
Definition by_length : Runtime :=
  runtime_with (fun text => Some [inject_Z (Z.of_nat (String.length text))]).

(** A provider that is down: every request raises. *)
Definition offline : Runtime := runtime_with (fun _ => None).

(** A provider that answers for the records and fails on any text that
    mentions "secret". *)
Definition picky : Runtime :=
  runtime_with (fun text =>
    if contains text "secret" then None
    else Some [inject_Z (Z.of_nat (String.length text))]).

Definition record (title company : string) : job :=
  list_to_map [("title", PStr title); ("company", PStr company)].

End Concrete.

(** ** More of Python's [str] *)

Module Text.

(** [sep.join(l)]. *)
Fixpoint join (sep : string) (l : list string) : string :=
  match l with
  | [] => ""
  | x :: r =>
      match r with
      | [] => x
      | _ :: _ => x +:+ sep +:+ join sep r
      end
  end.

(** [s.endswith(suffix)]. *)
Fixpoint ends_with (s suffix : string) : bool :=
  String.eqb s suffix ||
  match s with
  | EmptyString => false
  | String _ r => ends_with r suffix
  end.

(** [s.split(sep)] for a separator of one character: every piece, the
    empty ones too. *)
Fixpoint split_on (sep : ascii) (cur : string) (s : string) : list string :=
  match s with
  | EmptyString => [cur]
  | String c r =>
      if Ascii.eqb c sep then cur :: split_on sep "" r
      else split_on sep (cur +:+ String c EmptyString) r
  end.

(** [s.strip()]. *)
Fixpoint lstrip (s : string) : string :=
  match s with
  | EmptyString => EmptyString
  | String c r => if is_space c then lstrip r else s
  end.

Definition reverse (s : string) : string :=
  string_of_list_ascii (rev (list_ascii_of_string s)).

Definition strip (s : string) : string :=
  reverse (lstrip (reverse (lstrip s))).

End Text.
Export Text.

(** ** adzuna_vector_store.py: the other searches, the CSV loaders and the
    statistics *)

Module StoreOps.
Import VectorStore.
Section WithRuntime.
Context `{Runtime}.

(** *** Keyword and title search *)

(** The predicate [keyword_filter] of [search_by_keywords]. *)
Definition keyword_filter (keywords : list string) (require_all : bool) (j : job) : bool :=
  let text := lower (py_str (get j "title" (PStr "")) +:+ " " +:+
                     py_str (get j "description" (PStr ""))) in
  if require_all then forallb (fun kw => contains text (lower kw)) keywords
  else existsb (fun kw => contains text (lower kw)) keywords.

Definition search_by_keywords (st : JobVectorStore) (keywords : list string) (k : nat)
    (require_all : bool) (rng : nat -> nat) : list job :=
  let query := join " " keywords in
  search_similar_jobs st query k (Some (keyword_filter keywords require_all)) rng.

Definition search_by_job_title (st : JobVectorStore) (title : string) (k : nat)
    (rng : nat -> nat) : list job :=
  search_similar_jobs st ("Title: " +:+ title) k None rng.

(** *** CSV files *)

(** What a path of the data tree holds: a file, with the records
    [pd.read_csv] makes of it ([None] when the call raises), or a
    directory, with its entries in the order of [os.listdir]. *)
Inductive node :=
  | File (rows : option (list job))
  | Directory (names : list string).

Definition read_csv (t : gmap string node) (csv_path : string) : option (list job) :=
  match t !! csv_path with
  | Some (File rows) => rows
  | _ => None
  end.

Definition add_jobs_from_csv (st : JobVectorStore) (t : gmap string node)
    (csv_path : string) : JobVectorStore * nat :=
  match read_csv t csv_path with
  | Some jobs_df => add_jobs_from_dataframe st jobs_df
  | None => (st, 0)
  end.

(** One turn of the loop of [add_jobs_from_directory]. *)
Definition add_file (t : gmap string node) (directory : string)
    (acc : JobVectorStore * nat) (filename : string) : JobVectorStore * nat :=
  if ends_with filename ".csv" then
    let filepath := path_join directory filename in
    let r := add_jobs_from_csv (fst acc) t filepath in
    (fst r, snd acc + snd r)
  else acc.

(** [add_jobs_from_directory]; [None] when [os.listdir] raises, the path
    being a file. *)
Definition add_jobs_from_directory (st : JobVectorStore) (t : gmap string node)
    (directory : option string) : option (JobVectorStore * nat) :=
  let directory := default (data_dir st) directory in
  match t !! directory with
  | None => Some (st, 0)
  | Some (File _) => None
  | Some (Directory names) => Some (foldl (add_file t directory) (st, 0) names)
  end.

(** *** Statistics *)

(** A dictionary of counters, in the order of insertion; keys are
    compared with [==]. *)
Fixpoint bump (key : pyval) (c : list (pyval * nat)) : list (pyval * nat) :=
  match c with
  | [] => [(key, 1)]
  | (k, n) :: r => if py_eqb k key then (k, S n) :: r else (k, n) :: bump key r
  end.

(** A list is no dictionary key. *)
Definition hashable (v : pyval) : bool :=
  match v with
  | PStrList _ => false
  | _ => true
  end.

(** [v = job.get(key, 'unknown')] followed by
    [if v: c[v] = c.get(v, 0) + 1]. *)
Definition count_by (key : string) (j : job) (c : list (pyval * nat))
    : option (list (pyval * nat)) :=
  let v := get j key (PStr "unknown") in
  if truthy v then (if hashable v then Some (bump v c) else None)
  else Some c.

Record statistics := {
  total_jobs : nat;
  specialties : list (pyval * nat);
  countries : list (pyval * nat);
  remote_jobs : nat;
  international_jobs : nat
}.

(** One turn of the loop of [get_job_statistics]. *)
Definition count_job (s : statistics) (j : job) : option statistics :=
  sp ← count_by "specialty" j (specialties s);
  co ← count_by "source_country" j (countries s);
  Some {| total_jobs := total_jobs s;
          specialties := sp;
          countries := co;
          remote_jobs :=
            if truthy (get j "remote_friendly" (PBool false))
            then S (remote_jobs s) else remote_jobs s;
          international_jobs :=
            if truthy (get j "international" (PBool false))
            then S (international_jobs s) else international_jobs s |}.

Fixpoint count_jobs (s : statistics) (l : list job) : option statistics :=
  match l with
  | [] => Some s
  | j :: rest =>
      match count_job s j with
      | Some s' => count_jobs s' rest
      | None => None
      end
  end.

(** The answer of [get_job_statistics]: the dictionary with the one key
    [total_jobs], or the dictionary with the five keys. *)
Inductive job_statistics :=
  | NoJobs
  | Counted (s : statistics).

(** [get_job_statistics]; [None] when a key cannot be hashed. *)
Definition get_job_statistics (st : JobVectorStore) : option job_statistics :=
  match jobs st with
  | [] => Some NoJobs
  | _ =>
      s ← count_jobs {| total_jobs := length (jobs st); specialties := [];
                        countries := []; remote_jobs := 0;
                        international_jobs := 0 |} (jobs st);
      Some (Counted s)
  end.

End WithRuntime.
End StoreOps.

(** ** api.py: start-up, recommendations and the counters of the
    analytics *)

Module Server.
Import VectorStore StoreOps Api.
Section WithRuntime.
Context `{Runtime}.

(** The two records of [initialize_vector_store]. *)
Definition sample_jobs : list job :=
  [ list_to_map [("id", PStr "job-1"); ("title", PStr "Software Engineer");
                 ("company", PStr "Tech Corp"); ("location", PStr "Casablanca");
                 ("job_type", PStr "CDI"); ("salary_min", PInt 45000);
                 ("salary_max", PInt 75000);
                 ("description", PStr "Python, JavaScript development")];
    list_to_map [("id", PStr "job-2"); ("title", PStr "Data Scientist");
                 ("company", PStr "AI Solutions"); ("location", PStr "Rabat");
                 ("job_type", PStr "CDI"); ("salary_min", PInt 50000);
                 ("salary_max", PInt 85000);
                 ("description", PStr "Machine learning, Python, SQL")] ].

(** [vector_store.jobs.extend(l)]. *)
Definition extend_jobs (st : JobVectorStore) (l : list job) : JobVectorStore :=
  set_data st (jobs st ++ l) (job_ids_map st).

(** [initialize_vector_store]: the answer, the global store and the
    files afterwards. *)
Definition initialize_vector_store (data_dir vector_dir : string) (d : disk)
    (t : gmap string node) : bool * JobVectorStore * disk :=
  let vector_store := init data_dir vector_dir in
  let loaded := load vector_store "job_vector_store" d in
  let after_load :=
    if fst loaded then Some (snd loaded, d)
    else
      match add_jobs_from_directory (snd loaded) t (Some data_dir) with
      | None => None
      | Some r => Some (fst r, snd (save (fst r) "job_vector_store" d))
      end in
  match after_load with
  | None => (false, init data_dir vector_dir, d)
  | Some (vector_store, d') =>
      match jobs vector_store with
      | [] => (true, extend_jobs vector_store sample_jobs, d')
      | _ => (true, vector_store, d')
      end
  end.

(** *** Recommendations *)

(** The record [get_recommendations] sends for the [i]-th result. *)
Definition format_recommendation (i : nat) (j : job) : job :=
  list_to_map
    [ ("id", get j "id" (PStr ("job-rec-" +:+ pretty i)));
      ("title", get j "title" (PStr "Unknown Title"));
      ("company", get j "company" (PStr "Unknown Company"));
      ("location", get j "location" (PStr "Unknown Location"));
      ("description", get j "description" (PStr ""));
      ("salary", get j "salary" (PStr ""));
      ("salaryMin", get j "salary_min" (PInt 0));
      ("salaryMax", get j "salary_max" (PInt 0));
      ("jobType", get j "job_type" (get j "contract_type" (PStr "")));
      ("remote", get j "remote_friendly" (PBool false));
      ("url", get j "redirect_url" (PStr ""));
      ("postedAt", get j "created" (PStr ""));
      ("skills", get j "skills" (PStrList []));
      ("category", get j "specialty" (get j "category" (PStr "")));
      ("similarityScore", get j "similarity_score" (PFloat (9 # 10))) ].

(** [get_recommendations] for a limit that is a count, a natural number;
    [Signed.get_recommendations] below follows the endpoint on any [int].
    The NaN and infinity tests of the source never fire on the floats
    modelled here. *)
Definition get_recommendations (st : JobVectorStore) (skills_param : string)
    (limit : nat) (rng : nat -> nat) : list job :=
  let skills :=
    if nonempty skills_param then strip <$> split_on ","%char "" skills_param
    else [] in
  let results :=
    match skills with
    | [] => take limit (jobs st)
    | _ => search_by_keywords st skills limit false rng
    end in
  imap format_recommendation results.

(** *** The counters of [get_analytics] *)

(** [v < m] for an integer [m]; raises unless [v] is a number. *)
Definition py_lt_int (v : pyval) (m : Z) : option bool :=
  match py_num v with
  | Some x => Some (negb (Qle_bool (inject_Z m) x))
  | None => None
  end.

Record salary_ranges := {
  range_0_30k : nat;
  range_30k_50k : nat;
  range_50k_80k : nat;
  range_80k_120k : nat;
  range_120k_plus : nat
}.

(** One turn of the loop over the salaries. *)
Definition count_salary (r : salary_ranges) (j : job) : option salary_ranges :=
  let salary := get j "salary_min" (PInt 0) in
  b1 ← py_lt_int salary 30000;
  if b1 : bool then
    Some {| range_0_30k := S (range_0_30k r); range_30k_50k := range_30k_50k r;
            range_50k_80k := range_50k_80k r; range_80k_120k := range_80k_120k r;
            range_120k_plus := range_120k_plus r |}
  else
    b2 ← py_lt_int salary 50000;
    if b2 : bool then
      Some {| range_0_30k := range_0_30k r; range_30k_50k := S (range_30k_50k r);
              range_50k_80k := range_50k_80k r; range_80k_120k := range_80k_120k r;
              range_120k_plus := range_120k_plus r |}
    else
      b3 ← py_lt_int salary 80000;
      if b3 : bool then
        Some {| range_0_30k := range_0_30k r; range_30k_50k := range_30k_50k r;
                range_50k_80k := S (range_50k_80k r); range_80k_120k := range_80k_120k r;
                range_120k_plus := range_120k_plus r |}
      else
        b4 ← py_lt_int salary 120000;
        if b4 : bool then
          Some {| range_0_30k := range_0_30k r; range_30k_50k := range_30k_50k r;
                  range_50k_80k := range_50k_80k r;
                  range_80k_120k := S (range_80k_120k r);
                  range_120k_plus := range_120k_plus r |}
        else
          Some {| range_0_30k := range_0_30k r; range_30k_50k := range_30k_50k r;
                  range_50k_80k := range_50k_80k r; range_80k_120k := range_80k_120k r;
                  range_120k_plus := S (range_120k_plus r) |}.

(** The loop over the salaries of the stored records; [None] when a
    comparison raises. *)
Fixpoint count_salaries (r : salary_ranges) (l : list job) : option salary_ranges :=
  match l with
  | [] => Some r
  | j :: rest =>
      match count_salary r j with
      | Some r' => count_salaries r' rest
      | None => None
      end
  end.

Definition salary_range_counts (st : JobVectorStore) : option salary_ranges :=
  count_salaries {| range_0_30k := 0; range_30k_50k := 0; range_50k_80k := 0;
                    range_80k_120k := 0; range_120k_plus := 0 |} (jobs st).

(** [len([j for j in jobs if j.get('salary_min') or j.get('salary_max')])]. *)
Definition jobs_with_salary (st : JobVectorStore) : nat :=
  length (List.filter (fun j => truthy (get j "salary_min" PNone)
                                || truthy (get j "salary_max" PNone)) (jobs st)).

End WithRuntime.
End Server.

(** ** Counts with a sign

    [k], [min_results] and [limit] are Python [int]s, and the endpoints
    read [limit] with [type=int], which accepts a sign.  The definitions
    above take a count for a natural number; the definitions of this
    module follow the same code on any [int].  On an [int] that is not
    negative the two agree (lemmas [search_of_nat], [search_jobs_of_nat]
    and [get_recommendations_of_nat] below). *)

Module Signed.
Import VectorStore StoreOps Api Server.

(** [l[:k]]: the first [k] elements, or all but the last [-k]. *)
Definition slice_to {A} (k : Z) (l : list A) : list A :=
  if (0 <=? k)%Z then take (Z.to_nat k) l
  else take (length l - Z.to_nat (- k)) l.

(** [random.sample(population, n)]; raises when [n] is negative or larger
    than the population. *)
Definition sample {A} (rng : nat -> nat) (population : list A) (n : Z)
    : option (list A) :=
  if (n <? 0)%Z || (Z.of_nat (length population) <? n)%Z then None
  else Some (random_sample rng population (Z.to_nat n)).

(** [index.search(query, k)]; the index asserts [k > 0]. *)
Definition index_search (index : list Faiss.vec) (query : Faiss.vec) (k : Z)
    : option (list (Q * Z)) :=
  if (0 <? k)%Z then Some (Faiss.search index query (Z.to_nat k)) else None.

Section WithRuntime.
Context `{Runtime}.

(** *** adzuna_vector_store.py *)

(** [_fallback_search]; [None] when [random.sample] raises. *)
Definition _fallback_search (st : JobVectorStore) (query : string) (k : Z)
    (filter_fn : option (job -> bool)) (rng : nat -> nat) : option (list job) :=
  let query_terms := split (lower query) in
  let scored_jobs :=
    sort_desc Faiss.Qleb similarity_score (score_jobs query_terms filter_fn (jobs st)) in
  let scored_jobs : option (list job) :=
    match scored_jobs with
    | [] =>
        match sample rng (jobs st) (Z.min k (Z.of_nat (length (jobs st)))) with
        | Some random_jobs => Some ((fun j => with_score j (1 # 10)) <$> random_jobs)
        | None => None
        end
    | _ => Some scored_jobs
    end in
  match scored_jobs with
  | Some scored_jobs => Some (slice_to k scored_jobs)
  | None => None
  end.

(** [search_similar_jobs]; [None] when the fallback raises.  The loop
    over the answer of the index runs only when the index was asked for
    [k > 0] neighbours, so that its test [len(results) >= k] is the one
    of [scan_candidates] at the count [k]. *)
Definition search_similar_jobs (st : JobVectorStore) (query : string) (k : Z)
    (filter_fn : option (job -> bool)) (rng : nat -> nat) : option (list job) :=
  match jobs st with
  | [] => Some []
  | _ =>
      let attempt :=
        query_vector ← encode query;
        let fetch :=
          match filter_fn with
          | None => k
          | Some _ => Z.min (k * 5) (Z.of_nat (length (jobs st)))
          end in
        candidates ← index_search (index st) query_vector fetch;
        Some (scan_candidates st (Z.to_nat k) filter_fn candidates []) in
      match attempt with
      | Some (r :: results) => Some (r :: results)
      | _ => _fallback_search st query k filter_fn rng
      end
  end.

Definition search_remote_jobs (st : JobVectorStore) (query : string) (k : Z)
    (rng : nat -> nat) : option (list job) :=
  search_similar_jobs st query k (Some remote_filter) rng.

Definition search_morocco_relevant (st : JobVectorStore) (query : string) (k : Z)
    (rng : nat -> nat) : option (list job) :=
  search_similar_jobs st query k (Some morocco_filter) rng.

Definition search_by_keywords (st : JobVectorStore) (keywords : list string) (k : Z)
    (require_all : bool) (rng : nat -> nat) : option (list job) :=
  let query := join " " keywords in
  search_similar_jobs st query k (Some (keyword_filter keywords require_all)) rng.

Definition search_by_job_title (st : JobVectorStore) (title : string) (k : Z)
    (rng : nat -> nat) : option (list job) :=
  search_similar_jobs st ("Title: " +:+ title) k None rng.

(** *** api.py: deduplication *)

(** The inner loop of [remove_duplicate_jobs]. *)
Fixpoint readmit (min_results : Z) (potential : list job) (unique_jobs : list job)
    : list job :=
  match potential with
  | [] => unique_jobs
  | potential_job :: rest =>
      if dict_in potential_job unique_jobs then readmit min_results rest unique_jobs
      else
        let unique_jobs' := unique_jobs ++ [potential_job] in
        if (min_results <=? Z.of_nat (length unique_jobs'))%Z then unique_jobs'
        else readmit min_results rest unique_jobs'
  end.

Definition dedupe_step (jobs : list job) (min_results : Z) (unique_jobs : list job)
    (j : job) : list job :=
  let is_duplicate := existsb (is_duplicate_job j) unique_jobs in
  let unique_jobs := if is_duplicate then unique_jobs else unique_jobs ++ [j] in
  if (Z.of_nat (length unique_jobs) <? min_results)%Z
     && too_many_removed (length jobs) (length unique_jobs)
  then readmit min_results jobs unique_jobs
  else unique_jobs.

Definition remove_duplicate_jobs (jobs : list job) (min_results : Z) : list job :=
  match jobs with
  | [] => []
  | _ =>
      if (Z.of_nat (length jobs) <=? min_results)%Z then jobs
      else foldl (dedupe_step jobs min_results) [] jobs
  end.

(** *** api.py: the search endpoint *)

(** The parameters of a request as the endpoint reads them. *)
Record request := {
  query : string;
  location : string;
  job_type : string;
  min_salary : option Z;
  remote : bool;
  morocco_only : bool;
  limit : Z;
  engineering_field : string;
  remove_duplicates : bool;
  sort_by_date : bool;
  recent_hours : option Z
}.

(** The same request with its limit as a count ([0] for a negative
    limit); the steps that do not read the limit take it in this form. *)
Definition as_count (rq : request) : Api.request := {|
  Api.query := query rq; Api.location := location rq; Api.job_type := job_type rq;
  Api.min_salary := min_salary rq; Api.remote := remote rq;
  Api.morocco_only := morocco_only rq; Api.limit := Z.to_nat (limit rq);
  Api.engineering_field := engineering_field rq;
  Api.remove_duplicates := remove_duplicates rq;
  Api.sort_by_date := sort_by_date rq; Api.recent_hours := recent_hours rq
|}.

(** Step 1, with its handler: when the search raises, the answer starts
    from the first records of the store. *)
Definition first_search (st : JobVectorStore) (rq : request) (rnd : oracle) : list job :=
  let k := (limit rq * 5)%Z in
  let attempt :=
    if morocco_only rq && remote rq then
      List.filter (fun j => truthy (get j "remote_friendly" (PBool false)))
        <$> search_morocco_relevant st (query rq) k (sample_at rnd 0)
    else if morocco_only rq then search_morocco_relevant st (query rq) k (sample_at rnd 0)
    else if remote rq then search_remote_jobs st (query rq) k (sample_at rnd 0)
    else search_similar_jobs st (query rq) k None (sample_at rnd 0) in
  match attempt with
  | Some results => results
  | None => slice_to k (jobs st)
  end.

(** Step 4a; this search has no handler of its own. *)
Definition type_fallback (st : JobVectorStore) (rq : request) (rnd : oracle)
    (results : list job) : option (list job) :=
  match results with
  | [] =>
      if nonempty (job_type rq) then
        let found :=
          if morocco_only rq
          then search_morocco_relevant st (query rq) (limit rq) (sample_at rnd 1)
          else search_similar_jobs st (query rq) (limit rq) None (sample_at rnd 1) in
        match found with
        | Some found => Some (relabel (as_count rq) <$> found)
        | None => None
        end
      else Some results
  | _ => Some results
  end.

(** Step 7. *)
Fixpoint append_new (limit : Z) (all_results : list job) (results : list job)
    (existing_ids : list pyval) : list job :=
  match all_results with
  | [] => results
  | j :: rest =>
      if (limit <=? Z.of_nat (length results))%Z then results
      else
        let id := get j "id" PNone in
        if truthy id && negb (existsb (py_eqb id) existing_ids)
        then append_new limit rest (results ++ [j]) (id :: existing_ids)
        else append_new limit rest results existing_ids
  end.

Definition recent_stage (st : JobVectorStore) (rq : request) (now : Z) (rnd : oracle)
    (results : list job) : option (list job) :=
  match recent_hours rq with
  | None => Some results
  | Some h =>
      if (0 <? h)%Z then
        let cutoff_time := (now - h * hour)%Z in
        kept ← filter_raising (not_older cutoff_time) results;
        let filtered_count := length results - length kept in
        if (Z.of_nat (length kept) <? Z.min (limit rq) 5)%Z && (0 <? filtered_count)%nat
        then
          all_results ←
            search_similar_jobs st (query rq) (limit rq * 10) None (sample_at rnd 2);
          let all_results :=
            imap (fun i j => date_more now (randint_at rnd 2 i) j) all_results in
          all_sorted ← sort_newest_first all_results;
          let existing_ids :=
            (fun j => get j "id" PNone)
              <$> List.filter (fun j => truthy (get j "id" PNone)) kept in
          Some (append_new (limit rq) all_sorted kept existing_ids)
        else Some kept
      else Some results
  end.

(** Step 8.  [generate_sample_jobs(count)] loops over [range(count)],
    which is empty for a count below 1. *)
Fixpoint append_fresh (limit : Z) (more_results : list job) (results : list job)
    : list job :=
  match more_results with
  | [] => results
  | j :: rest =>
      if (limit * 2 <=? Z.of_nat (length results))%Z then results
      else if existsb (is_duplicate_job j) results
           then append_fresh limit rest results
           else append_fresh limit rest (results ++ [j])
  end.

Definition dedupe_stage (st : JobVectorStore) (rq : request) (rnd : oracle)
    (results : list job) : option (list job) :=
  if remove_duplicates rq then
    let original_count := length results in
    let results := remove_duplicate_jobs results (limit rq) in
    let results :=
      if (Z.of_nat (length results) <? limit rq)%Z
         && (limit rq <=? Z.of_nat original_count)%Z
      then
        let more_results :=
          if morocco_only rq
          then search_morocco_relevant st (query rq) (limit rq * 2) (sample_at rnd 3)
          else search_similar_jobs st (query rq) (limit rq * 2) None (sample_at rnd 3) in
        match more_results with
        | Some more_results => Some (append_fresh (limit rq) more_results results)
        | None => None
        end
      else Some results in
    match results with
    | Some [] => Some (generate_sample_jobs (Z.to_nat (limit rq)))
    | other => other
    end
  else Some results.

(** The records that reach the formatting loop.  When step 1 falls back
    on [vector_store.jobs[:limit*5]], steps 3 and 5 write into the
    records of the store themselves; no later step of the request reads
    the store on that path, and the answer is the one computed here. *)
Definition pipeline (st : JobVectorStore) (rq : request) (now : Z) (rnd : oracle)
    : option (list job) :=
  let results := first_search st rq rnd in
  let results :=
    match results with
    | [] => slice_to (limit rq * 5) (jobs st)
    | _ => results
    end in
  enriched ← mapM infer_job_type results;
  filtered ← hard_filters (as_count rq) enriched;
  results ← type_fallback st rq rnd filtered;
  sorted ← date_stage (as_count rq) now rnd results;
  recent ← recent_stage st rq now rnd sorted;
  dedupe_stage st rq rnd recent.

Definition search_jobs (st : JobVectorStore) (rq : request) (now : Z) (rnd : oracle)
    : response :=
  match pipeline st rq now rnd with
  | None => ServerError
  | Some results =>
      match format_all now 0 (slice_to (limit rq) results) with
      | None => ServerError
      | Some formatted => Jobs formatted
      end
  end.

(** *** api.py: recommendations *)

(** [get_recommendations]: the formatted records, or the error answer
    when the search raises. *)
Definition get_recommendations (st : JobVectorStore) (skills_param : string)
    (limit : Z) (rng : nat -> nat) : response :=
  let skills :=
    if nonempty skills_param then strip <$> split_on ","%char "" skills_param
    else [] in
  let results :=
    match skills with
    | [] => Some (slice_to limit (jobs st))
    | _ => search_by_keywords st skills limit false rng
    end in
  match results with
  | Some results => Jobs (imap format_recommendation results)
  | None => ServerError
  end.

End WithRuntime.
End Signed.

(** ** Predicates of the specification *)

Module Spec.
Import VectorStore.
Section WithRuntime.
Context `{Runtime}.

(** A record the provider embeds. *)
Definition embeddable (j : job) : Prop := is_Some (_create_job_vector j).

#[export] Instance embeddable_dec j : Decision (embeddable j).
Proof. unfold embeddable. apply _. Defined.

(** Position [i] of the index holds the embedding of record [i], and the
    position map sends [i] to [i]. *)
Definition aligned (st : JobVectorStore) : Prop :=
  Forall2 (fun j v => _create_job_vector j = Some v) (jobs st) (index st)
  /\ forall i, i < length (jobs st) -> job_ids_map st !! i = Some i.

(** What one candidate of the index contributes to the answer: the
    scored copy of its record, when the position is valid and the
    predicate accepts the copy. *)
Definition hit (st : JobVectorStore) (filter_fn : option (job -> bool))
    (c : Q * Z) : option job :=
  if (snd c <? 0)%Z || (Z.of_nat (length (jobs st)) <=? snd c)%Z then None
  else
    match job_ids_map st !! Z.to_nat (snd c) with
    | None => None
    | Some job_id =>
        match jobs st !! job_id with
        | None => None
        | Some j =>
            let scored := with_score j (1 / (1 + fst c)) in
            if rejected filter_fn scored then None else Some scored
        end
    end.

(** The matching records of a candidate list, in the order of the list. *)
Definition hits (st : JobVectorStore) (filter_fn : option (job -> bool))
    (candidates : list (Q * Z)) : list job :=
  omap (hit st filter_fn) candidates.

(** A candidate at least as near as the next, with a distance that is not
    negative. *)
Definition nearer (a b : Q * Z) : Prop := (0 <= fst a)%Q /\ (fst a <= fst b)%Q.

(** A result that scores at least as high as another. *)
Definition at_least (a b : job) : Prop :=
  (similarity_score b <= similarity_score a)%Q.

(** Earlier results score at least as high as later ones. *)
Definition ranked (l : list job) : Prop :=
  forall i j r1 r2, i < j -> l !! i = Some r1 -> l !! j = Some r2 ->
    (similarity_score r2 <= similarity_score r1)%Q.

(** No two records of the list are equal as dictionaries. *)
Definition pairwise_unequal (l : list job) : Prop :=
  forall i j a b, i <> j -> l !! i = Some a -> l !! j = Some b -> dict_eqb a b = false.


(** A candidate that points at a stored record. *)
Definition points_at (st : JobVectorStore) (c : Q * Z) : Prop :=
  exists i, snd c = Z.of_nat i /\ i < length (jobs st).

(** A request whose filters let every record through. *)
Definition trivial_filters (rq : Api.request) : Prop :=
  Api.location rq = "" /\ Api.job_type rq = "" /\ Api.engineering_field rq = ""
  /\ Api.remote rq = false /\ Api.morocco_only rq = false
  /\ match Api.min_salary rq with Some m => (m <= 0)%Z | None => True end
  /\ match Api.recent_hours rq with Some h => (h <= 0)%Z | None => True end.

(** The texts the pipeline lowercases are strings (or absent, or empty). *)
Definition typed (j : job) : Prop :=
  is_Some (Api.or_empty_lower (get j "description" (PStr "")))
  /\ is_Some (Api.or_empty_lower (get j "title" (PStr ""))).

(** A stored record: typed texts, and no parsed date of its own. *)
Definition plain_record (j : job) : Prop :=
  typed j /\ j !! "_parsed_date" = None.

(** A record with no parsed date, or with a parsed date that is a date. *)
Definition dated_ok (j : job) : Prop :=
  j !! "_parsed_date" = None \/ exists t, j !! "_parsed_date" = Some (PDate t).

(** A record whose parsed date is a date. *)
Definition dated (j : job) : Prop :=
  exists t, j !! "_parsed_date" = Some (PDate t).

(** What step 3 makes of a record whose texts are typed. *)
Definition with_job_type (j : job) : job :=
  if truthy (get j "job_type" PNone) then j
  else <["job_type" :=
           PStr (Api.guess_job_type
                   (default "" (Api.or_empty_lower (get j "description" (PStr "")))))]> j.

(** Two dictionaries with the same title, company, link, location and
    description. *)
Definition same_core (a b : job) : Prop :=
  a !! "title" = b !! "title" /\ a !! "company" = b !! "company"
  /\ a !! "redirect_url" = b !! "redirect_url" /\ a !! "location" = b !! "location"
  /\ a !! "description" = b !! "description".

End WithRuntime.
End Spec.

(** ** Concrete stores *)

Module Examples.
Import VectorStore Api Concrete.

Definition titled (t : string) : job := {[ "title" := PStr t ]}.

(** Eleven records whose titles have 1 to 11 letters; the provider
    [by_length] places them on a line, one unit apart. *)
Definition eleven : list job :=
  titled <$> ["a"; "aa"; "aaa"; "aaaa"; "aaaaa"; "aaaaaa"; "aaaaaaa"; "aaaaaaaa";
              "aaaaaaaaa"; "aaaaaaaaaa"; "aaaaaaaaaaa"].

Definition store11 : JobVectorStore :=
  add_batches (H := by_length) (init "adzuna_data" "vector_store") [eleven].

(** A query as long as the text of the first record. *)
Definition query43 : string := "engineer wanted in rabat, start immediately".

(** The predicate that accepts the shortest and the longest title. *)
Definition ends_of_line (j : job) : bool :=
  py_eqb (get j "title" PNone) (PStr "a")
  || py_eqb (get j "title" PNone) (PStr "aaaaaaaaaaa").

(** A choice oracle that always draws position 0. *)
Definition first_pick : nat -> nat := fun _ => 0.

(** Two nurses, indexed by a provider that refuses the query "secret". *)
Definition nurses : list job :=
  [record "Nurse" "Clinic"; record "Night nurse" "Hospital"].

Definition store_nurses : JobVectorStore :=
  add_batches (H := picky) (init "adzuna_data" "vector_store") [nurses].

(** Two batches; the provider [picky] refuses the second record of the
    first batch. *)
Definition mixed_batches : list (list job) :=
  [[record "Nurse" "Clinic"; record "Agent" "secret service"];
   [record "Welder" "Forge"]].

Definition store_mixed : JobVectorStore :=
  add_batches (H := picky) (init "adzuna_data" "vector_store") mixed_batches.

(** Three postings of one job: equal title and company, different ids. *)
Definition posting (id : Z) : job :=
  <["id" := PInt id]> (record "Backend Developer" "Acme").

Definition three_twins : list job := [posting 1; posting 2; posting 3].

(** Four copies of one dictionary. *)
Definition four_copies : list job := replicate 4 (posting 1).

(** Two records with the same link; the first has no title. *)
Definition untitled_link : job :=
  list_to_map [("company", PStr "Acme"); ("redirect_url", PStr "https://example.com/jobs/1")].

Definition titled_link : job :=
  list_to_map [("title", PStr "Nurse"); ("company", PStr "Acme");
               ("redirect_url", PStr "https://example.com/jobs/1")].

Definition other_link : job :=
  list_to_map [("title", PStr "Welder"); ("company", PStr "Forge");
               ("redirect_url", PStr "https://example.com/jobs/1")].

(** Five different records. *)
Definition five_jobs : list job :=
  [record "Nurse" "Clinic"; record "Welder" "Forge"; record "Baker" "Mill";
   record "Pilot" "Airline"; record "Judge" "Court"].

Definition store_twins : JobVectorStore :=
  add_batches (H := by_length) (init "adzuna_data" "vector_store") [three_twins].

Definition store_five : JobVectorStore :=
  add_batches (H := by_length) (init "adzuna_data" "vector_store") [five_jobs].

(** A request with a query and a limit and no filter. *)
Definition plain_request (q : string) (n : nat) (by_date : bool) : request := {|
  query := q; location := ""; job_type := ""; min_salary := None;
  remote := false; morocco_only := false; limit := n; engineering_field := "";
  remove_duplicates := true; sort_by_date := by_date; recent_hours := None
|}.

(** Draws that are all 0. *)
Definition zeros : oracle := {| sample_at := fun _ _ => 0; randint_at := fun _ _ => 0 |}.

(** Noon of 1 January 2024, in seconds since 1970. *)
Definition noon : Z := 1704110400.

(** A snapshot whose index is readable and whose record file is not. *)
Definition other_index : list Faiss.vec := [[7%Q]; [8%Q]].

Definition half_damaged : disk := {|
  files := {[ "vector_store/job_vector_store.index" := IndexFile other_index;
              "vector_store/job_vector_store.pkl" := Damaged ]};
  read_only := []
|}.

Definition blank_disk : disk := {| files := ∅; read_only := [] |}.

End Examples.

(** ** Predicates of the further properties *)

Module Facts.
Import VectorStore StoreOps.
Section WithRuntime.
Context `{Runtime}.

(** A result that is the copy of a stored record with a score between 0
    and 1. *)
Definition scored_copy (st : JobVectorStore) (r : job) : Prop :=
  exists j s, j ∈ jobs st /\ r = with_score j s /\ (0 <= s <= 1)%Q.

(** The candidate [c] of the index and the record [r] of the answer go
    together: the position of [c] holds a record [j] whose embedding is at
    distance [fst c] of the query, and [r] is the copy of [j] with the score
    [1 / (1 + distance)]. *)
Definition answers (st : JobVectorStore) (qv : Faiss.vec) (c : Q * Z) (r : job) : Prop :=
  exists j v, jobs st !! Z.to_nat (snd c) = Some j /\ _create_job_vector j = Some v
    /\ fst c = Faiss.l2_sqr qv v
    /\ r = with_score j (1 / (1 + Faiss.l2_sqr qv v)).

(** The paths of the two files of the snapshot [name] of a store. *)
Definition index_path (st : JobVectorStore) (name : string) : string :=
  path_join (vector_dir st) (name +:+ ".index").

Definition data_path (st : JobVectorStore) (name : string) : string :=
  path_join (vector_dir st) (name +:+ ".pkl").

(** A name that is not an absolute path. *)
Definition relative (name : string) : Prop := is_prefix "/" name = false.

(** A file name: a text with no [/] in it, which names an entry of the
    directory it is joined to and nothing else. *)
Definition file_name (name : string) : Prop := contains name "/" = false.

(** A predicate that does not read the score of a record. *)
Definition reads_record_only (f : job -> bool) : Prop :=
  forall j s, f (with_score j s) = f j.

(** A text with no blank character. *)
Fixpoint no_space (s : string) : bool :=
  match s with
  | EmptyString => true
  | String c r => negb (is_space c) && no_space r
  end.

(** A word: a text that is not empty and has no blank character. *)
Definition is_word (s : string) : Prop := s <> "" /\ no_space s = true.

(** The text [keyword_filter] looks into. *)
Definition keyword_text (j : job) : string :=
  lower (py_str (get j "title" (PStr "")) +:+ " " +:+
         py_str (get j "description" (PStr ""))).

(** A record step 3 of the endpoint raises on: no contract type, and a
    description that is true and is not a string. *)
Definition malformed (j : job) : Prop :=
  truthy (get j "job_type" PNone) = false
  /\ Api.or_empty_lower (get j "description" (PStr "")) = None.

(** The keys of a record of the answer of the endpoint. *)
Definition answer_keys : list string :=
  ["id"; "title"; "company"; "location"; "description"; "salary"; "salaryMin";
   "salaryMax"; "jobType"; "remote"; "url"; "postedAt"; "skills"; "category";
   "similarityScore"; "inferredType"; "isRecent"].

(** The batches [add_jobs_from_directory] reads: the files of the listing
    whose names end in [.csv] and that [pd.read_csv] accepts. *)
Definition csv_batches (t : gmap string node) (directory : string)
    (names : list string) : list (list job) :=
  omap (fun filename =>
          if ends_with filename ".csv"
          then read_csv t (path_join directory filename)
          else None) names.

(** The sum of the counters of a dictionary. *)
Definition counted (c : list (pyval * nat)) : nat := sum_list (snd <$> c).

(** The records counted under a key: those whose value (['unknown'] when
    absent) is true. *)
Definition labelled (key : string) (l : list job) : list job :=
  List.filter (fun j => truthy (get j key (PStr "unknown"))) l.

(** A record whose specialty and country can be dictionary keys. *)
Definition plain_labels (j : job) : Prop :=
  hashable (get j "specialty" (PStr "unknown")) = true
  /\ hashable (get j "source_country" (PStr "unknown")) = true.

(** A record whose lowest salary, 0 when absent, is a number. *)
Definition numeric_salary (j : job) : Prop :=
  is_Some (py_num (get j "salary_min" (PInt 0))).

(** The sum of the five counters of the salary ranges. *)
Definition ranged (r : Server.salary_ranges) : nat :=
  Server.range_0_30k r + Server.range_30k_50k r + Server.range_50k_80k r
  + Server.range_80k_120k r + Server.range_120k_plus r.

(** One turn of a deduplication that never readmits: a record is kept
    unless it is a duplicate of a record kept before. *)
Definition keep_unseen (u : list job) (j : job) : list job :=
  if existsb (Api.is_duplicate_job j) u then u else u ++ [j].

(** No record of the list is a duplicate of a record before it. *)
Definition first_seen_only (l : list job) : Prop :=
  forall i k a b, i < k -> l !! i = Some a -> l !! k = Some b ->
    Api.is_duplicate_job b a = false.

(** Every record of [l] is in [out] or is a duplicate of a record of
    [out]. *)
Definition covers (out l : list job) : Prop :=
  forall x, x ∈ l ->
    x ∈ out \/ exists y, y ∈ out /\ Api.is_duplicate_job x y = true.

(** The records with no lowest salary at all. *)
Definition unpriced (l : list job) : list job :=
  List.filter (fun j => bool_decide (j !! "salary_min" = None)) l.

End WithRuntime.
End Facts.

(** ** More concrete stores, files and requests *)

Module Samples.
Import VectorStore StoreOps Server Api Concrete Examples.

Definition advert (title company location description : string) : job :=
  list_to_map [("title", PStr title); ("company", PStr company);
               ("location", PStr location); ("description", PStr description)].

(** A remote job and a job on site. *)
Definition desk_jobs : list job :=
  [advert "Python developer" "Acme" "Remote" "Django and SQL";
   advert "Nurse" "Clinic" "Rabat" "Night shifts"].

Definition store_desk : JobVectorStore :=
  add_batches (H := by_length) (init "adzuna_data" "vector_store") [desk_jobs].

(** A data directory with a CSV file, a file of another kind and a CSV
    file that cannot be parsed. *)
Definition data_listing : list string := ["jobs.csv"; "notes.txt"; "broken.csv"].

Definition data_tree : gmap string node :=
  {[ "adzuna_data" := Directory data_listing;
     "adzuna_data/jobs.csv" := File (Some desk_jobs);
     "adzuna_data/notes.txt" := File (Some nurses);
     "adzuna_data/broken.csv" := File None ]}.

(** A data path that is a file. *)
Definition flat_tree : gmap string node := {[ "adzuna_data" := File None ]}.

(** An earlier snapshot whose record file is write-protected. *)
Definition protected_disk : disk := {|
  files := {[ "vector_store/job_vector_store.index" := IndexFile other_index;
              "vector_store/job_vector_store.pkl" := PickleFile nurses ∅ ]};
  read_only := ["vector_store/job_vector_store.pkl"]
|}.

(** One title in one town, at two companies. *)
Definition at_acme : job := advert "Software Engineer" "Acme" "Casablanca" "".
Definition at_globex : job := advert "software engineer" "Globex" "casablanca" "".

(** A record whose description is a number. *)
Definition numbered : job :=
  list_to_map [("title", PStr "Clerk"); ("description", PInt 7)].

Definition store_numbered : JobVectorStore :=
  add_batches (H := by_length) (init "adzuna_data" "vector_store")
    [[record "Nurse" "Clinic"; numbered]].

(** The counters of five records without salary. *)
Definition five_below_30k : salary_ranges := {|
  range_0_30k := 5; range_30k_50k := 0; range_50k_80k := 0;
  range_80k_120k := 0; range_120k_plus := 0
|}.

(** A request as the endpoint reads it: a query, a limit with its sign,
    and no filter. *)
Definition plain_query (q : string) (n : Z) (by_date : bool) : Signed.request := {|
  Signed.query := q; Signed.location := ""; Signed.job_type := "";
  Signed.min_salary := None; Signed.remote := false; Signed.morocco_only := false;
  Signed.limit := n; Signed.engineering_field := "";
  Signed.remove_duplicates := true; Signed.sort_by_date := by_date;
  Signed.recent_hours := None
|}.

(** The first record of an answer of the endpoint. *)
Definition first_answer : job :=
  default ∅ (head (response_jobs
                     (search_jobs (H := by_length) store_five
                        (plain_request "developer" 3 true) noon zeros))).

End Samples.

(** * Properties *)

(** ** Adding batches keeps index, records and position map aligned *)

Section Alignment.
Context `{Runtime}.
Import VectorStore Spec.

Lemma embed_jobs_spec (ci : nat) (batch : list job) (s : batch_state) :
  let s' := embed_jobs ci batch s in
  let kept := filter embeddable batch in
  valid_jobs s' = valid_jobs s ++ kept
  /\ added s' = added s + length kept
  /\ (exists vs, vectors s' = vectors s ++ vs
                 /\ Forall2 (fun j v => _create_job_vector j = Some v) kept vs)
  /\ (forall i, ids s' !! i =
        if bool_decide (ci + added s <= i < ci + added s + length kept)
        then Some i else ids s !! i).
Proof.
  revert s. induction batch as [|j rest IH]; intros s; simpl.
  - rewrite !app_nil_r, Nat.add_0_r. repeat split; [exists []; by rewrite app_nil_r|].
    intros i. case_bool_decide; [lia|done].
  - destruct (_create_job_vector j) as [v|] eqn:Hv.
    + rewrite filter_cons_True by (unfold embeddable; rewrite Hv; eauto).
      destruct (IH {| vectors := vectors s ++ [v]; valid_jobs := valid_jobs s ++ [j];
                      ids := <[ci + added s := ci + added s]> (ids s);
                      added := S (added s) |}) as (Hj & Ha & (vs & Hvs & Hf) & Hi).
      simpl in *. rewrite Hj, Ha, <- !app_assoc. simpl.
      repeat split; [lia| |].
      * exists (v :: vs). rewrite Hvs, <- app_assoc. split; [done|]. by constructor.
      * intros i. rewrite Hi.
        repeat case_bool_decide; try lia; try done.
        -- destruct (decide (i = ci + added s)) as [->|Hne].
           ++ by rewrite lookup_insert_eq.
           ++ lia.
        -- rewrite lookup_insert_ne by lia. done.
    + rewrite filter_cons_False by (unfold embeddable; rewrite Hv; by intros [? ?]).
      apply IH.
Qed.

Lemma add_jobs_spec (st : JobVectorStore) (batch : list job) :
  let r := add_jobs_from_dataframe st batch in
  let kept := filter embeddable batch in
  jobs (fst r) = jobs st ++ kept
  /\ snd r = length kept
  /\ length (index (fst r)) = length (index st) + length kept
  /\ (aligned st -> aligned (fst r)).
Proof.
  unfold add_jobs_from_dataframe.
  pose proof (embed_jobs_spec (length (jobs st)) batch
    {| vectors := []; valid_jobs := []; ids := job_ids_map st; added := 0 |})
    as (Hj & Ha & (vs & Hvs & Hf) & Hi).
  simpl in Hj, Ha, Hvs, Hi.
  set (s' := embed_jobs _ _ _) in *.
  pose proof (Forall2_length _ _ _ Hf) as Hlen.
  destruct (0 <? added s') eqn:Hpos; simpl.
  - rewrite Hj, Hvs. split_and!; [done|lia|rewrite length_app; lia|].
    intros [Hal Hmap]. split; simpl.
    + by apply Forall2_app.
    + intros i Hlt. rewrite Hi. rewrite length_app in Hlt.
      case_bool_decide; [done|]. apply Hmap. lia.
  - apply Nat.ltb_ge in Hpos.
    assert (length (filter embeddable batch) = 0) as Hz by lia.
    apply nil_length_inv in Hz. rewrite Hz in *. rewrite app_nil_r.
    split_and!; [done|simpl; lia|simpl; lia|].
    intros [Hal Hmap]. split; simpl; [done|].
    intros i Hlt. rewrite Hi. simpl. case_bool_decide; [lia|]. by apply Hmap.
Qed.

Lemma add_batches_spec (st : JobVectorStore) (batches : list (list job)) :
  jobs (add_batches st batches) = jobs st ++ filter embeddable (concat batches)
  /\ (aligned st -> aligned (add_batches st batches)).
Proof.
  revert st. induction batches as [|b rest IH]; intros st; simpl.
  - by rewrite app_nil_r.
  - destruct (add_jobs_spec st b) as (Hj & _ & _ & Hal).
    destruct (IH (fst (add_jobs_from_dataframe st b))) as [Hj' Hal'].
    unfold add_batches in *. simpl. split.
    + rewrite Hj', Hj, filter_app, app_assoc. done.
    + auto.
Qed.

Lemma aligned_init (dd vd : string) : aligned (init dd vd).
Proof. split; simpl; [constructor|]. intros i Hi. lia. Qed.

Lemma aligned_lookup (st : JobVectorStore) (i : nat) (v : Faiss.vec) :
  aligned st -> index st !! i = Some v ->
  exists r, job_ids_map st !! i = Some i /\ jobs st !! i = Some r
            /\ _create_job_vector r = Some v.
Proof.
  intros [Hal Hmap] Hv.
  destruct (Forall2_lookup_r _ _ _ _ _ Hal Hv) as (r & Hr & Hrv).
  exists r. split_and!; [|done|done].
  apply Hmap. by eapply lookup_lt_Some.
Qed.

(** A store filled batch by batch from nothing is aligned. *)
Lemma aligned_from_init (dd vd : string) (batches : list (list job)) :
  aligned (add_batches (init dd vd) batches).
Proof. apply add_batches_spec, aligned_init. Qed.

(** C1.  After any sequence of batches added to a new store, every
    position of the index holds the embedding of the canonical text of the
    record its position map entry points to, index and records have the
    same length, and the records are the embeddable records of the
    batches, in order.  Every batch keeps an aligned store aligned and adds
    as many index positions as it has embeddable records, so a record
    whose embedding fails advances nothing. *)
Theorem C1_alignment_invariant (dd vd : string) (batches : list (list job)) :
  let st := add_batches (init dd vd) batches in
  (forall i v, index st !! i = Some v ->
     exists p r, job_ids_map st !! i = Some p /\ jobs st !! p = Some r
                 /\ _create_job_vector r = Some v)
  /\ length (index st) = length (jobs st)
  /\ jobs st = filter embeddable (concat batches)
  /\ (forall s b,
        snd (add_jobs_from_dataframe s b) = length (filter embeddable b)
        /\ jobs (fst (add_jobs_from_dataframe s b)) = jobs s ++ filter embeddable b
        /\ length (index (fst (add_jobs_from_dataframe s b)))
            = length (index s) + length (filter embeddable b)
        /\ (aligned s -> aligned (fst (add_jobs_from_dataframe s b)))).
Proof.
  intros st.
  destruct (add_batches_spec (init dd vd) batches) as [Hj Hal].
  specialize (Hal (aligned_init dd vd)). fold st in Hj, Hal.
  split_and!.
  - intros i v Hv. destruct (aligned_lookup st i v Hal Hv) as (r & ? & ? & ?).
    by exists i, r.
  - destruct Hal as [Hal _]. symmetry. by eapply Forall2_length.
  - done.
  - intros s b. destruct (add_jobs_spec s b) as (? & ? & ? & ?). done.
Qed.
End Alignment.

Lemma C1_witness :
  exists p r,
    VectorStore.job_ids_map Examples.store_mixed !! 1 = Some p
    /\ VectorStore.jobs Examples.store_mixed !! p = Some r
    /\ VectorStore._create_job_vector (H := Concrete.picky) r
       = Some [inject_Z 53].
Proof.
  apply (proj1 (C1_alignment_invariant (H := Concrete.picky)
                  "adzuna_data" "vector_store" Examples.mixed_batches) 1).
  vm_compute. reflexivity.
Defined.

(** ** Sorting *)

Lemma StronglySorted_lookup {A} (R : A -> A -> Prop) (l : list A) (i j : nat) (a b : A) :
  StronglySorted R l -> i < j -> l !! i = Some a -> l !! j = Some b -> R a b.
Proof.
  intros Hs. revert i j. induction Hs as [|x l Hs IH Hall]; intros i j Hij Ha Hb.
  - by rewrite lookup_nil in Ha.
  - destruct j as [|j]; [lia|]. destruct i as [|i]; simpl in *.
    + inversion Ha; subst. rewrite Forall_forall in Hall. apply Hall.
      by eapply list_elem_of_lookup_2.
    + eapply IH; [|done..]. lia.
Qed.

Lemma StronglySorted_take {A} (R : A -> A -> Prop) (l : list A) (n : nat) :
  StronglySorted R l -> StronglySorted R (take n l).
Proof.
  intros Hs. revert n. induction Hs as [|x l Hs IH Hall]; intros [|n]; simpl;
    try constructor; [apply IH|].
  rewrite Forall_forall in *. intros y Hy. apply Hall.
  apply elem_of_take in Hy as (i & Hi & _). by eapply list_elem_of_lookup_2.
Qed.

Lemma StronglySorted_weaken {A} (R R' : A -> A -> Prop) (l : list A) :
  (forall a b, R a b -> R' a b) -> StronglySorted R l -> StronglySorted R' l.
Proof.
  intros HR Hs. induction Hs as [|x l Hs IH Hall]; constructor; [done|].
  eapply Forall_impl; [exact Hall|]. intros y. apply HR.
Qed.

Lemma StronglySorted_omap {A B} (R : A -> A -> Prop) (R' : B -> B -> Prop)
    (g : A -> option B) (l : list A) :
  (forall a b a' b', R a b -> g a = Some a' -> g b = Some b' -> R' a' b') ->
  StronglySorted R l -> StronglySorted R' (omap g l).
Proof.
  intros Hg Hs. induction Hs as [|x l Hs IH Hall]; simpl; [constructor|].
  destruct (g x) as [x'|] eqn:Hx; [|done].
  constructor; [done|]. rewrite Forall_forall. intros y' Hy'.
  apply list_elem_of_omap in Hy' as (y & Hy & Hgy).
  rewrite Forall_forall in Hall. eapply Hg; [|done..]. by apply Hall.
Qed.

Section SortDescFacts.
Context {A K : Type} (leb : K -> K -> bool) (key : A -> K).
Hypothesis leb_total : forall x y, leb x y = true \/ leb y x = true.
Hypothesis leb_trans : forall x y z, leb x y = true -> leb y z = true -> leb x z = true.

Lemma insert_desc_perm (x : A) (l : list A) : insert_desc leb key x l ≡ₚ x :: l.
Proof.
  induction l as [|y r IH]; simpl; [done|].
  destruct (leb (key y) (key x)); [done|]. rewrite IH. apply Permutation_swap.
Qed.

Lemma sort_desc_perm (l : list A) : sort_desc leb key l ≡ₚ l.
Proof.
  induction l as [|x r IH]; simpl; [done|]. by rewrite insert_desc_perm, IH.
Qed.

Lemma insert_desc_sorted (x : A) (l : list A) :
  StronglySorted (fun a b => leb (key b) (key a) = true) l ->
  StronglySorted (fun a b => leb (key b) (key a) = true) (insert_desc leb key x l).
Proof.
  intros Hs. induction Hs as [|y r Hs IH Hall]; simpl.
  - repeat constructor.
  - destruct (leb (key y) (key x)) eqn:Hyx.
    + constructor; [by constructor|]. constructor; [done|].
      rewrite Forall_forall in *. intros z Hz. eapply leb_trans; [by apply Hall|done].
    + constructor; [done|].
      rewrite Forall_forall in *. intros z Hz.
      rewrite insert_desc_perm in Hz.
      apply elem_of_cons in Hz as [->|Hz].
      * destruct (leb_total (key x) (key y)) as [?|Hc]; [done|congruence].
      * by apply Hall.
Qed.

Lemma sort_desc_sorted (l : list A) :
  StronglySorted (fun a b => leb (key b) (key a) = true) (sort_desc leb key l).
Proof.
  induction l as [|x r IH]; simpl; [constructor|]. by apply insert_desc_sorted.
Qed.

End SortDescFacts.

Lemma Qleb_total (x y : Q) : Faiss.Qleb x y = true \/ Faiss.Qleb y x = true.
Proof.
  unfold Faiss.Qleb. rewrite !Qle_bool_iff.
  destruct (Qlt_le_dec x y) as [Hlt|Hle]; [left; by apply Qlt_le_weak|by right].
Qed.

Lemma Qleb_trans (x y z : Q) :
  Faiss.Qleb x y = true -> Faiss.Qleb y z = true -> Faiss.Qleb x z = true.
Proof. unfold Faiss.Qleb. rewrite !Qle_bool_iff. apply Qle_trans. Qed.

(** ** The index answers nearest first *)

Lemma l2_sqr_nonneg (a b : Faiss.vec) : (0 <= Faiss.l2_sqr a b)%Q.
Proof.
  assert (forall z : Q, 0 <= z * z)%Q as Hsq by (intros z; nra).
  revert b. induction a as [|x a IH]; intros [|y b]; try apply Qle_refl.
  change (0 <= (x - y) * (x - y) + Faiss.l2_sqr a b)%Q.
  specialize (IH b). specialize (Hsq (x - y)%Q).
  apply (Qle_trans _ (0 + 0)); [apply Qle_refl|]. by apply Qplus_le_compat.
Qed.

Lemma insert_asc_perm (x : Q * Z) (l : list (Q * Z)) : Faiss.insert_asc x l ≡ₚ x :: l.
Proof.
  induction l as [|y r IH]; simpl; [done|].
  destruct (Faiss.Qleb (fst x) (fst y)); [done|]. rewrite IH. apply Permutation_swap.
Qed.

Lemma sort_asc_perm (l : list (Q * Z)) : Faiss.sort_asc l ≡ₚ l.
Proof.
  induction l as [|x r IH]; simpl; [done|]. by rewrite insert_asc_perm, IH.
Qed.

Lemma insert_asc_sorted (x : Q * Z) (l : list (Q * Z)) :
  StronglySorted (fun a b => (fst a <= fst b)%Q) l ->
  StronglySorted (fun a b => (fst a <= fst b)%Q) (Faiss.insert_asc x l).
Proof.
  intros Hs. induction Hs as [|y r Hs IH Hall]; simpl.
  - repeat constructor.
  - destruct (Faiss.Qleb (fst x) (fst y)) eqn:Hxy.
    + apply Qle_bool_iff in Hxy.
      constructor; [by constructor|]. constructor; [done|].
      rewrite Forall_forall in *. intros z Hz.
      eapply Qle_trans; [done|]. by apply Hall.
    + constructor; [done|].
      rewrite Forall_forall in *. intros z Hz.
      rewrite insert_asc_perm in Hz.
      apply elem_of_cons in Hz as [->|Hz].
      * destruct (Qleb_total (fst x) (fst y)) as [?|Hc]; [congruence|].
        by apply Qle_bool_iff in Hc.
      * by apply Hall.
Qed.

Lemma sort_asc_sorted (l : list (Q * Z)) :
  StronglySorted (fun a b => (fst a <= fst b)%Q) (Faiss.sort_asc l).
Proof.
  induction l as [|x r IH]; simpl; [constructor|]. by apply insert_asc_sorted.
Qed.

Lemma sorted_nearer (l : list (Q * Z)) :
  Forall (fun c => (0 <= fst c)%Q) l ->
  StronglySorted (fun a b => (fst a <= fst b)%Q) l -> StronglySorted Spec.nearer l.
Proof.
  intros Hpos Hs. induction Hs as [|x l Hs IH Hall]; [constructor|].
  inversion Hpos; subst. constructor; [by apply IH|].
  eapply Forall_impl; [exact Hall|]. intros z Hz. by split.
Qed.

(** ** Similarity search *)

Section Search.
Context `{Runtime}.
Import VectorStore Spec.

Lemma similarity_score_with_score (j : job) (s : Q) :
  similarity_score (with_score j s) = s.
Proof. unfold similarity_score, with_score. by rewrite lookup_insert_eq. Qed.

(** The loop keeps what it has and adds the next matching candidates, up
    to [k] results (at least one more, since the bound is tested after the
    record is added). *)
Lemma scan_candidates_spec (st : JobVectorStore) (k : nat)
    (filter_fn : option (job -> bool)) (candidates : list (Q * Z)) (results : list job) :
  scan_candidates st k filter_fn candidates results
  = results ++ take (max 1 (k - length results)) (hits st filter_fn candidates).
Proof.
  revert results. induction candidates as [|[dist idx] rest IH]; intros results; simpl.
  - by rewrite take_nil, app_nil_r.
  - unfold hits in *. simpl. unfold hit at 1. simpl.
    destruct ((idx <? 0)%Z || (Z.of_nat (length (jobs st)) <=? idx)%Z); [apply IH|].
    destruct (job_ids_map st !! Z.to_nat idx) as [job_id|]; [|apply IH].
    destruct (jobs st !! job_id) as [j|]; [|apply IH].
    destruct (rejected filter_fn (with_score j (1 / (1 + dist)))); [apply IH|].
    rewrite length_app. simpl.
    destruct (k <=? length results + 1) eqn:Hk.
    + apply Nat.leb_le in Hk.
      replace (max 1 (k - length results)) with 1 by lia. done.
    + apply Nat.leb_gt in Hk. rewrite IH, length_app. simpl.
      replace (max 1 (k - length results)) with (S (k - (length results + 1))) by lia.
      replace (max 1 (k - (length results + 1))) with (k - (length results + 1)) by lia.
      simpl. by rewrite <- app_assoc.
Qed.

Lemma hit_score (st : JobVectorStore) (f : option (job -> bool)) (c : Q * Z) (r : job) :
  hit st f c = Some r -> similarity_score r = (1 / (1 + fst c))%Q.
Proof.
  unfold hit. destruct (_ || _); [done|].
  destruct (job_ids_map st !! _); [|done]. destruct (jobs st !! _); [|done].
  destruct (rejected f _); [done|]. intros [= <-]. apply similarity_score_with_score.
Qed.

Lemma score_antitone (a b : Q * Z) :
  nearer a b -> (1 / (1 + fst b) <= 1 / (1 + fst a))%Q.
Proof.
  intros [Ha Hab].
  assert (0 < 1 + fst a)%Q by lra. assert (0 < 1 + fst b)%Q by lra.
  apply Qle_shift_div_l; [done|].
  assert (1 / (1 + fst b) * (1 + fst a) == (1 + fst a) / (1 + fst b))%Q as ->
    by (field; lra).
  apply Qle_shift_div_r; [done|]. lra.
Qed.

(** The padding of a short answer gives no result. *)
Lemma hits_search (st : JobVectorStore) (f : option (job -> bool)) (qv : Faiss.vec) (k : nat) :
  hits st f (Faiss.search (index st) qv k)
  = hits st f (take k (Faiss.sort_asc (Faiss.distances (index st) qv))).
Proof.
  unfold Faiss.search, hits. rewrite omap_app.
  set (pad := replicate _ _).
  assert (omap (hit st f) pad = []) as ->; [|by rewrite app_nil_r].
  unfold pad. induction (k - _) as [|n IH]; [done|]. exact IH.
Qed.

Lemma search_length (idx : list Faiss.vec) (qv : Faiss.vec) (k : nat) :
  length (Faiss.search idx qv k) = k.
Proof.
  unfold Faiss.search. rewrite length_app, length_replicate.
  pose proof (firstn_le_length k (Faiss.sort_asc (Faiss.distances idx qv))). lia.
Qed.

Lemma distances_nonneg (idx : list Faiss.vec) (qv : Faiss.vec) :
  Forall (fun c => (0 <= fst c)%Q) (Faiss.distances idx qv).
Proof.
  unfold Faiss.distances. rewrite Forall_forall. intros c Hc.
  apply list_elem_of_lookup in Hc as [i Hi].
  rewrite list_lookup_imap in Hi. destruct (idx !! i); [|done].
  simpl in Hi. inversion Hi; subst. apply l2_sqr_nonneg.
Qed.

Lemma ranked_candidates (idx : list Faiss.vec) (qv : Faiss.vec) (k : nat) :
  StronglySorted nearer (take k (Faiss.sort_asc (Faiss.distances idx qv))).
Proof.
  apply StronglySorted_take, sorted_nearer; [|apply sort_asc_sorted].
  rewrite sort_asc_perm. apply distances_nonneg.
Qed.

Lemma ranked_of_sorted (l : list job) : StronglySorted at_least l -> ranked l.
Proof. intros Hs i j r1 r2 Hij H1 H2. by eapply (StronglySorted_lookup at_least). Qed.

Lemma hits_sorted (st : JobVectorStore) (f : option (job -> bool)) (qv : Faiss.vec) (k : nat) :
  StronglySorted at_least (hits st f (Faiss.search (index st) qv k)).
Proof.
  rewrite hits_search. eapply StronglySorted_omap; [|apply ranked_candidates].
  intros a b a' b' Hab Ha Hb. unfold at_least.
  rewrite (hit_score _ _ _ _ Ha), (hit_score _ _ _ _ Hb). by apply score_antitone.
Qed.

Lemma random_sample_length {A} (rng : nat -> nat) (l : list A) (n : nat) :
  n <= length l -> length (random_sample rng l n) = n.
Proof.
  revert l. induction n as [|n IH]; intros l Hn; simpl; [done|].
  assert (rng n mod length l < length l) as Hlt by (apply Nat.mod_upper_bound; lia).
  destruct (lookup_lt_is_Some_2 l _ Hlt) as [x ->]. simpl. f_equal.
  apply IH. rewrite length_delete; [lia|]. by apply lookup_lt_is_Some_2.
Qed.

Lemma random_sample_subset {A} (rng : nat -> nat) (l : list A) (n : nat) (x : A) :
  x ∈ random_sample rng l n -> x ∈ l.
Proof.
  revert l. induction n as [|n IH]; intros l; simpl; [by rewrite elem_of_nil|].
  destruct (l !! _) as [y|] eqn:Hy; [|by rewrite elem_of_nil].
  rewrite elem_of_cons. intros [->|Hx]; [by eapply list_elem_of_lookup_2|].
  apply IH in Hx. by eapply list_elem_of_delete_inv.
Qed.

(** The three cases of the fallback. *)
Lemma fallback_cases (st : JobVectorStore) (q : string) (k : nat)
    (f : option (job -> bool)) (rng : nat -> nat) :
  let scored := score_jobs (split (lower q)) f (jobs st) in
  _fallback_search st q k f rng =
    match scored with
    | [] => (fun j => with_score j (1 # 10))
              <$> random_sample rng (jobs st) (min k (length (jobs st)))
    | _ => take k (sort_desc Faiss.Qleb similarity_score scored)
    end.
Proof.
  intros scored. unfold _fallback_search. fold scored.
  destruct scored as [|s0 rest] eqn:Hs.
  - simpl. apply take_ge. rewrite length_fmap, random_sample_length; lia.
  - set (sorted := sort_desc _ _ _).
    assert (length sorted = S (length rest)) as Hlen.
    { unfold sorted. by rewrite (sort_desc_perm Faiss.Qleb similarity_score (s0 :: rest)). }
    destruct sorted; [done|done].
Qed.

Lemma fallback_sorted (st : JobVectorStore) (q : string) (k : nat)
    (f : option (job -> bool)) (rng : nat -> nat) :
  StronglySorted at_least (_fallback_search st q k f rng).
Proof.
  rewrite fallback_cases. destruct (score_jobs _ _ _) as [|s0 rest].
  - induction (random_sample _ _ _) as [|x l IH]; simpl; constructor; [done|].
    rewrite Forall_forall. intros y Hy. apply list_elem_of_fmap in Hy as (z & -> & _).
    unfold at_least. rewrite !similarity_score_with_score. apply Qle_refl.
  - apply StronglySorted_take.
    eapply StronglySorted_weaken; [|apply (sort_desc_sorted Faiss.Qleb similarity_score);
      [apply Qleb_total|apply Qleb_trans]].
    intros a b Hab. by apply Qle_bool_iff in Hab.
Qed.

Lemma fallback_nonempty (st : JobVectorStore) (q : string) (k : nat)
    (f : option (job -> bool)) (rng : nat -> nat) :
  1 <= k -> jobs st <> [] -> _fallback_search st q k f rng <> [].
Proof.
  intros Hk Hj. rewrite fallback_cases.
  assert (forall A (l : list A), 0 < length l -> l <> []) as Hne
    by (intros A [|] ?; simpl in *; [lia|done]).
  apply Hne. destruct (score_jobs _ _ _) as [|s0 rest] eqn:Hs.
  - rewrite length_fmap, random_sample_length by lia.
    destruct (jobs st); [done|simpl; lia].
  - rewrite length_take, (sort_desc_perm Faiss.Qleb similarity_score (s0 :: rest)).
    simpl. lia.
Qed.

End Search.

(** ** The claims on search *)

Section SearchClaims.
Context `{Runtime}.
Import VectorStore Spec.

Lemma search_cases (st : JobVectorStore) (q : string) (k : nat)
    (f : option (job -> bool)) (rng : nat -> nat) :
  jobs st <> [] ->
  search_similar_jobs st q k f rng =
    match encode q with
    | None => _fallback_search st q k f rng
    | Some qv =>
        let fetch := match f with
                     | None => k
                     | Some _ => min (k * 5) (length (jobs st))
                     end in
        match take (max 1 k) (hits st f (Faiss.search (index st) qv fetch)) with
        | [] => _fallback_search st q k f rng
        | results => results
        end
    end.
Proof.
  intros Hj. unfold search_similar_jobs. destruct (jobs st) eqn:Hjobs; [done|].
  rewrite <- Hjobs. destruct (encode q) as [qv|]; [|done].
  rewrite scan_candidates_spec. simpl. by rewrite Nat.sub_0_r.
Qed.

(** C5.  For [1 <= k], the answer of [search_similar_jobs] is empty
    exactly when the store is empty: an empty store gives the empty list,
    and on a store with records the fallback ends with records drawn from
    the store. *)
Theorem C5_search_empty_iff_store_empty (st : JobVectorStore) (q : string) (k : nat)
    (f : option (job -> bool)) (rng : nat -> nat) :
  1 <= k ->
  search_similar_jobs st q k f rng = [] <-> jobs st = [].
Proof.
  intros Hk. split.
  - intros Hres. destruct (decide (jobs st = [])) as [|Hne]; [done|exfalso].
    rewrite search_cases in Hres by done.
    pose proof (fallback_nonempty st q k f rng Hk Hne) as Hfb.
    destruct (encode q) as [qv|]; [|done].
    simpl in Hres. destruct (take _ _); done.
  - intros Hj. unfold search_similar_jobs. by rewrite Hj.
Qed.

(** C9.  In the answer of [search_similar_jobs], a result that comes
    before another scores at least as high, whichever path produced the
    answer: the index, the keyword scorer or the random draw. *)
Theorem C9_similarity_ordering (st : JobVectorStore) (q : string) (k : nat)
    (f : option (job -> bool)) (rng : nat -> nat) :
  ranked (search_similar_jobs st q k f rng).
Proof.
  apply ranked_of_sorted.
  destruct (decide (jobs st = [])) as [Hj|Hne].
  - unfold search_similar_jobs. rewrite Hj. constructor.
  - rewrite search_cases by done.
    pose proof (fallback_sorted st q k f rng) as Hfb.
    destruct (encode q) as [qv|]; [|done]. simpl.
    destruct (take _ _) eqn:Ht; [done|]. rewrite <- Ht.
    apply StronglySorted_take, hits_sorted.
Qed.

(** C6, as the code has it.  With a predicate, the scan runs over the
    [min (5 * k) n] nearest candidates of a store of [n] records, not over
    all of them: when one of these candidates matches, the answer is the
    first [k] matching candidates among them, in the order of the index. *)
Theorem C6_scan_bounded_pool (st : JobVectorStore) (q : string) (k : nat)
    (f : job -> bool) (rng : nat -> nat) (qv : Faiss.vec) :
  1 <= k ->
  jobs st <> [] ->
  encode q = Some qv ->
  let pool := Faiss.search (index st) qv (min (k * 5) (length (jobs st))) in
  hits st (Some f) pool <> [] ->
  length pool = min (k * 5) (length (jobs st))
  /\ search_similar_jobs st q k (Some f) rng = take k (hits st (Some f) pool).
Proof.
  intros Hk Hne Hq pool Hhits. split; [apply search_length|].
  rewrite search_cases, Hq by done. simpl. fold pool.
  replace (max 1 k) with k by lia.
  destruct (hits st (Some f) pool) as [|h rest] eqn:Hh; [done|].
  destruct k; [lia|done].
Qed.

End SearchClaims.

(** The random draw of the fallback, for any collaborators. *)
Lemma random_fallback `{Runtime} (st : VectorStore.JobVectorStore) (q : string) (k : nat)
    (f : job -> bool) (rng : nat -> nat) :
  VectorStore.jobs st <> [] ->
  (encode q = None
   \/ exists qv, encode q = Some qv
        /\ Spec.hits st (Some f)
             (Faiss.search (VectorStore.index st) qv
                (min (k * 5) (length (VectorStore.jobs st)))) = []) ->
  VectorStore.score_jobs (split (lower q)) (Some f) (VectorStore.jobs st) = [] ->
  VectorStore.search_similar_jobs st q k (Some f) rng
  = (fun j => VectorStore.with_score j (1 # 10))
      <$> random_sample rng (VectorStore.jobs st) (min k (length (VectorStore.jobs st))).
Proof.
  intros Hne Hpath Hscored.
  rewrite search_cases by done.
  assert (VectorStore._fallback_search st q k (Some f) rng
          = (fun j => VectorStore.with_score j (1 # 10))
              <$> random_sample rng (VectorStore.jobs st)
                    (min k (length (VectorStore.jobs st)))) as Hfb.
  { rewrite fallback_cases. simpl. by rewrite Hscored. }
  destruct Hpath as [->|(qv & -> & Hh)]; [done|].
  simpl. by rewrite Hh, take_nil.
Qed.

(** C10.  When the search with a predicate reaches the fallback and the
    keyword scorer keeps no record, the answer is a random draw of
    [min k n] records of the whole store, each with score 1/10, and the
    predicate is not applied to them; so there are a store and a predicate
    for which a returned record does not satisfy the predicate. *)
Theorem C10_last_resort_ignores_predicate :
  (forall (R : Runtime) (st : VectorStore.JobVectorStore) (q : string) (k : nat)
          (f : job -> bool) (rng : nat -> nat),
     VectorStore.jobs st <> [] ->
     (encode q = None
      \/ exists qv, encode q = Some qv
           /\ Spec.hits st (Some f)
                (Faiss.search (VectorStore.index st) qv
                   (min (k * 5) (length (VectorStore.jobs st)))) = []) ->
     VectorStore.score_jobs (split (lower q)) (Some f) (VectorStore.jobs st) = [] ->
     let results := VectorStore.search_similar_jobs st q k (Some f) rng in
     results = (fun j => VectorStore.with_score j (1 # 10))
                 <$> random_sample rng (VectorStore.jobs st)
                       (min k (length (VectorStore.jobs st)))
     /\ length results = min k (length (VectorStore.jobs st))
     /\ (forall r, r ∈ results ->
           exists j, j ∈ VectorStore.jobs st /\ r = VectorStore.with_score j (1 # 10)))
  /\ (exists (R : Runtime) (st : VectorStore.JobVectorStore) (q : string) (k : nat)
             (f : job -> bool) (rng : nat -> nat) (r : job),
        r ∈ VectorStore.search_similar_jobs st q k (Some f) rng /\ f r = false).
Proof.
  split.
  - intros R st q k f rng Hne Hpath Hscored results.
    unfold results. rewrite (random_fallback st q k f rng Hne Hpath Hscored).
    split_and!; [done| |].
    + rewrite length_fmap, random_sample_length; lia.
    + intros r Hr. apply list_elem_of_fmap in Hr as (j & -> & Hj).
      exists j. split; [|done]. by eapply random_sample_subset.
  - exists Concrete.picky, Examples.store_nurses, "secret", 5,
      (VectorStore.remote_filter (H := Concrete.picky)), Examples.first_pick,
      (VectorStore.with_score (Concrete.record "Nurse" "Clinic") (1 # 10)).
    split; [|by vm_compute].
    apply list_elem_of_lookup. exists 0. by vm_compute.
Qed.

Lemma C10_witness :
  VectorStore.search_similar_jobs (H := Concrete.picky) Examples.store_nurses "secret" 5
    (Some (VectorStore.remote_filter (H := Concrete.picky))) Examples.first_pick
  = (fun j => VectorStore.with_score j (1 # 10))
      <$> random_sample Examples.first_pick (VectorStore.jobs Examples.store_nurses)
            (min 5 (length (VectorStore.jobs Examples.store_nurses))).
Proof.
  apply (proj1 C10_last_resort_ignores_predicate Concrete.picky Examples.store_nurses
           "secret" 5 (VectorStore.remote_filter (H := Concrete.picky))
           Examples.first_pick).
  - vm_compute. discriminate.
  - left. vm_compute. reflexivity.
  - vm_compute. reflexivity.
Defined.

Lemma C5_witness :
  1 <= 2
  /\ (VectorStore.search_similar_jobs (H := Concrete.by_length) Examples.store11
        Examples.query43 2 None Examples.first_pick = []
      <-> VectorStore.jobs Examples.store11 = []).
Proof.
  split; [lia|].
  apply (C5_search_empty_iff_store_empty (H := Concrete.by_length) Examples.store11
           Examples.query43 2 None Examples.first_pick).
  lia.
Defined.

Lemma C9_witness :
  (VectorStore.similarity_score
     (VectorStore.with_score (Examples.titled "aa") (1 # 2))
   <= VectorStore.similarity_score
        (VectorStore.with_score (Examples.titled "a") 1))%Q.
Proof.
  apply (C9_similarity_ordering (H := Concrete.by_length) Examples.store11
           Examples.query43 3 None Examples.first_pick 0 1).
  - lia.
  - vm_compute. reflexivity.
  - vm_compute. reflexivity.
Defined.

(** C6 as stated fails: the store holds two records that satisfy the
    predicate, the search is asked for two results, and it returns one:
    the scan stops after the ten nearest candidates of eleven, and the
    second matching record is the eleventh. *)
Lemma C6_counterexample :
  VectorStore.search_similar_jobs (H := Concrete.by_length) Examples.store11
    Examples.query43 2 (Some Examples.ends_of_line) Examples.first_pick
  = [VectorStore.with_score (Examples.titled "a") 1]
  /\ VectorStore.jobs Examples.store11 !! 10 = Some (Examples.titled "aaaaaaaaaaa")
  /\ Examples.ends_of_line (Examples.titled "aaaaaaaaaaa") = true
  /\ length (List.filter Examples.ends_of_line (VectorStore.jobs Examples.store11)) = 2.
Proof. by vm_compute. Qed.

Lemma C6_witness :
  length (Faiss.search (VectorStore.index Examples.store11) [43%Q]
            (min (2 * 5) (length (VectorStore.jobs Examples.store11))))
  = min (2 * 5) (length (VectorStore.jobs Examples.store11))
  /\ VectorStore.search_similar_jobs (H := Concrete.by_length) Examples.store11
       Examples.query43 2 (Some Examples.ends_of_line) Examples.first_pick
     = take 2 (Spec.hits Examples.store11 (Some Examples.ends_of_line)
                 (Faiss.search (VectorStore.index Examples.store11) [43%Q]
                    (min (2 * 5) (length (VectorStore.jobs Examples.store11))))).
Proof.
  apply (C6_scan_bounded_pool (H := Concrete.by_length) Examples.store11
           Examples.query43 2 Examples.ends_of_line Examples.first_pick [43%Q]).
  - lia.
  - vm_compute. discriminate.
  - vm_compute. reflexivity.
  - vm_compute. discriminate.
Defined.

(** ** The searches on an [int]

    On an [int] that is not negative the searches of [Signed] are the
    searches above; on a negative one the index is never asked. *)

Section SignedSearch.
Context `{Runtime}.
Import VectorStore StoreOps Spec.

Lemma slice_to_of_nat {A} (n : nat) (l : list A) :
  Signed.slice_to (Z.of_nat n) l = take n l.
Proof.
  unfold Signed.slice_to.
  replace (0 <=? Z.of_nat n)%Z with true by (symmetry; apply Z.leb_le; lia).
  by rewrite Nat2Z.id.
Qed.


Lemma slice_to_negative {A} (k : Z) (l : list A) :
  (k < 0)%Z -> Signed.slice_to k l = take (length l - Z.to_nat (- k)) l.
Proof.
  intros Hk. unfold Signed.slice_to.
  by replace (0 <=? k)%Z with false by (symmetry; apply Z.leb_gt; lia).
Qed.

Lemma sample_of_nat {A} (rng : nat -> nat) (l : list A) (n : nat) :
  n <= length l -> Signed.sample rng l (Z.of_nat n) = Some (random_sample rng l n).
Proof.
  intros Hn. unfold Signed.sample.
  replace (Z.of_nat n <? 0)%Z with false by (symmetry; apply Z.ltb_ge; lia).
  replace (Z.of_nat (length l) <? Z.of_nat n)%Z with false
    by (symmetry; apply Z.ltb_ge; lia).
  by rewrite Nat2Z.id.
Qed.

Lemma sample_negative {A} (rng : nat -> nat) (l : list A) (n : Z) :
  (n < 0)%Z -> Signed.sample rng l n = None.
Proof.
  intros Hn. unfold Signed.sample.
  by replace (n <? 0)%Z with true by (symmetry; apply Z.ltb_lt; lia).
Qed.

Lemma index_search_of_nat (idx : list Faiss.vec) (qv : Faiss.vec) (n : nat) :
  Signed.index_search idx qv (Z.of_nat n)
  = match n with
    | O => None
    | S _ => Some (Faiss.search idx qv n)
    end.
Proof.
  unfold Signed.index_search. destruct n as [|n]; [done|].
  replace (0 <? Z.of_nat (S n))%Z with true by (symmetry; apply Z.ltb_lt; lia).
  by rewrite Nat2Z.id.
Qed.

Lemma fallback_of_nat (st : JobVectorStore) (q : string) (n : nat)
    (f : option (job -> bool)) (rng : nat -> nat) :
  Signed._fallback_search st q (Z.of_nat n) f rng = Some (_fallback_search st q n f rng).
Proof.
  unfold Signed._fallback_search, _fallback_search. cbv zeta.
  destruct (sort_desc _ _ _) as [|s0 rest].
  - rewrite <- Nat2Z.inj_min, sample_of_nat by lia. by rewrite slice_to_of_nat.
  - by rewrite slice_to_of_nat.
Qed.

(** The search on a count. *)
Lemma search_of_nat (st : JobVectorStore) (q : string) (n : nat)
    (f : option (job -> bool)) (rng : nat -> nat) :
  Signed.search_similar_jobs st q (Z.of_nat n) f rng
  = Some (search_similar_jobs st q n f rng).
Proof.
  unfold Signed.search_similar_jobs, search_similar_jobs.
  destruct (jobs st) as [|j0 js] eqn:Hjobs; [done|]. rewrite <- Hjobs.
  pose proof (fallback_of_nat st q n f rng) as Hfb.
  destruct (encode q) as [qv|]; [|exact Hfb]. cbn [mbind option_bind].
  set (fetch := match f with
                | Some _ => min (n * 5) (length (jobs st))
                | None => n
                end).
  assert (match f with
          | Some _ => Z.min (Z.of_nat n * 5) (Z.of_nat (length (jobs st)))
          | None => Z.of_nat n
          end = Z.of_nat fetch) as ->.
  { unfold fetch. destruct f; [|done].
    change 5%Z with (Z.of_nat 5). by rewrite <- Nat2Z.inj_mul, <- Nat2Z.inj_min. }
  rewrite index_search_of_nat, Nat2Z.id.
  destruct fetch as [|m].
  - exact Hfb.
  - cbn [mbind option_bind]. by destruct (scan_candidates _ _ _ _ _).
Qed.

Lemma search_nonneg (st : JobVectorStore) (q : string) (k : Z)
    (f : option (job -> bool)) (rng : nat -> nat) :
  (0 <= k)%Z ->
  Signed.search_similar_jobs st q k f rng
  = Some (search_similar_jobs st q (Z.to_nat k) f rng).
Proof.
  intros Hk. rewrite <- (Z2Nat.id k) at 1 by done. apply search_of_nat.
Qed.

(** On a negative [k] the index raises, with or without a predicate, and
    the keyword scorer answers: with all its matches but the last [-k],
    or with the exception of [random.sample] when nothing matches. *)
Lemma search_negative (st : JobVectorStore) (q : string) (k : Z)
    (f : option (job -> bool)) (rng : nat -> nat) :
  (k < 0)%Z -> jobs st <> [] ->
  Signed.search_similar_jobs st q k f rng
  = match sort_desc Faiss.Qleb similarity_score
            (score_jobs (split (lower q)) f (jobs st)) with
    | [] => None
    | scored => Some (take (length scored - Z.to_nat (- k)) scored)
    end.
Proof.
  intros Hk Hne. unfold Signed.search_similar_jobs.
  destruct (jobs st) as [|j0 js] eqn:Hjobs; [done|]. rewrite <- Hjobs.
  assert (Signed._fallback_search st q k f rng
          = match sort_desc Faiss.Qleb similarity_score
                    (score_jobs (split (lower q)) f (jobs st)) with
            | [] => None
            | scored => Some (take (length scored - Z.to_nat (- k)) scored)
            end) as Hfb.
  { unfold Signed._fallback_search. cbv zeta.
    destruct (sort_desc _ _ _) as [|s0 rest].
    - by rewrite sample_negative by lia.
    - by rewrite slice_to_negative. }
  destruct (encode q) as [qv|]; [|exact Hfb]. cbn [mbind option_bind].
  assert (Signed.index_search (index st) qv
            (match f with
             | Some _ => Z.min (k * 5) (Z.of_nat (length (jobs st)))
             | None => k
             end) = None) as ->; [|exact Hfb].
  unfold Signed.index_search.
  replace (0 <? _)%Z with false; [done|].
  symmetry. apply Z.ltb_ge. destruct f; lia.
Qed.

End SignedSearch.

(** ** Persistence *)

Section Persistence.
Context `{Runtime}.
Import VectorStore Spec.

Lemma append_cancel_l (p a b : string) : p +:+ a = p +:+ b -> a = b.
Proof. induction p as [|c p IH]; simpl; [done|]. intros [= Heq]. by apply IH. Qed.

(** The two artifacts of a snapshot have different paths. *)
Lemma snapshot_paths_differ (directory base : string) :
  path_join directory (base +:+ ".index") <> path_join directory (base +:+ ".pkl").
Proof.
  unfold path_join.
  assert (is_prefix "/" (base +:+ ".index") = is_prefix "/" (base +:+ ".pkl")) as ->
    by (destruct base; done).
  destruct (is_prefix "/" (base +:+ ".pkl")).
  - intros Heq. by apply append_cancel_l in Heq.
  - destruct (_ || _); intros Heq; by do 3 (try apply append_cancel_l in Heq).
Qed.

Lemma save_true (st : JobVectorStore) (base : string) (d d' : disk) :
  save st base d = (true, d') ->
  files d' = <[path_join (vector_dir st) (base +:+ ".pkl")
                 := PickleFile (jobs st) (job_ids_map st)]>
               (<[path_join (vector_dir st) (base +:+ ".index")
                    := IndexFile (index st)]> (files d)).
Proof.
  unfold save, write_file. repeat case_bool_decide; simpl; try done.
  by intros [= <-].
Qed.

(** Search reads the index, the records and the position map only. *)
Lemma scan_candidates_ext (st st' : JobVectorStore) (k : nat)
    (f : option (job -> bool)) (candidates : list (Q * Z)) (results : list job) :
  jobs st' = jobs st -> job_ids_map st' = job_ids_map st ->
  scan_candidates st' k f candidates results = scan_candidates st k f candidates results.
Proof.
  intros Hj Hm. revert results.
  induction candidates as [|[dist idx] rest IH]; intros results; simpl; [done|].
  rewrite Hj, Hm. destruct (_ || _); [done|].
  destruct (job_ids_map st !! _); [|done]. destruct (jobs st !! _); [|done].
  destruct (rejected f _); [done|]. destruct (_ <=? _); [done|]. apply IH.
Qed.

Lemma search_ext (st st' : JobVectorStore) (q : string) (k : nat)
    (f : option (job -> bool)) (rng : nat -> nat) :
  index st' = index st -> jobs st' = jobs st -> job_ids_map st' = job_ids_map st ->
  search_similar_jobs st' q k f rng = search_similar_jobs st q k f rng.
Proof.
  intros Hi Hj Hm. unfold search_similar_jobs, _fallback_search.
  rewrite Hi, Hj. destruct (jobs st) eqn:Hjobs; [done|]. rewrite <- Hjobs.
  destruct (encode q); [|done]. by rewrite (scan_candidates_ext st st') by congruence.
Qed.

Lemma scores_of_constant (s : Q) (l : list job) :
  similarity_score <$> ((fun j => with_score j s) <$> l) = replicate (length l) s.
Proof.
  induction l as [|x l IH]; [done|].
  rewrite !fmap_cons, similarity_score_with_score, IH. done.
Qed.

(** The scores of an answer do not depend on the random draws. *)
Lemma search_scores_rng (st : JobVectorStore) (q : string) (k : nat)
    (f : option (job -> bool)) (rng rng' : nat -> nat) :
  similarity_score <$> search_similar_jobs st q k f rng
  = similarity_score <$> search_similar_jobs st q k f rng'.
Proof.
  destruct (decide (jobs st = [])) as [Hj|Hne].
  - unfold search_similar_jobs. by rewrite Hj.
  - assert (similarity_score <$> _fallback_search st q k f rng
            = similarity_score <$> _fallback_search st q k f rng') as Hfb.
    { rewrite !fallback_cases. destruct (score_jobs _ _ _); [|done].
      rewrite !scores_of_constant, !random_sample_length; [done|lia..]. }
    rewrite !search_cases by done. destruct (encode q); [|done].
    simpl. by destruct (take _ _).
Qed.

(** C8.  Saving a store with records under a name and loading that name
    into a new store of the same directory succeeds and gives a store with
    the same number of records, the same index, records and position map,
    and, for every query, the same sequence of similarity scores (the same
    results when the random draws agree). *)
Theorem C8_save_load_roundtrip (st : JobVectorStore) (name dd : string) (d d' : disk) :
  jobs st <> [] ->
  save st name d = (true, d') ->
  exists st', load (init dd (vector_dir st)) name d' = (true, st')
    /\ length (jobs st') = length (jobs st)
    /\ index st' = index st /\ jobs st' = jobs st /\ job_ids_map st' = job_ids_map st
    /\ (forall q k f rng,
          search_similar_jobs st' q k f rng = search_similar_jobs st q k f rng)
    /\ (forall q k f rng rng',
          similarity_score <$> search_similar_jobs st' q k f rng
          = similarity_score <$> search_similar_jobs st q k f rng').
Proof.
  intros _ Hsave. apply save_true in Hsave.
  pose proof (snapshot_paths_differ (vector_dir st) name) as Hpaths.
  exists (set_data (set_index (init dd (vector_dir st)) (index st)) (jobs st) (job_ids_map st)).
  split.
  - unfold load. simpl. rewrite Hsave.
    rewrite lookup_insert_ne by done. rewrite !lookup_insert_eq. done.
  - split_and!; try done.
    + intros q k f rng. by apply search_ext.
    + intros q k f rng rng'. rewrite (search_ext st) by done. apply search_scores_rng.
Qed.

(** What a failed load leaves behind: the records and the position map of
    before, and either the index of before or, when only the record file
    could not be read, the index of the snapshot. *)
Lemma load_failure_cases (st st' : JobVectorStore) (name : string) (d : disk) :
  load st name d = (false, st') ->
  jobs st' = jobs st /\ job_ids_map st' = job_ids_map st
  /\ (index st' = index st
      \/ exists vs, files d !! path_join (vector_dir st) (name +:+ ".index")
                    = Some (IndexFile vs) /\ index st' = vs).
Proof.
  unfold load.
  destruct (files d !! path_join (vector_dir st) (name +:+ ".index")) as [[vs| |]|];
    destruct (files d !! path_join (vector_dir st) (name +:+ ".pkl")) as [[| |]|];
    intros [= <-]; simpl; split_and!; eauto.
Qed.

End Persistence.

(** C2, on the code.  With a snapshot whose index file is readable and
    whose record file is not, [load] answers [False] and leaves the store
    with the index of the snapshot next to the records and the position map
    it had before: a partial load. *)
Theorem C2_load_failure_replaces_index :
  let st := Examples.store_nurses in
  let r := VectorStore.load st "job_vector_store" Examples.half_damaged in
  fst r = false
  /\ VectorStore.index (snd r) = Examples.other_index
  /\ VectorStore.index (snd r) <> VectorStore.index st
  /\ VectorStore.jobs (snd r) = VectorStore.jobs st
  /\ VectorStore.job_ids_map (snd r) = VectorStore.job_ids_map st.
Proof. by vm_compute. Qed.

Lemma C8_witness :
  exists st',
    VectorStore.load (VectorStore.init "elsewhere" (VectorStore.vector_dir Examples.store_nurses))
      "job_vector_store"
      (snd (VectorStore.save Examples.store_nurses "job_vector_store" Examples.blank_disk))
    = (true, st')
    /\ length (VectorStore.jobs st') = length (VectorStore.jobs Examples.store_nurses).
Proof.
  destruct (C8_save_load_roundtrip (H := Concrete.picky) Examples.store_nurses
              "job_vector_store" "elsewhere" Examples.blank_disk
              (snd (VectorStore.save Examples.store_nurses "job_vector_store"
                      Examples.blank_disk)))
    as (st' & Hload & Hlen & _).
  - vm_compute. discriminate.
  - vm_compute. reflexivity.
  - exists st'. split; [exact Hload|exact Hlen].
Defined.

(** ** Duplicates *)

Section Duplicates.
Context `{Runtime}.
Import VectorStore Api Spec.

Lemma nonempty_true (s : string) : s <> "" -> nonempty s = true.
Proof.
  intros Hs. unfold nonempty. destruct (String.eqb s "") eqn:He; [|done].
  by apply String.eqb_eq in He.
Qed.

(** The text the guard reads is empty for a field that is missing, that
    is [None] or that is the empty string. *)
Lemma field_lower_missing (j : job) (key : string) :
  j !! key = None \/ j !! key = Some PNone \/ j !! key = Some (PStr "") ->
  field_lower j key = "".
Proof. unfold field_lower. by intros [->| [->| ->] ]. Qed.

(** C7, as the code has it.  Two records whose titles and companies are
    present and not empty, and whose links are not empty and equal (after
    lowercasing), are judged duplicates, whatever their locations.  The
    test on titles and companies comes first: when the title or the
    company of one of the two records is missing, [None] or empty, the
    answer is [False], whatever the links. *)
Theorem C7_equal_links_of_named_records (job1 job2 : job) :
  (field_lower job1 "title" <> "" -> field_lower job2 "title" <> "" ->
   field_lower job1 "company" <> "" -> field_lower job2 "company" <> "" ->
   field_lower job1 "redirect_url" <> "" ->
   field_lower job1 "redirect_url" = field_lower job2 "redirect_url" ->
   is_duplicate_job job1 job2 = true)
  /\ (field_lower job1 "title" = "" \/ field_lower job2 "title" = ""
      \/ field_lower job1 "company" = "" \/ field_lower job2 "company" = "" ->
      is_duplicate_job job1 job2 = false)
  /\ (forall (j : job) (key : string),
        j !! key = None \/ j !! key = Some PNone \/ j !! key = Some (PStr "") ->
        field_lower j key = "").
Proof.
  split_and!.
  - intros Ht1 Ht2 Hc1 Hc2 Hu Heq.
    unfold is_duplicate_job, is_duplicate_job_with.
    rewrite !nonempty_true by done. simpl.
    rewrite <- Heq, nonempty_true by done. by rewrite String.eqb_refl.
  - unfold is_duplicate_job, is_duplicate_job_with.
    intros [->| [->| [->| ->] ] ]; simpl; by rewrite ?orb_true_r.
  - apply field_lower_missing.
Qed.

End Duplicates.

(** C7 as stated fails: the two records have the same link, not empty,
    and the first has no title; they are not judged duplicates. *)
Lemma C7_counterexample :
  Examples.untitled_link !! "redirect_url" = Examples.titled_link !! "redirect_url"
  /\ Examples.untitled_link !! "redirect_url" = Some (PStr "https://example.com/jobs/1")
  /\ Api.is_duplicate_job (H := Concrete.by_length)
       Examples.untitled_link Examples.titled_link = false.
Proof. by vm_compute. Qed.

Lemma C7_witness :
  Api.is_duplicate_job (H := Concrete.by_length) Examples.other_link Examples.titled_link
  = true
  /\ Api.is_duplicate_job (H := Concrete.by_length)
       Examples.untitled_link Examples.titled_link = false.
Proof.
  split.
  - apply (proj1 (C7_equal_links_of_named_records (H := Concrete.by_length)
                    Examples.other_link Examples.titled_link));
      vm_compute; (reflexivity || discriminate).
  - apply (proj1 (proj2 (C7_equal_links_of_named_records (H := Concrete.by_length)
                           Examples.untitled_link Examples.titled_link))).
    left. vm_compute. reflexivity.
Defined.

(** ** The float comparison of the re-admission test *)

Section Rounding.
Local Open Scope Z_scope.

(** Rounding to 53 bits raises a value by less than one part in [2^53]. *)
Lemma round_bound (m e : Z) :
  0 <= m ->
  let r := Float64.round m e in
  0 <= Float64.mant r /\ e <= Float64.expo r
  /\ Float64.mant r * 2 ^ (Float64.expo r - e) * 2 ^ 53 <= m * (2 ^ 53 + 1).
Proof.
  intros Hm. unfold Float64.round.
  destruct (m =? 0) eqn:Hz.
  - apply Z.eqb_eq in Hz. subst. simpl. lia.
  - apply Z.eqb_neq in Hz.
    destruct (Z.log2 m + 1 <=? 53) eqn:Hb; simpl.
    + rewrite Z.sub_diag. simpl. lia.
    + apply Z.leb_gt in Hb.
      set (s := Z.log2 m + 1 - 53) in *.
      assert (0 < s) as Hs by lia.
      rewrite Z.shiftr_div_pow2, Z.land_ones, Z.shiftl_1_l by lia.
      replace (e + s - e) with s by lia.
      assert (0 < 2 ^ s) as Hp by (apply Z.pow_pos_nonneg; lia).
      assert (2 ^ s = 2 * 2 ^ (s - 1)) as Hhalf.
      { replace s with (1 + (s - 1)) at 1 by lia. rewrite Z.pow_add_r by lia. done. }
      assert (2 ^ (s - 1) * 2 ^ 53 <= m) as Hlow.
      { rewrite <- Z.pow_add_r by lia. replace (s - 1 + 53) with (Z.log2 m) by lia.
        apply Z.log2_spec. lia. }
      pose proof (Z.div_mod m (2 ^ s) ltac:(lia)) as Hdm.
      pose proof (Z.mod_pos_bound m (2 ^ s) Hp) as Hr.
      assert (0 <= m / 2 ^ s) as Hq by (apply Z.div_pos; lia).
      set (q := m / 2 ^ s) in *. set (r := m mod 2 ^ s) in *.
      set (P := 2 ^ s) in *. set (h := 2 ^ (s - 1)) in *.
      change (2 ^ 53) with 9007199254740992 in *.
      destruct (r <? h) eqn:Hrh; [apply Z.ltb_lt in Hrh|apply Z.ltb_ge in Hrh].
      { simpl. split; [lia|]. split; [lia|]. nia. }
      assert ((q + 1) * P * 9007199254740992 <= m * (9007199254740992 + 1)) as Hup by nia.
      destruct (h <? r); [simpl; split; [lia|]; split; [lia|]; exact Hup|].
      destruct (Z.even q); simpl; (split; [lia|]; split; [lia|]); [nia|exact Hup].
Qed.

(** With four inputs or more and one record kept, more than 70% of the
    inputs count as removed. *)
Lemma gate_after_first (n : nat) : (4 <= n)%nat -> Api.too_many_removed n 1 = true.
Proof.
  intros Hn. unfold Api.too_many_removed, Float64.mul, Float64.of_int.
  pose proof (round_bound (Z.of_nat n) 0 ltac:(lia)) as (Hm1 & He1 & Hb1).
  cbv zeta in Hm1, He1, Hb1.
  generalize dependent (Float64.round (Z.of_nat n) 0). intros x Hm1 He1 Hb1.
  change (Float64.mant Float64.lit_0_7) with 3152519739159347.
  change (Float64.expo Float64.lit_0_7) with (-52).
  pose proof (round_bound (Float64.mant x * 3152519739159347) (Float64.expo x + -52)
                ltac:(apply Z.mul_nonneg_nonneg; [exact Hm1|done])) as (Hm2 & He2 & Hb2).
  cbv zeta in Hm2, He2, Hb2.
  generalize dependent (Float64.round (Float64.mant x * 3152519739159347)
                          (Float64.expo x + -52)).
  intros y Hm2 He2 Hb2.
  set (m1 := Float64.mant x) in *. set (e1 := Float64.expo x) in *.
  set (m2 := Float64.mant y) in *. set (e2 := Float64.expo y) in *.
  rewrite Z.sub_0_r in Hb1.
  set (a := e2 - (e1 + -52)) in *.
  assert (0 <= a) as Ha by lia.
  assert (0 < 2 ^ a) as HA by (apply Z.pow_pos_nonneg; lia).
  assert (0 < 2 ^ e1) as HE by (apply Z.pow_pos_nonneg; lia).
  set (A := 2 ^ a) in *. set (E := 2 ^ e1) in *.
  set (c := 2 ^ 53) in *. set (M := 3152519739159347) in *.
  assert (0 < c) as Hc by (unfold c; lia).
  assert (m2 * A * c * (E * c) <= M * (c + 1) * (Z.of_nat n * (c + 1))) as Hchain.
  { transitivity (m1 * M * (c + 1) * (E * c)).
    - apply Z.mul_le_mono_nonneg_r; [|done]. apply Z.mul_nonneg_nonneg; lia.
    - replace (m1 * M * (c + 1) * (E * c)) with (M * (c + 1) * (m1 * E * c)) by ring.
      apply Z.mul_le_mono_nonneg_l; [|done]. unfold M. lia. }
  unfold Float64.int_gt. fold e2 m2.
  destruct (0 <=? e2) eqn:Hs; [apply Z.leb_le in Hs|apply Z.leb_gt in Hs]; apply Z.ltb_lt.
  - assert (2 ^ e2 * 2 ^ 52 = A * E) as Hpow.
    { unfold A, E. rewrite <- !Z.pow_add_r by lia. f_equal. lia. }
    set (v := m2 * 2 ^ e2) in *.
    assert (v * (2 ^ 52 * c * c) = m2 * A * c * (E * c)) as Hv.
    { unfold v. transitivity (m2 * (2 ^ e2 * 2 ^ 52) * c * c); [ring|]. rewrite Hpow. ring. }
    rewrite <- Hv in Hchain. unfold c, M in Hchain. lia.
  - assert (2 ^ (- e2) * (A * E) = 2 ^ 52) as Hpow.
    { unfold A, E. rewrite <- !Z.pow_add_r by lia. f_equal. lia. }
    assert (0 < 2 ^ (- e2)) as HE2 by (apply Z.pow_pos_nonneg; lia).
    set (w := (Z.of_nat n - Z.of_nat 1) * 2 ^ (- e2)) in *.
    destruct (Z.lt_ge_cases m2 w) as [|Hge]; [done|exfalso].
    assert (w * (A * c * (E * c)) <= m2 * (A * c * (E * c))) as Hw.
    { apply Z.mul_le_mono_nonneg_r; [|done].
      apply Z.mul_nonneg_nonneg; apply Z.mul_nonneg_nonneg; lia. }
    assert (w * (A * c * (E * c)) = (Z.of_nat n - 1) * (2 ^ 52 * c * c)) as Hv.
    { unfold w. rewrite <- Hpow. simpl (Z.of_nat 1). ring. }
    rewrite Hv in Hw. replace (m2 * (A * c * (E * c))) with (m2 * A * c * (E * c)) in Hw by ring.
    unfold c, M in *. lia.
Qed.

(** With three inputs or fewer and a record kept, the test never fires. *)
Lemma gate_small (n u : nat) : (n <= 3)%nat -> (1 <= u)%nat -> Api.too_many_removed n u = false.
Proof.
  intros Hn Hu. unfold Api.too_many_removed.
  destruct n as [|[|[|[|n]]]]; [..|lia];
    vm_compute Float64.mul; unfold Float64.int_gt; simpl Float64.expo; simpl Float64.mant;
    cbv iota; apply Z.ltb_ge; simpl; lia.
Qed.

End Rounding.

(** ** Equality of dictionaries *)

Lemma Qeq_bool_sym (x y : Q) : Qeq_bool x y = Qeq_bool y x.
Proof.
  destruct (Qeq_bool x y) eqn:Hxy; symmetry.
  - apply Qeq_bool_iff. symmetry. by apply Qeq_bool_iff.
  - destruct (Qeq_bool y x) eqn:Hyx; [|done].
    apply Qeq_bool_iff in Hyx. symmetry in Hyx. apply Qeq_bool_iff in Hyx. congruence.
Qed.

Lemma Qeq_bool_trans (x y z : Q) :
  Qeq_bool x y = true -> Qeq_bool y z = true -> Qeq_bool x z = true.
Proof. rewrite !Qeq_bool_iff. apply Qeq_trans. Qed.

Lemma py_eqb_refl (v : pyval) : py_eqb v v = true.
Proof.
  destruct v as [|b|z|q|s|t|l]; unfold py_eqb; simpl; try done.
  - by destruct b.
  - apply Qeq_bool_iff. reflexivity.
  - apply Qeq_bool_iff. reflexivity.
  - apply String.eqb_refl.
  - apply Z.eqb_refl.
  - by apply bool_decide_eq_true.
Qed.

Lemma py_eqb_sym (a b : pyval) : py_eqb a b = py_eqb b a.
Proof.
  destruct a, b; unfold py_eqb; simpl; try done;
    first [ apply Qeq_bool_sym | apply String.eqb_sym | apply Z.eqb_sym
          | apply bool_decide_ext; split; by intros -> ].
Qed.

Lemma py_eqb_trans (a b c : pyval) :
  py_eqb a b = true -> py_eqb b c = true -> py_eqb a c = true.
Proof.
  destruct a, b, c; unfold py_eqb; simpl; try done;
    first [ apply Qeq_bool_trans
          | rewrite !String.eqb_eq; congruence
          | rewrite !Z.eqb_eq; congruence
          | rewrite !bool_decide_eq_true; congruence  ].
Qed.

Lemma dict_leb_spec (a b : job) :
  dict_leb a b = true
  <-> forall k x, a !! k = Some x -> exists y, b !! k = Some y /\ py_eqb x y = true.
Proof.
  unfold dict_leb. rewrite forallb_forall. split.
  - intros Hall k x Hk.
    assert (In (k, x) (map_to_list a)) as Hin
      by (apply list_elem_of_In; by apply elem_of_map_to_list).
    specialize (Hall (k, x) Hin). simpl in Hall.
    destruct (b !! k) as [y|]; [by exists y|done].
  - intros Hall [k x] Hin. simpl.
    apply list_elem_of_In, elem_of_map_to_list in Hin.
    by destruct (Hall k x Hin) as (y & -> & Hy).
Qed.

(** [dict_eqb] is equality of dictionaries key by key. *)
Lemma dict_eqb_spec (a b : job) :
  dict_eqb a b = true
  <-> forall k, match a !! k, b !! k with
                | Some x, Some y => py_eqb x y = true
                | None, None => True
                | _, _ => False
                end.
Proof.
  unfold dict_eqb. rewrite andb_true_iff, !dict_leb_spec. split.
  - intros [Hab Hba] k.
    destruct (a !! k) as [x|] eqn:Ha; destruct (b !! k) as [y|] eqn:Hb; try done.
    + destruct (Hab k x Ha) as (y' & Hy' & Hxy). congruence.
    + destruct (Hab k x Ha) as (y' & Hy' & _). congruence.
    + destruct (Hba k y Hb) as (x' & Hx' & _). congruence.
  - intros Hall. split; intros k x Hk; specialize (Hall k); rewrite Hk in Hall.
    + destruct (b !! k) as [y|]; [by exists y|done].
    + destruct (a !! k) as [y|]; [|done]. exists y. by rewrite py_eqb_sym.
Qed.

Lemma dict_eqb_refl (a : job) : dict_eqb a a = true.
Proof.
  apply dict_eqb_spec. intros k. destruct (a !! k); [apply py_eqb_refl|done].
Qed.

Lemma dict_eqb_sym (a b : job) : dict_eqb a b = dict_eqb b a.
Proof. unfold dict_eqb. apply andb_comm. Qed.

Lemma dict_eqb_trans (a b c : job) :
  dict_eqb a b = true -> dict_eqb b c = true -> dict_eqb a c = true.
Proof.
  rewrite !dict_eqb_spec. intros Hab Hbc k. specialize (Hab k). specialize (Hbc k).
  destruct (a !! k), (b !! k), (c !! k); try done. by eapply py_eqb_trans.
Qed.

Lemma dict_in_spec (x : job) (l : list job) :
  dict_in x l = true <-> exists y, y ∈ l /\ dict_eqb x y = true.
Proof.
  unfold dict_in. rewrite existsb_exists. split; intros (y & Hy & He); exists y.
  - by rewrite list_elem_of_In.
  - by rewrite <- list_elem_of_In.
Qed.

Lemma dict_in_here (x : job) (l : list job) : x ∈ l -> dict_in x l = true.
Proof. intros Hx. apply dict_in_spec. exists x. by rewrite dict_eqb_refl. Qed.

Lemma dict_in_app_l (x : job) (l m : list job) :
  dict_in x l = true -> dict_in x (l ++ m) = true.
Proof.
  rewrite !dict_in_spec. intros (y & Hy & He). exists y. rewrite elem_of_app. eauto.
Qed.

(** Records that are pairwise unequal and each equal to a record of [r]
    are no more than the records of [r]. *)
Lemma unequal_records_fit (d r : list job) :
  Spec.pairwise_unequal d -> (forall x, x ∈ d -> dict_in x r = true) ->
  length d <= length r.
Proof.
  revert r. induction d as [|x d IH]; intros r Hd Hin; simpl; [lia|].
  destruct (proj1 (dict_in_spec x r) (Hin x ltac:(left))) as (y & Hy & Hxy).
  apply list_elem_of_split in Hy as (r1 & r2 & ->).
  rewrite length_app. simpl.
  enough (length d <= length (r1 ++ r2)) by (rewrite length_app in *; lia).
  apply IH.
  - intros i j a b Hij Ha Hb. by apply (Hd (S i) (S j) a b); [lia|..].
  - intros x' Hx'.
    destruct (proj1 (dict_in_spec x' _) (Hin x' ltac:(by right))) as (y' & Hy' & Hxy').
    apply dict_in_spec. exists y'. split; [|done].
    rewrite elem_of_app, elem_of_cons in Hy'. rewrite elem_of_app.
    destruct Hy' as [?|[->|?]]; [by left| |by right].
    exfalso. apply list_elem_of_lookup in Hx' as [i Hi].
    assert (dict_eqb x x' = true) as Heq.
    { eapply dict_eqb_trans; [exact Hxy|]. by rewrite dict_eqb_sym. }
    rewrite (Hd 0 (S i) x x') in Heq; [done|lia|done|done].
Qed.

(** ** The deduplication pass *)

Section Dedupe.
Context `{Runtime}.
Import VectorStore Api Spec.

(** Re-admission appends records of the input, in their order, each one
    unequal to the records already kept, until the minimum is met or every
    record of the input has an equal among the kept ones. *)
Lemma readmit_spec (m : nat) (potential unique_jobs : list job) :
  let r := readmit m potential unique_jobs in
  (exists added, r = unique_jobs ++ added /\ sublist added potential
                 /\ forall x, x ∈ added -> dict_in x unique_jobs = false)
  /\ (m <= length r \/ forall x, x ∈ potential -> dict_in x r = true).
Proof.
  revert unique_jobs. induction potential as [|p rest IH]; intros u; simpl.
  - split; [exists []; rewrite app_nil_r; split_and!; [done|constructor|]|].
    + intros x Hx. by apply elem_of_nil in Hx.
    + right. intros x Hx. by apply elem_of_nil in Hx.
  - destruct (dict_in p u) eqn:Hp.
    + destruct (IH u) as [(added & Hr & Hsub & Hnew) Hfull]. split.
      * exists added. split_and!; [done|by apply sublist_cons|done].
      * destruct Hfull as [?|Hall]; [by left|right].
        intros x Hx. apply elem_of_cons in Hx as [->|Hx]; [|by apply Hall].
        rewrite Hr. by apply dict_in_app_l.
    + rewrite length_app. simpl. destruct (m <=? length u + 1) eqn:Hm.
      * apply Nat.leb_le in Hm. split.
        -- exists [p]. split_and!; [done|apply sublist_skip, sublist_nil_l|].
           intros x Hx. apply list_elem_of_singleton in Hx. by subst.
        -- left. rewrite length_app. simpl. lia.
      * destruct (IH (u ++ [p])) as [(added & Hr & Hsub & Hnew) Hfull]. split.
        -- exists (p :: added). rewrite Hr, <- app_assoc. simpl.
           split_and!; [done|by apply sublist_skip|].
           intros x Hx. apply elem_of_cons in Hx as [->|Hx]; [done|].
           specialize (Hnew x Hx). destruct (dict_in x u) eqn:Hxu; [|done].
           by rewrite (dict_in_app_l x u [p] Hxu) in Hnew.
        -- destruct Hfull as [?|Hall]; [by left|right].
           intros x Hx. apply elem_of_cons in Hx as [->|Hx]; [|by apply Hall].
           rewrite Hr. apply dict_in_app_l, dict_in_here.
           rewrite elem_of_app, list_elem_of_singleton. by right.
Qed.

Lemma readmit_extends (m : nat) (potential u : list job) :
  exists added, readmit m potential u = u ++ added /\ (forall x, x ∈ added -> x ∈ potential).
Proof.
  destruct (readmit_spec m potential u) as [(added & Hr & Hsub & _) _].
  exists added. split; [done|]. intros x Hx. by eapply elem_of_sublist.
Qed.

(** A turn of the loop keeps what was kept and adds records of the input. *)
Lemma dedupe_step_extends (jobs : list job) (m : nat) (u : list job) (j : job) :
  j ∈ jobs ->
  exists added, dedupe_step jobs m u j = u ++ added /\ (forall x, x ∈ added -> x ∈ jobs).
Proof.
  intros Hj. unfold dedupe_step.
  set (u1 := if existsb (is_duplicate_job j) u then u else u ++ [j]).
  assert (exists a1, u1 = u ++ a1 /\ (forall x, x ∈ a1 -> x ∈ jobs)) as (a1 & Hu1 & Ha1).
  { unfold u1. destruct (existsb _ u).
    - exists []. rewrite app_nil_r. split; [done|]. intros x Hx. by apply elem_of_nil in Hx.
    - exists [j]. split; [done|]. intros x Hx. apply list_elem_of_singleton in Hx. by subst. }
  destruct (_ && _).
  - destruct (readmit_extends m jobs u1) as (a2 & -> & Ha2).
    exists (a1 ++ a2). rewrite Hu1, <- app_assoc. split; [done|].
    intros x Hx. apply elem_of_app in Hx as [?|?]; auto.
  - by exists a1.
Qed.

Lemma dedupe_loop_extends (jobs : list job) (m : nat) (todo u : list job) :
  (forall x, x ∈ todo -> x ∈ jobs) ->
  exists added, foldl (dedupe_step jobs m) u todo = u ++ added
                /\ (forall x, x ∈ added -> x ∈ jobs).
Proof.
  revert u. induction todo as [|j rest IH]; intros u Hsub; simpl.
  - exists []. rewrite app_nil_r. split; [done|]. intros x Hx. by apply elem_of_nil in Hx.
  - destruct (dedupe_step_extends jobs m u j) as (a1 & -> & Ha1); [apply Hsub; by left|].
    destruct (IH (u ++ a1)) as (a2 & -> & Ha2); [intros x Hx; apply Hsub; by right|].
    exists (a1 ++ a2). rewrite <- app_assoc. split; [done|].
    intros x Hx. apply elem_of_app in Hx as [?|?]; auto.
Qed.

(** The output of the pass is made of records of the input. *)
Lemma remove_duplicate_jobs_subset (jobs : list job) (m : nat) (x : job) :
  x ∈ remove_duplicate_jobs jobs m -> x ∈ jobs.
Proof.
  unfold remove_duplicate_jobs. destruct jobs as [|j rest] eqn:Hjobs; [done|].
  rewrite <- Hjobs. destruct (_ <=? _); [done|].
  destruct (dedupe_loop_extends jobs m jobs []) as (added & -> & Hadd); [done|].
  simpl. apply Hadd.
Qed.




(** When the pass does reach the minimum.  An input of at most [m]
    records is returned as it is.  For a longer input the output has at
    least [m] records when [m <= 1], or when the input has four records or
    more and holds [m] records no two of which are equal: the re-admission
    test then fires after the first record, and re-admission appends
    records of the input that have no equal among the kept ones, in their
    original order, until [m] records are kept or every input record has
    an equal among them. *)
Theorem dedupe_reaches_minimum (l : list job) (m : nat) :
  (length l <= m -> remove_duplicate_jobs l m = l)
  /\ (m < length l ->
      m <= 1 \/ (4 <= length l
                 /\ exists d, (forall x, x ∈ d -> x ∈ l) /\ pairwise_unequal d
                              /\ m <= length d) ->
      m <= length (remove_duplicate_jobs l m))
  /\ (forall u,
        let r := readmit m l u in
        (exists added, r = u ++ added /\ sublist added l
                       /\ forall x, x ∈ added -> dict_in x u = false)
        /\ (m <= length r \/ forall x, x ∈ l -> dict_in x r = true)).
Proof.
  split_and!.
  - intros Hle. unfold remove_duplicate_jobs. destruct l; [done|].
    by apply Nat.leb_le in Hle as ->.
  - intros Hlt Hcase. unfold remove_duplicate_jobs.
    destruct l as [|j0 rest]; [simpl in Hlt; lia|].
    set (l := j0 :: rest) in *.
    destruct (length l <=? m) eqn:Hle; [apply Nat.leb_le in Hle; lia|].
    change (foldl (dedupe_step l m) [] l)
      with (foldl (dedupe_step l m) (dedupe_step l m [] j0) rest).
    set (u1 := dedupe_step l m [] j0).
    destruct (dedupe_loop_extends l m rest u1) as (added & -> & _).
    { intros x Hx. by right. }
    rewrite length_app.
    enough (m <= length u1) by lia.
    unfold u1, dedupe_step.
    change (existsb (is_duplicate_job j0) []) with false. cbv iota.
    change ([] ++ [j0]) with [j0]. change (length [j0]) with 1.
    destruct Hcase as [Hm|(Hfour & d & Hsub & Hd & Hlen)].
    + destruct (_ && _); [|simpl; lia].
      destruct (readmit_extends m l [j0]) as (a & -> & _). simpl. lia.
    + destruct (1 <? m) eqn:Hm1; [|apply Nat.ltb_ge in Hm1; simpl; lia].
      rewrite gate_after_first by done. cbv [andb].
      destruct (readmit_spec m l [j0]) as [_ [?|Hall]]; [done|].
      etransitivity; [exact Hlen|]. apply unequal_records_fit; [done|].
      intros x Hx. by apply Hall, Hsub.
  - intros u. apply readmit_spec.
Qed.

End Dedupe.

(** C3, on the code.  Three postings of one job, with three different
    ids, and two results asked for: the list is longer than the minimum
    and holds three records that could be returned, and the pass returns
    the first posting only, one record where the claim and the docstring
    of the function promise two.  With three inputs the 70% test cannot
    fire once a record is kept, so nothing is readmitted. *)
Theorem C3_dedupe_below_minimum :
  2 < length Examples.three_twins
  /\ Spec.pairwise_unequal Examples.three_twins
  /\ Api.remove_duplicate_jobs (H := Concrete.by_length) Examples.three_twins 2
     = [Examples.posting 1]
  /\ length (Api.remove_duplicate_jobs (H := Concrete.by_length) Examples.three_twins 2)
     < min 2 (length Examples.three_twins).
Proof.
  split_and!.
  - vm_compute. lia.
  - intros i j a b Hij Ha Hb.
    destruct i as [|[|[|i]]]; destruct j as [|[|[|j]]];
      try done; simpl in Ha, Hb; inversion Ha; inversion Hb; subst; by vm_compute.
  - by vm_compute.
  - vm_compute. lia.
Qed.

(** Re-admission that finds nothing to add: four copies of one
    dictionary, two results asked for; the test fires, every input record
    is equal to the kept one, and one record is returned. *)
Lemma dedupe_four_copies :
  Api.remove_duplicate_jobs (H := Concrete.by_length) Examples.four_copies 2
  = [Examples.posting 1].
Proof. by vm_compute. Qed.

Lemma dedupe_reaches_minimum_witness :
  3 <= length (Api.remove_duplicate_jobs (H := Concrete.by_length) Examples.five_jobs 3).
Proof.
  apply (proj1 (proj2 (dedupe_reaches_minimum (H := Concrete.by_length)
                         Examples.five_jobs 3))).
  - vm_compute. lia.
  - right. split; [vm_compute; lia|].
    exists Examples.five_jobs. split_and!; [done| |vm_compute; lia].
    intros i j a b Hij Ha Hb.
    destruct i as [|[|[|[|[|i]]]]]; destruct j as [|[|[|[|[|j]]]]];
      try done; simpl in Ha, Hb; inversion Ha; inversion Hb; subst; by vm_compute.
Defined.

(** ** The search endpoint *)

Section Pipeline.
Context `{Runtime}.
Import VectorStore Api Spec.

Lemma same_core_refl (a : job) : same_core a a.
Proof. by repeat split. Qed.

Lemma same_core_trans (a b c : job) : same_core a b -> same_core b c -> same_core a c.
Proof.
  intros (? & ? & ? & ? & ?) (? & ? & ? & ? & ?). repeat split; congruence.
Qed.

(** Writing a key that is not one of the five leaves the core as it is. *)
Lemma same_core_insert (a : job) (key : string) (v : pyval) :
  key <> "title" -> key <> "company" -> key <> "redirect_url" -> key <> "location" ->
  key <> "description" ->
  same_core a (<[key := v]> a).
Proof. intros. repeat split; by rewrite lookup_insert_ne. Qed.



Lemma typed_core (a b : job) : same_core a b -> typed a -> typed b.
Proof.
  intros (Ht & _ & _ & _ & Hd). unfold typed, get. by rewrite Ht, Hd.
Qed.



(** *** Step 1 on an aligned store *)

Lemma distances_positions (idx : list Faiss.vec) (qv : Faiss.vec) :
  snd <$> Faiss.distances idx qv = Z.of_nat <$> seq 0 (length idx).
Proof.
  apply list_eq. intros i. unfold Faiss.distances.
  rewrite !list_lookup_fmap, list_lookup_imap.
  destruct (idx !! i) as [v|] eqn:Hv; simpl.
  - rewrite lookup_seq_lt by (by eapply lookup_lt_Some). done.
  - rewrite lookup_seq_ge by (by apply lookup_ge_None). done.
Qed.

Lemma candidates_valid (st : JobVectorStore) (qv : Faiss.vec) (k : nat) :
  aligned st ->
  let cs := take k (Faiss.sort_asc (Faiss.distances (index st) qv)) in
  NoDup (snd <$> cs) /\ Forall (points_at st) cs
  /\ length cs = min k (length (jobs st)).
Proof.
  intros [Hal _] cs.
  pose proof (Forall2_length _ _ _ Hal) as Hlen.
  pose proof (sort_asc_perm (Faiss.distances (index st) qv)) as Hperm.
  assert (snd <$> Faiss.sort_asc (Faiss.distances (index st) qv)
          ≡ₚ Z.of_nat <$> seq 0 (length (jobs st))) as Hpos.
  { rewrite Hperm, distances_positions. by rewrite Hlen. }
  split_and!.
  - unfold cs. rewrite fmap_take. eapply sublist_NoDup; [|apply sublist_take].
    rewrite Hpos. apply NoDup_fmap_2; [apply _|apply NoDup_seq].
  - apply Forall_forall. intros c Hc.
    assert (snd c ∈ Z.of_nat <$> seq 0 (length (jobs st))) as Hin.
    { rewrite <- Hpos. apply list_elem_of_fmap_2.
      eapply elem_of_sublist; [exact Hc|apply sublist_take]. }
    apply list_elem_of_fmap in Hin as (i & Hi & Hseq).
    exists i. split; [done|]. apply elem_of_seq in Hseq. lia.
  - unfold cs. rewrite length_take, Hperm. unfold Faiss.distances.
    rewrite length_imap. lia.
Qed.


Lemma same_core_with_score (j : job) (s : Q) : same_core j (with_score j s).
Proof. by apply same_core_insert. Qed.


(** *** Steps 3 to 7 *)

Lemma infer_job_type_typed (j : job) :
  typed j -> infer_job_type j = Some (with_job_type j).
Proof.
  intros [[d Hd] [t Ht]]. unfold infer_job_type, with_job_type.
  destruct (truthy (get j "job_type" PNone)); [done|]. by rewrite Hd, Ht.
Qed.


Lemma enrich_ok (l : list job) :
  Forall typed l ->
  mapM infer_job_type l = Some (with_job_type <$> l).
Proof.
  intros Hl. apply mapM_Some. apply Forall2_fmap_r, Forall_Forall2_diag.
  eapply Forall_impl; [exact Hl|]. apply infer_job_type_typed.
Qed.

Lemma hard_filters_trivial (rq : request) (l : list job) :
  trivial_filters rq -> hard_filters rq l = Some l.
Proof.
  intros (Hl & Hj & He & _ & _ & Hs & _). unfold hard_filters.
  rewrite Hl, Hj, He. simpl.
  destruct (min_salary rq) as [m|]; [|done].
  by replace (0 <? m)%Z with false by (symmetry; apply Z.ltb_ge; lia).
Qed.

Lemma type_fallback_trivial (st : JobVectorStore) (rq : request) (rnd : oracle)
    (l : list job) :
  trivial_filters rq -> type_fallback st rq rnd l = l.
Proof.
  intros (_ & Hj & _). unfold type_fallback. rewrite Hj. by destruct l.
Qed.

Lemma recent_stage_trivial (st : JobVectorStore) (rq : request) (now : Z) (rnd : oracle)
    (l : list job) :
  trivial_filters rq -> recent_stage st rq now rnd l = Some l.
Proof.
  intros (_ & _ & _ & _ & _ & _ & Hr). unfold recent_stage.
  destruct (recent_hours rq) as [h|]; [|done].
  by replace (0 <? h)%Z with false by (symmetry; apply Z.ltb_ge; lia).
Qed.

Lemma assign_dates_ok (now : Z) (rnd : nat -> nat) (i : nat) (l : list job) :
  Forall dated_ok l ->
  Forall2 same_core l (assign_dates now rnd i l)
  /\ Forall dated_ok (assign_dates now rnd i l).
Proof.
  intros Hl. revert i. induction Hl as [|j l Hj Hl IH]; intros i; simpl.
  - split; constructor.
  - destruct (truthy (get j "created" PNone)).
    + destruct (IH i). split; constructor; auto using same_core_refl.
    + destruct (IH (S i)). split; constructor; auto.
      * eapply same_core_trans; by apply same_core_insert.
      * right. eexists. by rewrite lookup_insert_eq.
Qed.

Lemma parse_date_ok (now : Z) (r : nat) (j : job) :
  dated_ok j -> same_core j (parse_date now r j) /\ dated (parse_date now r j).
Proof.
  intros Hj. unfold parse_date, dated, random_recent.
  destruct Hj as [Hnone|[t Ht]].
  - assert (truthy (get j "_parsed_date" PNone) = false) as ->
      by (unfold get; by rewrite Hnone).
    destruct (get j "created" (PStr "")) as [|b|z|q|text|t|ss];
      try (split; [by apply same_core_insert|eexists; by rewrite lookup_insert_eq]).
    destruct (nonempty text); [destruct (parse_with _ _)|];
      (split; [by apply same_core_insert|eexists; by rewrite lookup_insert_eq]).
  - assert (truthy (get j "_parsed_date" PNone) = true) as ->
      by (unfold get; by rewrite Ht).
    split; [apply same_core_refl|by exists t].
Qed.

Lemma imap_parse_ok (now : Z) (f : nat -> nat) (l : list job) :
  Forall dated_ok l ->
  Forall2 same_core l (imap (fun i j => parse_date now (f i) j) l)
  /\ Forall dated (imap (fun i j => parse_date now (f i) j) l).
Proof.
  intros Hl. revert f. induction Hl as [|j l Hj Hl IH]; intros f; simpl.
  - split; constructor.
  - destruct (parse_date_ok now (f 0) j Hj). destruct (IH (f ∘ S)).
    split; by constructor.
Qed.

Lemma key_leb_total_dates (a b : Z) : key_leb (KDate a) (KDate b) = true
                                     \/ key_leb (KDate b) (KDate a) = true.
Proof. simpl. rewrite !Z.leb_le. lia. Qed.

Lemma sort_newest_first_ok (l : list job) :
  Forall dated l -> exists l', sort_newest_first l = Some l' /\ l' ≡ₚ l.
Proof.
  intros Hl. destruct l as [|a [|b l]]; [by exists []|by exists [a]|].
  unfold sort_newest_first.
  assert (forall j, j ∈ a :: b :: l -> exists t, key_of (parsed_date j) = Some (KDate t)) as Hk.
  { intros j Hj. rewrite Forall_forall in Hl. destruct (Hl j Hj) as [t Ht].
    exists t. unfold parsed_date, get. by rewrite Ht. }
  destruct (Hk a ltac:(left)) as [t0 ->].
  rewrite (proj2 (forallb_forall _ _)).
  - eexists. split; [done|]. apply sort_desc_perm.
  - intros j Hj. apply list_elem_of_In in Hj. by destruct (Hk j Hj) as [t ->].
Qed.

Lemma same_core_all_trans (l1 l2 l3 : list job) :
  Forall2 same_core l1 l2 -> Forall2 same_core l2 l3 -> Forall2 same_core l1 l3.
Proof.
  intros H12. revert l3. induction H12 as [|a b l1 l2 Hab H12 IH]; intros l3 H23.
  - by inversion H23.
  - inversion H23; subst. constructor; [by eapply same_core_trans|by apply IH].
Qed.

(** The dates stage permutes the records and leaves their cores alone. *)
Lemma date_stage_ok (rq : request) (now : Z) (rnd : oracle) (l : list job) :
  Forall (fun j => j !! "_parsed_date" = None) l ->
  exists l1 l2, date_stage rq now rnd l = Some l2 /\ Forall2 same_core l l1 /\ l2 ≡ₚ l1
                /\ Forall dated_ok l2.
Proof.
  intros Hl. unfold date_stage.
  assert (Forall dated_ok l) as Hok by (eapply Forall_impl; [exact Hl|by left]).
  destruct (sort_by_date rq).
  - destruct (assign_dates_ok now (randint_at rnd 0) 0 l Hok) as [Hc1 Hd1].
    set (l1 := assign_dates _ _ _ _) in *.
    destruct (imap_parse_ok now (randint_at rnd 1) l1 Hd1) as [Hc2 Hd2].
    set (l2 := imap _ _) in *.
    destruct (sort_newest_first_ok l2 Hd2) as (l3 & -> & Hp).
    exists l2, l3. split_and!; [done| |done|].
    + by eapply same_core_all_trans.
    + rewrite Hp. eapply Forall_impl; [exact Hd2|]. intros j [t Ht]. right. by exists t.
  - exists l, l. split_and!; [done| |done|done].
    apply Forall_Forall2_diag, Forall_forall. intros j _. apply same_core_refl.
Qed.

(** *** Steps 8 and 9 *)


Lemma format_job_ok (now : Z) (i : nat) (j : job) :
  dated_ok j -> is_Some (format_job now i j).
Proof.
  intros Hj. unfold format_job, not_older, get.
  destruct Hj as [->|[t ->]]; simpl; by destruct (negb _).
Qed.

Lemma format_all_length (now : Z) (i : nat) (l out : list job) :
  format_all now i l = Some out -> length out = length l.
Proof.
  revert i out. induction l as [|j l IH]; intros i out; simpl; [by intros [= <-]|].
  destruct (format_job now i j); [|done]. simpl.
  destruct (format_all now (S i) l) eqn:Hr; [|done]. simpl.
  intros [= <-]. simpl. f_equal. by eapply IH.
Qed.

Lemma format_all_ok (now : Z) (i : nat) (l : list job) :
  Forall dated_ok l -> is_Some (format_all now i l).
Proof.
  intros Hl. revert i. induction Hl as [|j l Hj Hl IH]; intros i; simpl; [done|].
  destruct (format_job_ok now i j Hj) as [f ->]. simpl.
  destruct (IH (S i)) as [fs ->]. done.
Qed.

Lemma with_job_type_no_date (j : job) :
  j !! "_parsed_date" = None -> with_job_type j !! "_parsed_date" = None.
Proof.
  intros Hj. unfold with_job_type. destruct (truthy _); [done|].
  by rewrite lookup_insert_ne.
Qed.



End Pipeline.

(** The same shortfall on the path of the index, from the deduplication
    pass: three postings of one job, two results asked for, one returned. *)
Lemma pipeline_three_postings :
  length (Api.response_jobs
            (Api.search_jobs (H := Concrete.by_length) Examples.store_twins
               (Examples.plain_request "developer" 2 true)
               Examples.noon Examples.zeros)) = 1.
Proof. by vm_compute. Qed.

(** ** The search endpoint on an [int]

    With a limit that is not negative, [Signed.search_jobs] is
    [search_jobs] at the limit taken as a count. *)

Section SignedPipeline.
Context `{Runtime}.
Import VectorStore StoreOps Api Spec.
















End SignedPipeline.


(** A limit below zero: eleven records in the store and the limit -1.
    The index refuses to search for -5 neighbours, the keyword scorer
    finds no word of the query and [random.sample] raises, the handler
    of step 1 takes the records of the store but the last five, and the
    answer has these six records but the last one. *)
Lemma search_jobs_with_negative_limit :
  length (Api.response_jobs
            (Signed.search_jobs (H := Concrete.by_length) Examples.store11
               (Samples.plain_query "developer" (-1) true)
               Examples.noon Examples.zeros)) = 5.
Proof. by vm_compute. Qed.


(** ** Further properties of the search *)

Section SearchMore.
Context `{Runtime}.
Import VectorStore StoreOps Spec Facts.

Lemma fallback_at_most (st : JobVectorStore) (q : string) (k : nat)
    (f : option (job -> bool)) (rng : nat -> nat) :
  length (_fallback_search st q k f rng) <= k.
Proof. unfold _fallback_search. rewrite length_take. lia. Qed.

Lemma search_at_most (st : JobVectorStore) (q : string) (k : nat)
    (f : option (job -> bool)) (rng : nat -> nat) :
  length (search_similar_jobs st q k f rng) <= k.
Proof.
  destruct (decide (jobs st = [])) as [Hj|Hne].
  { unfold search_similar_jobs. rewrite Hj. simpl. lia. }
  rewrite search_cases by done.
  pose proof (fallback_at_most st q k f rng) as Hfb.
  destruct (encode q) as [qv|]; [|done]. simpl.
  destruct (take _ _) as [|r rs] eqn:Ht; [done|]. rewrite <- Ht.
  destruct (decide (k = 0)) as [->|Hk].
  - exfalso. assert (match f with Some _ => min (0 * 5) (length (jobs st)) | None => 0 end = 0)
      as Hfetch by (by destruct f).
    rewrite Hfetch in Ht. done.
  - rewrite length_take. lia.
Qed.

Lemma signed_search_at_most (st : JobVectorStore) (q : string) (k : Z)
    (f : option (job -> bool)) (rng : nat -> nat) :
  (0 <= k)%Z ->
  exists l, Signed.search_similar_jobs st q k f rng = Some l
            /\ (Z.of_nat (length l) <= k)%Z.
Proof.
  intros Hk. rewrite search_nonneg by done. eexists. split; [done|].
  pose proof (search_at_most st q (Z.to_nat k) f rng). lia.
Qed.

(** X1.  For an [int] [k] that is not negative, every search of the
    store returns, and returns no more than [k] records:
    [search_similar_jobs], with or without a predicate, and the searches
    by keywords, by title, for remote jobs and for Morocco.  (On a
    negative [k] the slice [scored_jobs[:k]] drops the last [-k] matches
    instead, see [search_negative].) *)
Theorem search_never_exceeds_k (st : JobVectorStore) (q : string) (k : Z)
    (f : option (job -> bool)) (rng : nat -> nat) (keywords : list string)
    (require_all : bool) :
  (0 <= k)%Z ->
  (exists l, Signed.search_similar_jobs st q k f rng = Some l
             /\ (Z.of_nat (length l) <= k)%Z)
  /\ (exists l, Signed.search_by_keywords st keywords k require_all rng = Some l
                /\ (Z.of_nat (length l) <= k)%Z)
  /\ (exists l, Signed.search_by_job_title st q k rng = Some l
                /\ (Z.of_nat (length l) <= k)%Z)
  /\ (exists l, Signed.search_remote_jobs st q k rng = Some l
                /\ (Z.of_nat (length l) <= k)%Z)
  /\ (exists l, Signed.search_morocco_relevant st q k rng = Some l
                /\ (Z.of_nat (length l) <= k)%Z).
Proof. intros Hk. split_and!; by apply signed_search_at_most. Qed.

(** *** Where the results come from *)

Lemma score_in_range (d : Q) : (0 <= d)%Q -> (0 <= 1 / (1 + d) <= 1)%Q.
Proof.
  intros Hd. assert (0 < 1 + d)%Q by lra. split.
  - apply Qle_shift_div_l; [done|]. lra.
  - apply Qle_shift_div_r; [done|]. lra.
Qed.

Lemma hit_origin (st : JobVectorStore) (f : option (job -> bool)) (c : Q * Z) (r : job) :
  hit st f c = Some r ->
  exists j, j ∈ jobs st /\ r = with_score j (1 / (1 + fst c)) /\ rejected f r = false.
Proof.
  unfold hit. destruct (_ || _); [done|].
  destruct (job_ids_map st !! _); [|done].
  destruct (jobs st !! _) as [j|] eqn:Hj; [|done].
  simpl. destruct (rejected f _) eqn:Hr; [done|]. intros [= <-].
  exists j. split_and!; [by eapply list_elem_of_lookup_2|done|exact Hr].
Qed.

Lemma candidates_nonneg (idx : list Faiss.vec) (qv : Faiss.vec) (k : nat) :
  Forall (fun c => (0 <= fst c)%Q) (take k (Faiss.sort_asc (Faiss.distances idx qv))).
Proof.
  apply Forall_take. rewrite sort_asc_perm. apply distances_nonneg.
Qed.

Lemma hits_origin (st : JobVectorStore) (f : option (job -> bool)) (qv : Faiss.vec)
    (k : nat) (r : job) :
  r ∈ hits st f (Faiss.search (index st) qv k) ->
  exists j s, j ∈ jobs st /\ r = with_score j s /\ (0 <= s <= 1)%Q
              /\ rejected f r = false.
Proof.
  rewrite hits_search. unfold hits. intros Hr.
  apply list_elem_of_omap in Hr as (c & Hc & Hhit).
  apply hit_origin in Hhit as (j & Hj & -> & Hrej).
  exists j, (1 / (1 + fst c))%Q. do 2 (split; [done|]). split; [|done].
  apply score_in_range.
  pose proof (candidates_nonneg (index st) qv k) as Hnn.
  rewrite Forall_forall in Hnn. by apply Hnn.
Qed.

Lemma match_score_le (terms : list string) (text : string) :
  match_score terms text <= length terms.
Proof. unfold match_score. apply List.filter_length_le. Qed.

Lemma keyword_score_in_range (m n : nat) :
  m <= n -> (0 <= Z.of_nat m # Pos.of_nat (max 1 n) <= 1)%Q.
Proof.
  intros Hmn. unfold Qle. simpl. split; [lia|].
  rewrite Z.mul_1_r, Z.mul_1_l.
  assert (Z.pos (Pos.of_nat (max 1 n)) = Z.of_nat (max 1 n)) as ->.
  { destruct (max 1 n) eqn:Hm; [lia|]. by rewrite <- Pos.of_nat_succ, Zpos_P_of_succ_nat, Nat2Z.inj_succ. }
  lia.
Qed.

Lemma score_jobs_origin (terms : list string) (f : option (job -> bool))
    (l : list job) (r : job) :
  r ∈ score_jobs terms f l ->
  exists j s, j ∈ l /\ r = with_score j s /\ (0 <= s <= 1)%Q /\ rejected f j = false.
Proof.
  induction l as [|j l IH]; simpl; [by rewrite elem_of_nil|].
  assert (r ∈ score_jobs terms f l ->
          exists j0 s, j0 ∈ j :: l /\ r = with_score j0 s /\ (0 <= s <= 1)%Q
                       /\ rejected f j0 = false) as IH'.
  { intros Hr. destruct (IH Hr) as (j0 & s & ? & ? & ? & ?).
    exists j0, s. split; [by right|done]. }
  destruct (rejected f j) eqn:Hrej; [exact IH'|].
  destruct (_ || _); [|exact IH'].
  rewrite elem_of_cons. intros [->|Hr]; [|by apply IH'].
  eexists j, _. split; [by left|]. split; [done|]. split; [|done].
  apply keyword_score_in_range, match_score_le.
Qed.

Lemma fallback_origin (st : JobVectorStore) (q : string) (k : nat)
    (f : option (job -> bool)) (rng : nat -> nat) (r : job) :
  r ∈ _fallback_search st q k f rng ->
  exists j s, j ∈ jobs st /\ r = with_score j s /\ (0 <= s <= 1)%Q
    /\ (rejected f j = false
        \/ score_jobs (split (lower q)) f (jobs st) = []).
Proof.
  rewrite fallback_cases. destruct (score_jobs _ _ _) as [|s0 rest] eqn:Hs.
  - intros Hr. apply list_elem_of_fmap in Hr as (j & -> & Hj).
    apply random_sample_subset in Hj.
    exists j, (1 # 10)%Q. do 3 (split; [done|]). by right.
  - intros Hr. apply elem_of_take in Hr as (i & Hi & _).
    apply list_elem_of_lookup_2 in Hi.
    rewrite (sort_desc_perm Faiss.Qleb similarity_score (s0 :: rest)) in Hi.
    rewrite <- Hs in Hi. apply score_jobs_origin in Hi as (j & s & ? & ? & ? & ?).
    exists j, s. do 3 (split; [done|]). by left.
Qed.

(** The results of a search, path by path. *)
Lemma search_origin (st : JobVectorStore) (q : string) (k : nat)
    (f : option (job -> bool)) (rng : nat -> nat) (r : job) :
  r ∈ search_similar_jobs st q k f rng ->
  exists j s, j ∈ jobs st /\ r = with_score j s /\ (0 <= s <= 1)%Q
    /\ (rejected f r = false \/ rejected f j = false
        \/ score_jobs (split (lower q)) f (jobs st) = []).
Proof.
  destruct (decide (jobs st = [])) as [Hj|Hne].
  { unfold search_similar_jobs. rewrite Hj. by rewrite elem_of_nil. }
  rewrite search_cases by done.
  assert (r ∈ _fallback_search st q k f rng ->
          exists j s, j ∈ jobs st /\ r = with_score j s /\ (0 <= s <= 1)%Q
            /\ (rejected f r = false \/ rejected f j = false
                \/ score_jobs (split (lower q)) f (jobs st) = [])) as Hfb.
  { intros Hr. apply fallback_origin in Hr as (j & s & ? & ? & ? & Hcase).
    exists j, s. do 3 (split; [done|]). tauto. }
  destruct (encode q) as [qv|]; [|exact Hfb]. simpl.
  destruct (take _ _) as [|r0 rs] eqn:Ht; [exact Hfb|]. rewrite <- Ht.
  intros Hr. apply elem_of_take in Hr as (i & Hi & _).
  apply list_elem_of_lookup_2, hits_origin in Hi as (j & s & ? & ? & ? & ?).
  exists j, s. do 3 (split; [done|]). by left.
Qed.

(** X2.  Every record of the answer of [search_similar_jobs] is the copy
    of a record of the store, with a similarity score between 0 and 1,
    whichever path produced it: the index, the keyword scorer or the
    random draw. *)
Theorem search_results_are_scored_copies (st : JobVectorStore) (q : string) (k : nat)
    (f : option (job -> bool)) (rng : nat -> nat) (r : job) :
  r ∈ search_similar_jobs st q k f rng -> scored_copy st r.
Proof.
  intros Hr. apply search_origin in Hr as (j & s & ? & ? & ? & _).
  by exists j, s.
Qed.

(** X3.  With a predicate [f], a returned record passed the predicate: as
    the scored copy on the path of the index, as the stored record on the
    path of the keyword scorer; the one exception is the random draw, made
    when the keyword scorer keeps no record. *)
Theorem search_applies_predicate (st : JobVectorStore) (q : string) (k : nat)
    (f : job -> bool) (rng : nat -> nat) (r : job) :
  r ∈ search_similar_jobs st q k (Some f) rng ->
  exists j s, j ∈ jobs st /\ r = with_score j s
    /\ (f r = true \/ f j = true
        \/ score_jobs (split (lower q)) (Some f) (jobs st) = []).
Proof.
  intros Hr. apply search_origin in Hr as (j & s & ? & ? & _ & Hcase).
  exists j, s. do 2 (split; [done|]). simpl in Hcase.
  rewrite !negb_false_iff in Hcase. exact Hcase.
Qed.

Lemma remote_filter_reads_record (j : job) (s : Q) :
  remote_filter (with_score j s) = remote_filter j.
Proof. unfold remote_filter, with_score, get. by rewrite !lookup_insert_ne. Qed.

Lemma morocco_filter_reads_record (j : job) (s : Q) :
  morocco_filter (with_score j s) = morocco_filter j.
Proof. unfold morocco_filter, with_score, get. by rewrite !lookup_insert_ne. Qed.

Lemma keyword_filter_reads_record (keywords : list string) (require_all : bool)
    (j : job) (s : Q) :
  keyword_filter keywords require_all (with_score j s)
  = keyword_filter keywords require_all j.
Proof. unfold keyword_filter, with_score, get. by rewrite !lookup_insert_ne. Qed.

Lemma search_honours (st : JobVectorStore) (q : string) (k : nat)
    (f : job -> bool) (rng : nat -> nat) :
  reads_record_only f ->
  score_jobs (split (lower q)) (Some f) (jobs st) <> [] ->
  Forall (fun r => f r = true) (search_similar_jobs st q k (Some f) rng).
Proof.
  intros Hf Hs. apply Forall_forall. intros r Hr.
  apply search_origin in Hr as (j & s & _ & -> & _ & Hcase). simpl in Hcase.
  rewrite !negb_false_iff, Hf in Hcase. destruct Hcase as [?|[?|?]]; by rewrite ?Hf.
Qed.

(** X4.  The predicates of the searches for remote jobs, for Morocco and
    by keywords do not read the score; and for a predicate that does not,
    every record of the answer satisfies the predicate as soon as the
    keyword scorer keeps one record of the store. *)
Theorem filtered_search_honours_predicate :
  (reads_record_only remote_filter /\ reads_record_only morocco_filter
   /\ forall keywords require_all, reads_record_only (keyword_filter keywords require_all))
  /\ (forall (st : JobVectorStore) (q : string) (k : nat) (f : job -> bool)
             (rng : nat -> nat),
        reads_record_only f ->
        score_jobs (split (lower q)) (Some f) (jobs st) <> [] ->
        Forall (fun r => f r = true) (search_similar_jobs st q k (Some f) rng)).
Proof.
  split; [split_and!|].
  - intros j s. apply remote_filter_reads_record.
  - intros j s. apply morocco_filter_reads_record.
  - intros keywords require_all j s. apply keyword_filter_reads_record.
  - apply search_honours.
Qed.

End SearchMore.

(** ** Texts, words and the search by keywords *)

Section Texts.
Import Facts.

Lemma append_cons (c : ascii) (a b : string) : String c a +:+ b = String c (a +:+ b).
Proof. reflexivity. Qed.

Lemma append_nil_l (b : string) : "" +:+ b = b.
Proof. reflexivity. Qed.

Lemma append_nil_r (s : string) : s +:+ "" = s.
Proof. induction s as [|c s IH]; [done|]. by rewrite append_cons, IH. Qed.

Lemma append_assoc (a b c : string) : (a +:+ b) +:+ c = a +:+ (b +:+ c).
Proof. induction a as [|x a IH]; [done|]. by rewrite !append_cons, IH. Qed.

Lemma lower_app (a b : string) : lower (a +:+ b) = lower a +:+ lower b.
Proof.
  induction a as [|x a IH]; [done|]. rewrite append_cons. simpl.
  by rewrite append_cons, IH.
Qed.

Lemma is_space_lower (c : ascii) : is_space (lower_ascii c) = is_space c.
Proof. destruct c as [[] [] [] [] [] [] [] []]; reflexivity. Qed.

Lemma no_space_lower (s : string) : no_space (lower s) = no_space s.
Proof. induction s as [|c s IH]; simpl; [done|]. by rewrite is_space_lower, IH. Qed.

Lemma is_word_lower (w : string) : is_word w -> is_word (lower w).
Proof.
  intros [Hne Hns]. split; [by destruct w|]. by rewrite no_space_lower.
Qed.

Lemma is_prefix_nil (s : string) : is_prefix "" s = true.
Proof. by destruct s. Qed.

Lemma is_prefix_app_l (w a b : string) :
  is_prefix w a = true -> is_prefix w (a +:+ b) = true.
Proof.
  revert a. induction w as [|c w IH]; intros a.
  - intros _. apply is_prefix_nil.
  - destruct a as [|x a]; [done|]. rewrite append_cons. simpl.
    rewrite !andb_true_iff. intros [? ?]. split; [done|]. by apply IH.
Qed.

Lemma contains_app_l (a b w : string) :
  contains a w = true -> contains (a +:+ b) w = true.
Proof.
  induction a as [|x a IH].
  - simpl. rewrite orb_false_r. destruct w; [|done]. intros _.
    rewrite append_nil_l. destruct b; simpl; by rewrite ?is_prefix_nil.
  - rewrite append_cons. simpl.
    rewrite !orb_true_iff. intros [Hp|Hc]; [left|right; by apply IH].
    by apply (is_prefix_app_l w (String x a) b).
Qed.

Lemma contains_app_r (a b w : string) :
  contains b w = true -> contains (a +:+ b) w = true.
Proof.
  intros Hb. induction a as [|x a IH]; [done|].
  rewrite append_cons. simpl. by rewrite IH, orb_true_r.
Qed.

(** A word found at the head of [a b] lies in [a]. *)
Lemma is_prefix_word (w a b : string) :
  no_space w = true -> is_prefix w (a +:+ " " +:+ b) = true -> is_prefix w a = true.
Proof.
  revert a. induction w as [|c w IH]; intros a; [by destruct a|].
  simpl. rewrite andb_true_iff. intros [Hc Hw].
  destruct a as [|x a].
  - rewrite append_nil_l, append_cons. simpl.
    rewrite andb_true_iff. intros [Heq _]. apply Ascii.eqb_eq in Heq. by subst c.
  - rewrite append_cons. simpl.
    rewrite !andb_true_iff. intros [? ?]. split; [done|]. by apply IH.
Qed.

(** A word found in [a b] lies in [a] or in [b]. *)
Lemma contains_word (a b w : string) :
  is_word w -> contains (a +:+ " " +:+ b) w = true ->
  contains a w = true \/ contains b w = true.
Proof.
  intros [Hne Hns]. induction a as [|x a IH].
  - change ("" +:+ " " +:+ b) with (String " " b).
    change (contains (String " " b) w) with (is_prefix w (String " " b) || contains b w).
    rewrite orb_true_iff. intros [Hp|Hc]; [|by right].
    destruct w as [|c w]; [done|]. simpl in Hp, Hns.
    apply andb_true_iff in Hp as [Heq _]. apply Ascii.eqb_eq in Heq. by subst c.
  - change (contains (String x a +:+ " " +:+ b) w)
      with (is_prefix w (String x a +:+ " " +:+ b) || contains (a +:+ " " +:+ b) w).
    rewrite orb_true_iff. intros [Hp|Hc].
    + left. apply is_prefix_word in Hp; [|done].
      change (contains (String x a) w) with (is_prefix w (String x a) || contains a w).
      by rewrite Hp.
    + destruct (IH Hc) as [Ha|Hb]; [left|by right].
      change (contains (String x a) w) with (is_prefix w (String x a) || contains a w).
      by rewrite Ha, orb_true_r.
Qed.

(** *** [str.split()] and [str.join] *)

Lemma split_go_sep (cur s1 s2 : string) :
  split_go cur (s1 +:+ " " +:+ s2) = split_go cur s1 ++ split_go "" s2.
Proof.
  revert cur. induction s1 as [|c s1 IH]; intros cur.
  - change ("" +:+ " " +:+ s2) with (String " " s2). simpl.
    by destruct (String.eqb cur "").
  - change (String c s1 +:+ " " +:+ s2) with (String c (s1 +:+ " " +:+ s2)).
    simpl. destruct (is_space c); [|apply IH].
    rewrite IH. by destruct (String.eqb cur "").
Qed.

Lemma split_go_word (cur w : string) :
  no_space w = true ->
  split_go cur w = if String.eqb (cur +:+ w) "" then [] else [cur +:+ w].
Proof.
  revert cur. induction w as [|c w IH]; intros cur; simpl.
  - intros _. by rewrite append_nil_r.
  - rewrite andb_true_iff, negb_true_iff. intros [-> Hw].
    rewrite IH by done. by rewrite append_assoc, append_cons, append_nil_l.
Qed.

Lemma split_word (w : string) : is_word w -> split w = [w].
Proof.
  intros [Hne Hns]. unfold split. rewrite split_go_word, append_nil_l by done.
  destruct (String.eqb w "") eqn:Heq; [|done]. by apply String.eqb_eq in Heq.
Qed.

Lemma split_join (w : string) (l : list string) :
  is_word w -> w ∈ l -> w ∈ split (join " " l).
Proof.
  intros Hw. induction l as [|x r IH]; [by rewrite elem_of_nil|].
  destruct r as [|y r].
  - rewrite list_elem_of_singleton. intros ->. simpl.
    rewrite split_word by done. by left.
  - change (join " " (x :: y :: r)) with (x +:+ " " +:+ join " " (y :: r)).
    unfold split in *. rewrite split_go_sep, elem_of_app, elem_of_cons.
    intros [Heq|Hr]; [left|right; by apply IH].
    rewrite <- Heq. fold (split w). rewrite split_word by done. by left.
Qed.

Lemma lower_join (l : list string) : lower (join " " l) = join " " (lower <$> l).
Proof.
  induction l as [|x r IH]; [done|]. destruct r as [|y r]; [done|].
  change (join " " (x :: y :: r)) with (x +:+ " " +:+ join " " (y :: r)).
  rewrite !lower_app, IH. done.
Qed.

End Texts.

Section Keywords.
Context `{Runtime}.
Import VectorStore StoreOps Spec Facts.

Lemma score_jobs_keeps (terms : list string) (f : option (job -> bool))
    (l : list job) (j : job) :
  j ∈ l -> rejected f j = false ->
  (0 <? match_score terms (fallback_text j)) || (length terms =? 0) = true ->
  score_jobs terms f l <> [].
Proof.
  intros Hj Hrej Hm. induction l as [|x l IH]; [by apply elem_of_nil in Hj|].
  simpl. apply elem_of_cons in Hj as [<-|Hj].
  - by rewrite Hrej, Hm.
  - destruct (rejected f x); [by apply IH|].
    destruct ((0 <? match_score terms (fallback_text x)) || _); [done|by apply IH].
Qed.

Lemma score_jobs_rejects_all (terms : list string) (f : job -> bool) (l : list job) :
  Forall (fun j => f j = false) l -> score_jobs terms (Some f) l = [].
Proof.
  induction 1 as [|j l Hj Hl IH]; simpl; [done|]. by rewrite Hj.
Qed.

(** The text the scorer reads holds the title and the description. *)
Lemma fallback_text_holds (j : job) (w : string) :
  is_word w -> contains (keyword_text j) w = true -> contains (fallback_text j) w = true.
Proof.
  intros Hw. unfold keyword_text, fallback_text. rewrite !lower_app.
  change (lower " ") with " ". intros Hc.
  apply contains_word in Hc as [Ht|Hd]; [| |done].
  - by apply contains_app_l.
  - by do 4 apply contains_app_r.
Qed.

(** X5.  When no record of the store passes the keyword predicate (as
    with an empty list of keywords, any of which would do),
    [search_by_keywords] answers with [min k n] records drawn at random
    from the [n] of the store, each with score 1/10; none of them
    contains a keyword. *)
Theorem keywords_without_match_draw_at_random (st : JobVectorStore)
    (keywords : list string) (k : nat) (require_all : bool) (rng : nat -> nat) :
  jobs st <> [] ->
  Forall (fun j => keyword_filter keywords require_all j = false) (jobs st) ->
  search_by_keywords st keywords k require_all rng
  = (fun j => with_score j (1 # 10))
      <$> random_sample rng (jobs st) (min k (length (jobs st))).
Proof.
  intros Hne Hnone. unfold search_by_keywords.
  apply random_fallback; [done| |by apply score_jobs_rejects_all].
  destruct (encode (join " " keywords)) as [qv|]; [right|by left].
  exists qv. split; [done|].
  destruct (hits st _ _) as [|r rs] eqn:Hh; [done|exfalso].
  assert (r ∈ hits st (Some (keyword_filter keywords require_all))
                (Faiss.search (index st) qv (min (k * 5) (length (jobs st))))) as Hr
    by (rewrite Hh; by left).
  apply hits_origin in Hr as (j & s & Hj & -> & _ & Hrej). simpl in Hrej.
  rewrite keyword_filter_reads_record in Hrej.
  rewrite Forall_forall in Hnone. by rewrite (Hnone j Hj) in Hrej.
Qed.

(** X6.  When a record of the store passes the keyword predicate and
    contains one of the keywords that is a word (not empty, no blank),
    every record [search_by_keywords] returns passes the predicate: any
    of the keywords, or all of them with [require_all]. *)
Theorem keyword_search_honours_keywords (st : JobVectorStore) (keywords : list string)
    (k : nat) (require_all : bool) (rng : nat -> nat) (j : job) (kw : string) :
  j ∈ jobs st ->
  keyword_filter keywords require_all j = true ->
  kw ∈ keywords -> is_word kw ->
  contains (keyword_text j) (lower kw) = true ->
  Forall (fun r => keyword_filter keywords require_all r = true)
    (search_by_keywords st keywords k require_all rng).
Proof.
  intros Hj Hpass Hkw Hword Hin. unfold search_by_keywords.
  apply search_honours.
  - intros j0 s. apply keyword_filter_reads_record.
  - apply (score_jobs_keeps _ _ _ j); [done|by simpl; rewrite Hpass|].
    apply orb_true_iff. left. apply Nat.ltb_lt.
    unfold match_score.
    assert (lower kw ∈ List.filter (contains (fallback_text j))
                         (split (lower (join " " keywords)))) as Hterm.
    { apply list_elem_of_In, filter_In. split.
      - apply list_elem_of_In. rewrite lower_join.
        apply split_join; [by apply is_word_lower|by apply list_elem_of_fmap_2].
      - apply fallback_text_holds; [by apply is_word_lower|done]. }
    destruct (List.filter _ _); [by apply elem_of_nil in Hterm|simpl; lia].
Qed.

End Keywords.

(** ** The search without predicate on an aligned store *)

Section Nearest.
Context `{Runtime}.
Import VectorStore Spec Facts.

Lemma distances_entries (idx : list Faiss.vec) (qv : Faiss.vec) (c : Q * Z) :
  c ∈ Faiss.distances idx qv ->
  exists i v, idx !! i = Some v /\ c = (Faiss.l2_sqr qv v, Z.of_nat i).
Proof.
  unfold Faiss.distances. intros Hc. apply list_elem_of_lookup in Hc as [i Hi].
  rewrite list_lookup_imap in Hi. destruct (idx !! i) as [v|] eqn:Hv; [|done].
  simpl in Hi. inversion Hi. by exists i, v.
Qed.

Lemma hits_nearest (st : JobVectorStore) (qv : Faiss.vec) (cs : list (Q * Z)) :
  aligned st -> Forall (fun c => c ∈ Faiss.distances (index st) qv) cs ->
  Forall2 (answers st qv) cs (hits st None cs).
Proof.
  intros Hal Hcs. induction Hcs as [|c cs Hc Hcs IH]; [constructor|].
  apply distances_entries in Hc as (i & v & Hv & ->).
  destruct (aligned_lookup st i v Hal Hv) as (j & Hmap & Hj & Hemb).
  pose proof (lookup_lt_Some _ _ _ Hj) as Hlt.
  unfold hits. simpl. unfold hit at 1. simpl.
  replace (Z.of_nat i <? 0)%Z with false by (symmetry; apply Z.ltb_ge; lia).
  replace (Z.of_nat (length (jobs st)) <=? Z.of_nat i)%Z with false
    by (symmetry; apply Z.leb_gt; lia).
  simpl. rewrite Nat2Z.id, Hmap, Hj.
  constructor; [|exact IH]. exists j, v. simpl. by rewrite Nat2Z.id.
Qed.

Lemma search_goes_with_ranking (st : JobVectorStore) (q : string) (k : nat)
    (rng : nat -> nat) (qv : Faiss.vec) :
  aligned st -> encode q = Some qv ->
  Forall2 (answers st qv) (take k (Faiss.sort_asc (Faiss.distances (index st) qv)))
    (search_similar_jobs st q k None rng).
Proof.
  intros Hal Hq. set (ranking := Faiss.sort_asc (Faiss.distances (index st) qv)).
  assert (Forall (fun c => c ∈ Faiss.distances (index st) qv) (take k ranking)) as Hin.
  { apply Forall_take, Forall_forall. intros c Hc. unfold ranking in Hc.
    by rewrite sort_asc_perm in Hc. }
  pose proof (hits_nearest st qv _ Hal Hin) as Hhits.
  pose proof (Forall2_length _ _ _ Hhits) as Hhl.
  destruct (candidates_valid st qv k Hal) as (_ & _ & Hlen). fold ranking in Hlen.
  destruct (decide (jobs st = [])) as [Hj|Hne].
  { unfold search_similar_jobs. rewrite Hj.
    rewrite Hj in Hlen. simpl in Hlen. rewrite Nat.min_0_r in Hlen.
    apply nil_length_inv in Hlen. rewrite Hlen. constructor. }
  destruct (decide (k = 0)) as [->|Hk].
  { pose proof (search_at_most st q 0 None rng) as Hz.
    destruct (search_similar_jobs st q 0 None rng); [|simpl in Hz; lia].
    rewrite take_0. constructor. }
  rewrite search_cases, Hq by done. cbv beta iota zeta.
  rewrite hits_search. fold ranking.
  replace (max 1 k) with k by lia.
  rewrite (take_ge (hits st None (take k ranking))) by lia.
  destruct (hits st None (take k ranking)) as [|h hs] eqn:Hh; [|exact Hhits].
  exfalso. destruct (jobs st); [done|]. simpl in *. lia.
Qed.

(** X7.  On an aligned store and for a query the provider embeds, the
    search without predicate returns the [min k n] nearest records,
    nearest first: the answer goes, record by record, with the first [k]
    candidates of the ranking of all the stored vectors by their squared
    distance to the query, each record with the score
    [1 / (1 + distance)]. *)
Theorem unfiltered_search_returns_nearest (st : JobVectorStore) (q : string) (k : nat)
    (rng : nat -> nat) (qv : Faiss.vec) :
  aligned st -> encode q = Some qv ->
  let ranking := Faiss.sort_asc (Faiss.distances (index st) qv) in
  ranking ≡ₚ Faiss.distances (index st) qv
  /\ StronglySorted (fun a b => (fst a <= fst b)%Q) ranking
  /\ Forall2 (answers st qv) (take k ranking) (search_similar_jobs st q k None rng)
  /\ length (search_similar_jobs st q k None rng) = min k (length (jobs st)).
Proof.
  intros Hal Hq ranking.
  split; [apply sort_asc_perm|]. split; [apply sort_asc_sorted|].
  pose proof (search_goes_with_ranking st q k rng qv Hal Hq) as Hans.
  split; [exact Hans|].
  rewrite <- (Forall2_length _ _ _ Hans).
  destruct (candidates_valid st qv k Hal) as (_ & _ & Hlen). exact Hlen.
Qed.

End Nearest.

(** ** Further properties of [save] and [load] *)

Section PersistMore.
Context `{Runtime}.
Import VectorStore Spec Facts.

(** The three outcomes of [save]. *)
Lemma save_cases (st : JobVectorStore) (name : string) (d : disk) :
  save st name d =
    if bool_decide (index_path st name ∈ read_only d) then (false, d)
    else if bool_decide (data_path st name ∈ read_only d)
         then (false, {| files := <[index_path st name := IndexFile (index st)]> (files d);
                         read_only := read_only d |})
         else (true, {| files := <[data_path st name
                                     := PickleFile (jobs st) (job_ids_map st)]>
                                   (<[index_path st name := IndexFile (index st)]> (files d));
                        read_only := read_only d |}).
Proof.
  unfold save, write_file, index_path, data_path.
  repeat case_bool_decide; simpl; repeat case_bool_decide; done.
Qed.

(** X8.  [load] answers [False] and leaves the store exactly as it was
    when the index file is missing or is not a readable index, or when the
    record file is missing. *)
Theorem load_without_snapshot_changes_nothing (st : JobVectorStore) (name : string)
    (d : disk) :
  (forall vs, files d !! index_path st name <> Some (IndexFile vs))
  \/ files d !! data_path st name = None ->
  load st name d = (false, st).
Proof.
  unfold load, index_path, data_path. cbv zeta.
  set (ip := path_join (vector_dir st) (name +:+ ".index")).
  set (dp := path_join (vector_dir st) (name +:+ ".pkl")).
  intros [Hidx|Hdata].
  - destruct (files d !! ip) as [[vs| |]|];
      [by destruct (Hidx vs)|..]; by destruct (files d !! dp).
  - rewrite Hdata. by destruct (files d !! ip) as [[| |]|].
Qed.

(** X9.  [save] touches the two files of the snapshot and nothing else:
    whether it answers [True] or [False], every other path holds what it
    held before.  When it answers [True], the index file holds the index
    of the store and the record file its records and its position map.
    When the index path is write-protected, it answers [False] and no
    file is written at all. *)
Theorem save_touches_its_two_files_only (st : JobVectorStore) (name : string)
    (d : disk) :
  let r := save st name d in
  (forall p, p <> index_path st name -> p <> data_path st name ->
     files (snd r) !! p = files d !! p)
  /\ (fst r = true ->
      files (snd r) !! index_path st name = Some (IndexFile (index st))
      /\ files (snd r) !! data_path st name
         = Some (PickleFile (jobs st) (job_ids_map st)))
  /\ (index_path st name ∈ read_only d -> r = (false, d)).
Proof.
  intros r. unfold r. rewrite save_cases.
  pose proof (snapshot_paths_differ (vector_dir st) name) as Hdiff.
  fold (index_path st name) (data_path st name) in Hdiff.
  repeat case_bool_decide; simpl; split_and!; try done.
  - intros p ? ?. by rewrite lookup_insert_ne.
  - intros p ? ?. by rewrite !lookup_insert_ne.
  - intros _. by rewrite lookup_insert_ne, !lookup_insert_eq.
Qed.

(** X10.  A torn snapshot loads.  When the record file of an earlier
    snapshot is write-protected and the index file is not, [save] answers
    [False] after writing the new index; a later [load] of that name
    answers [True] and gives a store with the index of the store just
    saved next to the records and the position map of the earlier
    snapshot. *)
Theorem load_accepts_torn_snapshot (st : JobVectorStore) (name dd : string) (d : disk)
    (js : list job) (m : gmap nat nat) :
  index_path st name ∉ read_only d ->
  data_path st name ∈ read_only d ->
  files d !! data_path st name = Some (PickleFile js m) ->
  exists d' st',
    save st name d = (false, d')
    /\ load (init dd (vector_dir st)) name d' = (true, st')
    /\ index st' = index st /\ jobs st' = js /\ job_ids_map st' = m.
Proof.
  intros Hidx Hdata Hold. rewrite save_cases.
  rewrite bool_decide_eq_false_2, bool_decide_eq_true_2 by done.
  pose proof (snapshot_paths_differ (vector_dir st) name) as Hdiff.
  fold (index_path st name) (data_path st name) in Hdiff.
  eexists _, _. split; [done|]. unfold load. simpl.
  fold (index_path st name) (data_path st name).
  rewrite lookup_insert_eq, lookup_insert_ne, Hold by done. done.
Qed.

(** *** Two names in one directory *)

Lemma list_ascii_app (a b : string) :
  list_ascii_of_string (a +:+ b) = list_ascii_of_string a ++ list_ascii_of_string b.
Proof.
  induction a as [|x a IH]; [done|]. rewrite append_cons. simpl. by rewrite IH.
Qed.

Lemma append_cancel_r (a b s : string) : a +:+ s = b +:+ s -> a = b.
Proof.
  intros Heq. apply (f_equal list_ascii_of_string) in Heq.
  rewrite !list_ascii_app in Heq. apply app_inv_tail in Heq.
  apply (f_equal string_of_list_ascii) in Heq.
  by rewrite !string_of_list_ascii_of_string in Heq.
Qed.

Lemma extensions_differ (a b : string) : a +:+ ".index" <> b +:+ ".pkl".
Proof.
  intros Heq. apply (f_equal list_ascii_of_string) in Heq.
  rewrite !list_ascii_app in Heq. apply (f_equal (@rev ascii)) in Heq.
  rewrite !rev_app_distr in Heq. simpl in Heq. discriminate.
Qed.

Lemma relative_extension (a ext : string) :
  relative a -> is_prefix "/" ext = false -> relative (a +:+ ext).
Proof.
  unfold relative. intros Ha Hext. destruct a as [|c a]; [done|].
  rewrite append_cons. simpl in *. by destruct (Ascii.eqb "/" c).
Qed.

Lemma path_join_inj (directory n1 n2 : string) :
  relative n1 -> relative n2 ->
  path_join directory n1 = path_join directory n2 -> n1 = n2.
Proof.
  unfold relative, path_join. intros -> ->.
  destruct (_ || _); intros Heq; by do 2 (try apply append_cancel_l in Heq).
Qed.

Lemma file_name_relative (a : string) : file_name a -> relative a.
Proof.
  unfold file_name, relative. destruct a as [|c a]; [done|]. simpl.
  intros Hc. by apply orb_false_elim in Hc as [? _].
Qed.

(** The files of two snapshots with different relative names are four
    different paths. *)
Lemma snapshot_paths_apart (st : JobVectorStore) (a b : string) :
  relative a -> relative b -> a <> b ->
  index_path st a <> index_path st b /\ index_path st a <> data_path st b
  /\ data_path st a <> index_path st b /\ data_path st a <> data_path st b.
Proof.
  intros Ha Hb Hab. unfold index_path, data_path.
  split_and!; intros Heq; apply path_join_inj in Heq;
    try (by apply relative_extension).
  - by apply append_cancel_r in Heq.
  - by apply extensions_differ in Heq.
  - symmetry in Heq. by apply extensions_differ in Heq.
  - by apply append_cancel_r in Heq.
Qed.

(** X11.  Two snapshots of one directory under different file names do
    not disturb each other.  The names are file names, with no [/] in
    them, so that the four paths are four entries of the one directory
    (as names are compared letter by letter, this is for a directory in
    which differently spelt names are different files).  After a store is
    saved under one name, saving another store under the other name,
    whether it succeeds or fails, leaves the first snapshot as it was, and
    loading the first name gives the index, the records and the position
    map of the first store. *)
Theorem snapshots_under_two_names_coexist (st1 st2 : JobVectorStore) (a b dd : string)
    (d d1 : disk) :
  file_name a -> file_name b -> a <> b ->
  vector_dir st2 = vector_dir st1 ->
  save st1 a d = (true, d1) ->
  exists st',
    load (init dd (vector_dir st1)) a (snd (save st2 b d1)) = (true, st')
    /\ index st' = index st1 /\ jobs st' = jobs st1
    /\ job_ids_map st' = job_ids_map st1.
Proof.
  intros Ha Hb Hab Hdir Hsave. apply save_true in Hsave.
  apply file_name_relative in Ha, Hb.
  fold (index_path st1 a) (data_path st1 a) in Hsave.
  destruct (snapshot_paths_apart st1 a b Ha Hb Hab) as (H1 & H2 & H3 & H4).
  pose proof (snapshot_paths_differ (vector_dir st1) a) as Hdiff.
  fold (index_path st1 a) (data_path st1 a) in Hdiff.
  assert (index_path st2 b = index_path st1 b) as Hib
    by (unfold index_path; by rewrite Hdir).
  assert (data_path st2 b = data_path st1 b) as Hdb
    by (unfold data_path; by rewrite Hdir).
  assert (files (snd (save st2 b d1)) !! index_path st1 a = Some (IndexFile (index st1))
          /\ files (snd (save st2 b d1)) !! data_path st1 a
             = Some (PickleFile (jobs st1) (job_ids_map st1))) as [Hi Hd].
  { rewrite save_cases, Hib, Hdb.
    repeat case_bool_decide; simpl; rewrite ?lookup_insert_ne by done;
      rewrite Hsave; rewrite ?lookup_insert_eq, ?lookup_insert_ne by done;
      by rewrite ?lookup_insert_eq. }
  eexists. unfold load. simpl. fold (index_path st1 a) (data_path st1 a).
  rewrite Hi, Hd. done.
Qed.

End PersistMore.

(** ** Loading CSV files and starting the server *)

Section Loading.
Context `{Runtime}.
Import VectorStore StoreOps Server Spec Facts.

Lemma embed_jobs_none (ci : nat) (batch : list job) (s : batch_state) :
  Forall (fun j => _create_job_vector j = None) batch -> embed_jobs ci batch s = s.
Proof. induction 1 as [|j l Hj Hl IH]; simpl; [done|]. by rewrite Hj. Qed.

Lemma filter_embeddable_nil (batch : list job) :
  filter embeddable batch = [] <-> Forall (fun j => _create_job_vector j = None) batch.
Proof.
  induction batch as [|j l IH]; [by split; [constructor|]|].
  rewrite filter_cons, Forall_cons. unfold embeddable at 1.
  destruct (decide _) as [[v Hv]|Hn].
  - split; [done|]. intros [Hj _]. by rewrite Hv in Hj.
  - rewrite IH. split; [|tauto]. intros Hl. split; [|done].
    destruct (_create_job_vector j) eqn:Hj; [|done]. destruct Hn. by eexists.
Qed.

(** X12.  A batch of which the provider embeds no record (a provider
    that is down, for one) adds nothing: [add_jobs_from_dataframe] answers
    0 and leaves the index, the records and the position map as they
    were; and it answers 0 only then. *)
Theorem batch_without_embedding_changes_nothing (st : JobVectorStore) (batch : list job) :
  (Forall (fun j => _create_job_vector j = None) batch <->
   snd (add_jobs_from_dataframe st batch) = 0)
  /\ (snd (add_jobs_from_dataframe st batch) = 0 ->
      fst (add_jobs_from_dataframe st batch) = st).
Proof.
  destruct (add_jobs_spec st batch) as (_ & Hcount & _).
  assert (Forall (fun j => _create_job_vector j = None) batch <->
          snd (add_jobs_from_dataframe st batch) = 0) as Hiff.
  { rewrite Hcount, <- filter_embeddable_nil. split; [by intros ->|].
    apply nil_length_inv. }
  split; [exact Hiff|]. intros Hzero. apply Hiff in Hzero.
  unfold add_jobs_from_dataframe. rewrite embed_jobs_none by done. simpl.
  by destruct st.
Qed.

(** *** A directory of CSV files *)

Lemma add_batches_cons (st : JobVectorStore) (b : list job) (bs : list (list job)) :
  add_batches st (b :: bs) = add_batches (fst (add_jobs_from_dataframe st b)) bs.
Proof. done. Qed.

Lemma csv_batches_cons (t : gmap string node) (directory name : string)
    (names : list string) :
  csv_batches t directory (name :: names)
  = match (if ends_with name ".csv" then read_csv t (path_join directory name)
           else None) with
    | Some df => df :: csv_batches t directory names
    | None => csv_batches t directory names
    end.
Proof. done. Qed.

Lemma add_files_spec (t : gmap string node) (directory : string) (names : list string)
    (st : JobVectorStore) (n : nat) :
  foldl (add_file t directory) (st, n) names
  = (add_batches st (csv_batches t directory names),
     n + length (filter embeddable (concat (csv_batches t directory names)))).
Proof.
  revert st n. induction names as [|name names IH]; intros st n.
  - simpl. by rewrite Nat.add_0_r.
  - change (foldl (add_file t directory) (st, n) (name :: names))
      with (foldl (add_file t directory) (add_file t directory (st, n) name) names).
    rewrite csv_batches_cons. unfold add_file, add_jobs_from_csv.
    destruct (ends_with name ".csv"); [|apply IH].
    destruct (read_csv t (path_join directory name)) as [df|]; cbn [fst snd].
    + rewrite IH, add_batches_cons. f_equal.
      destruct (add_jobs_spec st df) as (_ & -> & _).
      rewrite concat_cons, filter_app, length_app. lia.
    + rewrite Nat.add_0_r. apply IH.
Qed.

(** X13.  [add_jobs_from_directory] on a directory is the load, one after
    the other and in the order of the listing, of the files whose names
    end in [.csv] and that [pd.read_csv] accepts; every other entry is
    skipped.  The number it answers is the number of records the store
    gained, the records gained are the records of these files that the
    provider embeds, and an aligned store stays aligned. *)
Theorem directory_load_is_batch_load (st : JobVectorStore) (t : gmap string node)
    (directory : string) (names : list string) :
  t !! directory = Some (Directory names) ->
  let batches := csv_batches t directory names in
  exists st' total,
    add_jobs_from_directory st t (Some directory) = Some (st', total)
    /\ st' = add_batches st batches
    /\ jobs st' = jobs st ++ filter embeddable (concat batches)
    /\ length (jobs st') = length (jobs st) + total
    /\ (aligned st -> aligned st').
Proof.
  intros Hdir batches. unfold add_jobs_from_directory. simpl. rewrite Hdir.
  rewrite add_files_spec. fold batches.
  destruct (add_batches_spec st batches) as [Hjobs Hal].
  eexists _, _. split_and!; [done|done|done| |done].
  rewrite Hjobs, length_app. lia.
Qed.

(** *** [initialize_vector_store] *)

(** X14.  [initialize_vector_store] answers [True] exactly when it
    leaves a store with records: when neither the snapshot nor the data
    directory gives any, the two built-in records are served.  When it
    answers [False], the store is empty, the files are untouched and the
    path of the data directory is a file, on which the listing raised. *)
Theorem initialize_serves_records (dd vd : string) (d : disk) (t : gmap string node) :
  let r := initialize_vector_store dd vd d t in
  (fst (fst r) = true <-> jobs (snd (fst r)) <> [])
  /\ (fst (fst r) = false ->
      snd (fst r) = init dd vd /\ snd r = d /\ exists rows, t !! dd = Some (File rows)).
Proof.
  intros r. unfold r, initialize_vector_store.
  destruct (load (init dd vd) "job_vector_store" d) as [[|] st1]; simpl.
  - destruct (jobs st1) eqn:Hj; simpl; (split; [|done]).
    + split; [|done]. intros _. unfold sample_jobs. rewrite Hj. done.
    + rewrite Hj. done.
  - destruct (add_jobs_from_directory st1 t (Some dd)) as [[st2 n]|] eqn:Hadd; simpl.
    + destruct (jobs st2) eqn:Hj; simpl; (split; [|done]).
      * split; [|done]. intros _. unfold sample_jobs. rewrite Hj. done.
      * rewrite Hj. done.
    + split; [done|]. intros _. split_and!; [done|done|].
      unfold add_jobs_from_directory in Hadd. simpl in Hadd.
      destruct (t !! dd) as [[rows|names]|]; [by exists rows|done|done].
Qed.

Lemma search_on_empty_index (st : JobVectorStore) (q : string) (k : nat)
    (f : option (job -> bool)) (rng : nat -> nat) :
  jobs st <> [] -> index st = [] ->
  search_similar_jobs st q k f rng = _fallback_search st q k f rng.
Proof.
  intros Hne Hidx. rewrite search_cases by done.
  destruct (encode q) as [qv|]; [|done]. cbv beta iota zeta.
  rewrite hits_search, Hidx.
  change (Faiss.sort_asc (Faiss.distances [] qv)) with (@nil (Q * Z)).
  rewrite take_nil. change (hits st f []) with (@nil job). by rewrite take_nil.
Qed.

(** X15.  The first start, with no snapshot and no data directory,
    leaves a store with the two built-in records, an empty index and an
    empty position map: every search of this store is answered by the
    keyword scorer of the fallback, the index having nothing to give.  The
    snapshot written on the way is the one of the empty store, not of the
    records served. *)
Theorem first_start_serves_samples_by_keywords (dd vd : string) (d : disk)
    (t : gmap string node) :
  files d !! path_join vd ("job_vector_store" +:+ ".index") = None ->
  t !! dd = None ->
  let r := initialize_vector_store dd vd d t in
  let st := snd (fst r) in
  fst (fst r) = true
  /\ jobs st = sample_jobs /\ index st = [] /\ job_ids_map st = ∅
  /\ (forall q k f rng,
        search_similar_jobs st q k f rng = _fallback_search st q k f rng)
  /\ snd r = snd (save (init dd vd) "job_vector_store" d).
Proof.
  intros Hidx Hdir r st. unfold st, r, initialize_vector_store.
  assert (load (init dd vd) "job_vector_store" d = (false, init dd vd)) as ->.
  { unfold load. simpl. by rewrite Hidx. }
  unfold add_jobs_from_directory. simpl. rewrite Hdir. simpl.
  split_and!; try done.
  intros q k f rng. by apply search_on_empty_index.
Qed.

Lemma add_jobs_index (st : JobVectorStore) (batch : list job) :
  exists new,
    index (fst (add_jobs_from_dataframe st batch)) = index st ++ new
    /\ Forall2 (fun j v => _create_job_vector j = Some v) (filter embeddable batch) new.
Proof.
  pose proof (embed_jobs_spec (length (jobs st)) batch
                {| vectors := []; valid_jobs := []; ids := job_ids_map st; added := 0 |})
    as (_ & Hadded & (vs & Hvs & Hemb) & _).
  simpl in Hvs, Hadded. exists vs. split; [|exact Hemb].
  unfold add_jobs_from_dataframe.
  pose proof (Forall2_length _ _ _ Hemb) as Hlen.
  destruct (0 <? _) eqn:Hpos; simpl; [by rewrite Hvs|].
  apply Nat.ltb_ge in Hpos.
  assert (vs = []) as -> by (apply nil_length_inv; lia). by rewrite app_nil_r.
Qed.

Lemma add_batches_index (st : JobVectorStore) (batches : list (list job)) :
  exists new,
    index (add_batches st batches) = index st ++ new
    /\ Forall2 (fun j v => _create_job_vector j = Some v)
         (filter embeddable (concat batches)) new.
Proof.
  revert st. induction batches as [|b bs IH]; intros st.
  - exists []. simpl. split; [by rewrite app_nil_r|constructor].
  - rewrite add_batches_cons.
    destruct (add_jobs_index st b) as (new1 & Hi1 & Hf1).
    destruct (IH (fst (add_jobs_from_dataframe st b))) as (new2 & Hi2 & Hf2).
    exists (new1 ++ new2). split.
    + by rewrite Hi2, Hi1, app_assoc.
    + simpl. rewrite filter_app. by apply Forall2_app.
Qed.

(** X16.  A start on a snapshot whose index file is readable and whose
    record file is not, the vectors of the snapshot having the dimension
    of the vectors of the provider: [load] fails after taking the index
    of the snapshot, the records of the data directory are then added
    behind these vectors, and the store that is served, and saved, holds
    the stale vectors in front of the new ones.  Its index is longer than
    its list of records by the size of the stale index, so that position
    [i] of the index no longer holds the vector of record [i]. *)
Theorem rebuild_after_failed_load_keeps_stale_vectors (dd vd : string) (d : disk)
    (t : gmap string node) (vs : list Faiss.vec) (names : list string) :
  files d !! path_join vd ("job_vector_store" +:+ ".index") = Some (IndexFile vs) ->
  files d !! path_join vd ("job_vector_store" +:+ ".pkl") = Some Damaged ->
  (forall v j v', v ∈ vs -> _create_job_vector j = Some v' -> length v' = length v) ->
  t !! dd = Some (Directory names) ->
  let kept := filter embeddable (concat (csv_batches t dd names)) in
  kept <> [] ->
  let r := initialize_vector_store dd vd d t in
  let st := snd (fst r) in
  fst (fst r) = true
  /\ jobs st = kept
  /\ (exists new, index st = vs ++ new
        /\ Forall2 (fun j v => _create_job_vector j = Some v) kept new)
  /\ length (index st) = length vs + length (jobs st)
  /\ snd r = snd (save st "job_vector_store" d).
Proof.
  intros Hidx Hdata _ Hdir kept Hkept r st. unfold st, r, initialize_vector_store.
  assert (load (init dd vd) "job_vector_store" d = (false, set_index (init dd vd) vs)) as ->.
  { unfold load. simpl. by rewrite Hidx, Hdata. }
  unfold add_jobs_from_directory. simpl. rewrite Hdir. rewrite add_files_spec.
  set (st1 := set_index (init dd vd) vs). simpl.
  destruct (add_batches_spec st1 (csv_batches t dd names)) as [Hjobs _].
  destruct (add_batches_index st1 (csv_batches t dd names)) as (new & Hnew & Hemb).
  simpl in Hjobs, Hnew. fold kept in Hjobs, Hemb.
  destruct (jobs (add_batches st1 (csv_batches t dd names))) as [|j0 js] eqn:Hj;
    [by rewrite <- Hjobs in Hkept|].
  simpl. rewrite Hj. split_and!; [done|done|by exists new| |done].
  rewrite Hnew, length_app, <- (Forall2_length _ _ _ Hemb), <- Hjobs. done.
Qed.

End Loading.

(** ** Statistics, analytics and recommendations *)

Section Counters.
Context `{Runtime}.
Import VectorStore StoreOps Server Spec Facts.

Lemma bump_counted (key : pyval) (c : list (pyval * nat)) :
  counted (bump key c) = S (counted c).
Proof.
  unfold counted. induction c as [|[k n] c IH]; [done|].
  change (bump key ((k, n) :: c))
    with (if py_eqb k key then (k, S n) :: c else (k, n) :: bump key c).
  destruct (py_eqb k key); rewrite !fmap_cons; simpl; [done|].
  rewrite IH. lia.
Qed.

Lemma count_by_counted (key : string) (j : job) (c c' : list (pyval * nat)) :
  count_by key j c = Some c' ->
  counted c' = counted c + length (labelled key [j]).
Proof.
  unfold count_by, labelled. simpl.
  destruct (truthy (get j key (PStr "unknown"))); simpl.
  - destruct (hashable _); [|done]. intros [= <-]. rewrite bump_counted. lia.
  - intros [= <-]. lia.
Qed.

Lemma filter_cons_length {A} (f : A -> bool) (x : A) (l : list A) :
  length (List.filter f (x :: l)) = (if f x then 1 else 0) + length (List.filter f l).
Proof. simpl. by destruct (f x). Qed.

Lemma labelled_cons (key : string) (j : job) (l : list job) :
  length (labelled key (j :: l)) = length (labelled key [j]) + length (labelled key l).
Proof.
  unfold labelled. simpl. by destruct (truthy _).
Qed.

Lemma count_jobs_spec (l : list job) (s s' : statistics) :
  count_jobs s l = Some s' ->
  total_jobs s' = total_jobs s
  /\ counted (specialties s') = counted (specialties s) + length (labelled "specialty" l)
  /\ counted (countries s') = counted (countries s) + length (labelled "source_country" l)
  /\ remote_jobs s'
     = remote_jobs s
       + length (List.filter (fun j => truthy (get j "remote_friendly" (PBool false))) l)
  /\ international_jobs s'
     = international_jobs s
       + length (List.filter (fun j => truthy (get j "international" (PBool false))) l).
Proof.
  revert s. induction l as [|j l IH]; intros s.
  - intros [= <-]. unfold labelled. simpl. lia.
  - change (count_jobs s (j :: l))
      with (match count_job s j with Some s1 => count_jobs s1 l | None => None end).
    destruct (count_job s j) as [s1|] eqn:Hs1; [|done]. intros Hrest.
    destruct (IH s1 Hrest) as (Ht & Hsp & Hco & Hre & Hin).
    unfold count_job in Hs1.
    destruct (count_by "specialty" j (specialties s)) as [sp|] eqn:Hsp1; [|done].
    destruct (count_by "source_country" j (countries s)) as [co|] eqn:Hco1; [|done].
    simpl in Hs1. injection Hs1 as <-.
    cbn [total_jobs specialties countries remote_jobs international_jobs] in *.
    apply count_by_counted in Hsp1, Hco1.
    rewrite (labelled_cons "specialty" j l), (labelled_cons "source_country" j l),
      (filter_cons_length (fun j => truthy (get j "remote_friendly" (PBool false))) j l),
      (filter_cons_length (fun j => truthy (get j "international" (PBool false))) j l).
    destruct (truthy (get j "remote_friendly" (PBool false)));
      destruct (truthy (get j "international" (PBool false))); lia.
Qed.

Lemma count_jobs_returns (l : list job) (s : statistics) :
  Forall plain_labels l -> is_Some (count_jobs s l).
Proof.
  intros Hl. revert s. induction Hl as [|j l [Hsp Hco] Hl IH]; intros s; [done|].
  simpl. unfold count_job, count_by. rewrite Hsp, Hco.
  destruct (truthy (get j "specialty" _)), (truthy (get j "source_country" _));
    simpl; apply IH.
Qed.

(** X17.  The statistics of a store with records, none of which carries
    a list as specialty or as country: [get_job_statistics] returns the
    five counters; the total is the number of records, every record with
    a true specialty (['unknown'] when it has none) is counted once under
    the specialties, likewise for the countries, and the remote and the
    international counters count the records with a true flag; so no
    counter exceeds the total. *)
Theorem statistics_count_every_record (st : JobVectorStore) :
  jobs st <> [] ->
  Forall plain_labels (jobs st) ->
  exists s,
    get_job_statistics st = Some (Counted s)
    /\ total_jobs s = length (jobs st)
    /\ counted (specialties s) = length (labelled "specialty" (jobs st))
    /\ counted (countries s) = length (labelled "source_country" (jobs st))
    /\ remote_jobs s
       = length (List.filter (fun j => truthy (get j "remote_friendly" (PBool false)))
                   (jobs st))
    /\ international_jobs s
       = length (List.filter (fun j => truthy (get j "international" (PBool false)))
                   (jobs st))
    /\ counted (specialties s) <= total_jobs s
    /\ counted (countries s) <= total_jobs s
    /\ remote_jobs s <= total_jobs s
    /\ international_jobs s <= total_jobs s.
Proof.
  intros Hne Hplain. unfold get_job_statistics.
  destruct (jobs st) as [|j0 js] eqn:Hj; [done|]. rewrite <- Hj in *.
  set (s0 := {| total_jobs := length (jobs st); specialties := []; countries := [];
                remote_jobs := 0; international_jobs := 0 |}).
  destruct (count_jobs_returns (jobs st) s0 Hplain) as [s Hs].
  rewrite Hs. exists s. simpl.
  destruct (count_jobs_spec _ _ _ Hs) as (Ht & Hsp & Hco & Hre & Hin).
  simpl in *. unfold counted in Hsp, Hco. simpl in Hsp, Hco. fold (counted (specialties s)) in Hsp.
  fold (counted (countries s)) in Hco.
  pose proof (List.filter_length_le
                (fun j => truthy (get j "specialty" (PStr "unknown"))) (jobs st)).
  pose proof (List.filter_length_le
                (fun j => truthy (get j "source_country" (PStr "unknown"))) (jobs st)).
  pose proof (List.filter_length_le
                (fun j => truthy (get j "remote_friendly" (PBool false))) (jobs st)).
  pose proof (List.filter_length_le
                (fun j => truthy (get j "international" (PBool false))) (jobs st)).
  unfold labelled in *. split_and!; try done; lia.
Qed.

(** *** The salary ranges of the analytics *)

Lemma count_salary_spec (r r' : salary_ranges) (j : job) :
  count_salary r j = Some r' ->
  ranged r' = S (ranged r)
  /\ range_0_30k r + length (unpriced [j]) <= range_0_30k r'.
Proof.
  unfold count_salary, py_lt_int, unpriced, get. simpl.
  destruct (j !! "salary_min") as [v|] eqn:Hv; simpl.
  - destruct (py_num v) as [x|]; [|done]. simpl.
    repeat (destruct (negb _); simpl; [intros [= <-]; unfold ranged; simpl; lia|]).
    intros [= <-]. unfold ranged. simpl. lia.
  - intros [= <-]. unfold ranged. simpl. lia.
Qed.

Lemma count_salaries_spec (l : list job) (r r' : salary_ranges) :
  count_salaries r l = Some r' ->
  ranged r' = ranged r + length l
  /\ range_0_30k r + length (unpriced l) <= range_0_30k r'.
Proof.
  revert r. induction l as [|j l IH]; intros r.
  - intros [= <-]. simpl. lia.
  - simpl. destruct (count_salary r j) as [r1|] eqn:Hr1; [|done]. intros Hrest.
    destruct (IH r1 Hrest) as [Hsum Hlow].
    destruct (count_salary_spec _ _ _ Hr1) as [Hsum1 Hlow1].
    unfold unpriced in *. simpl in *.
    destruct (bool_decide (j !! "salary_min" = None)); simpl in *; lia.
Qed.

Lemma count_salaries_returns (l : list job) (r : salary_ranges) :
  Forall numeric_salary l <-> is_Some (count_salaries r l).
Proof.
  revert r. induction l as [|j l IH]; intros r.
  - split; [done|constructor].
  - rewrite Forall_cons. simpl. unfold numeric_salary at 1.
    destruct (count_salary r j) as [r1|] eqn:Hr1.
    + rewrite <- IH. split; [tauto|]. intros Hl. split; [|done].
      unfold count_salary, py_lt_int in Hr1.
      by destruct (py_num (get j "salary_min" (PInt 0))).
    + split; [|by intros [? ?]]. intros [[x Hx] _]. exfalso.
      unfold count_salary, py_lt_int in Hr1. rewrite Hx in Hr1. simpl in Hr1.
      repeat (destruct (negb _); simpl in Hr1; [done|]). done.
Qed.

(** X18.  The salary ranges of [get_analytics].  The loop goes through
    exactly when the lowest salary of every record is a number (a text
    or [None] under that key raises); then every record falls into one
    of the five ranges, so that the counters add up to the number of
    records, and a record with no lowest salary at all counts as a salary
    of 0 in the range below 30k. *)
Theorem salary_ranges_partition_the_store (st : JobVectorStore) :
  (Forall numeric_salary (jobs st) <-> is_Some (salary_range_counts st))
  /\ (forall r, salary_range_counts st = Some r ->
        ranged r = length (jobs st)
        /\ length (unpriced (jobs st)) <= range_0_30k r)
  /\ jobs_with_salary st <= length (jobs st).
Proof.
  split_and!.
  - apply count_salaries_returns.
  - intros r Hr. apply count_salaries_spec in Hr as [Hsum Hlow].
    unfold ranged in Hsum at 2. simpl in *. lia.
  - unfold jobs_with_salary. apply List.filter_length_le.
Qed.

(** *** Recommendations *)

Lemma search_nonempty (st : JobVectorStore) (q : string) (k : nat)
    (f : option (job -> bool)) (rng : nat -> nat) :
  1 <= k -> jobs st <> [] -> search_similar_jobs st q k f rng <> [].
Proof.
  intros Hk Hne. rewrite search_cases by done.
  pose proof (fallback_nonempty st q k f rng Hk Hne) as Hfb.
  destruct (encode q) as [qv|]; [|done]. simpl. by destruct (take _ _).
Qed.

(** The recommendations for a limit that is a count. *)
Lemma recommendations_bounded (st : JobVectorStore)
    (skills_param : string) (limit : nat) (rng : nat -> nat) :
  length (get_recommendations st skills_param limit rng) <= limit
  /\ (jobs st <> [] -> 1 <= limit ->
      1 <= length (get_recommendations st skills_param limit rng)).
Proof.
  unfold get_recommendations.
  set (skills := if Api.nonempty skills_param then _ else _).
  assert (forall l : list job, l <> [] -> 1 <= length (imap format_recommendation l))
    as Himap.
  { intros l Hl. rewrite length_imap. destruct l; [done|simpl; lia]. }
  split_and!.
  - rewrite length_imap. destruct skills; [rewrite length_take; lia|].
    apply search_at_most.
  - intros Hne Hlimit. apply Himap. destruct skills.
    + destruct (jobs st); [done|]. by destruct limit; [lia|].
    + by apply search_nonempty.
Qed.

Lemma get_recommendations_of_nat (st : JobVectorStore) (skills_param : string)
    (n : nat) (rng : nat -> nat) :
  Signed.get_recommendations st skills_param (Z.of_nat n) rng
  = Api.Jobs (get_recommendations st skills_param n rng).
Proof.
  unfold Signed.get_recommendations, get_recommendations. cbv zeta.
  destruct (if Api.nonempty skills_param then _ else _) as [|s0 rest].
  - by rewrite slice_to_of_nat.
  - unfold Signed.search_by_keywords, search_by_keywords. by rewrite search_of_nat.
Qed.

(** X19.  For a limit that is not negative, [get_recommendations]
    answers with at most [limit] records, and with at least one when the
    store has records and [limit] is 1 or more, whatever the skills
    asked for.  With no skill given it answers with the slice
    [vector_store.jobs[:limit]], in the order of the store, for any
    limit: the first [limit] records, or all but the last [-limit] when
    the limit is negative. *)
Theorem recommendations_are_bounded_and_not_empty (st : JobVectorStore)
    (skills_param : string) (limit : Z) (rng : nat -> nat) :
  ((0 <= limit)%Z ->
   exists out, Signed.get_recommendations st skills_param limit rng = Api.Jobs out
     /\ (Z.of_nat (length out) <= limit)%Z
     /\ (jobs st <> [] -> (1 <= limit)%Z -> 1 <= length out))
  /\ (skills_param = "" ->
      Signed.get_recommendations st skills_param limit rng
      = Api.Jobs (imap format_recommendation (Signed.slice_to limit (jobs st)))).
Proof.
  split.
  - intros Hk.
    destruct (recommendations_bounded st skills_param (Z.to_nat limit) rng)
      as [Hle Hne].
    exists (get_recommendations st skills_param (Z.to_nat limit) rng). split_and!.
    + rewrite <- (Z2Nat.id limit) at 1 by done. apply get_recommendations_of_nat.
    + lia.
    + intros Hj Hl. apply Hne; [done|lia].
  - intros ->. done.
Qed.

End Counters.

(** ** Further properties of the deduplication *)

Section DedupeMore.
Context `{Runtime}.
Import VectorStore Api Spec Facts.

Lemma existsb_false {A} (f : A -> bool) (l : list A) (x : A) :
  existsb f l = false -> x ∈ l -> f x = false.
Proof.
  induction l as [|y l IH]; simpl; [by rewrite elem_of_nil|].
  rewrite orb_false_iff, elem_of_cons. intros [Hy Hl] [->|Hx]; [done|by apply IH].
Qed.

Lemma existsb_true {A} (f : A -> bool) (l : list A) :
  existsb f l = true -> exists y, y ∈ l /\ f y = true.
Proof.
  induction l as [|y l IH]; simpl; [done|].
  rewrite orb_true_iff. intros [Hy|Hl].
  - exists y. split; [by left|done].
  - destruct (IH Hl) as (z & Hz & Hfz). exists z. split; [by right|done].
Qed.

(** One turn of the loop keeps what it has, and leaves the record of the
    turn kept or next to a record it is a duplicate of. *)
Lemma dedupe_step_covers (jobs : list job) (m : nat) (u : list job) (j : job) :
  (exists added, dedupe_step jobs m u j = u ++ added)
  /\ (j ∈ dedupe_step jobs m u j
      \/ exists y, y ∈ dedupe_step jobs m u j /\ is_duplicate_job j y = true).
Proof.
  unfold dedupe_step.
  destruct (existsb (is_duplicate_job j) u) eqn:He.
  - apply existsb_true in He as (y & Hy & Hdup).
    destruct (_ && _).
    + destruct (readmit_extends m jobs u) as (added & -> & _).
      split; [by exists added|]. right. exists y. split; [|done].
      apply elem_of_app. by left.
    + split; [exists []; by rewrite app_nil_r|]. right. by exists y.
  - destruct (_ && _).
    + destruct (readmit_extends m jobs (u ++ [j])) as (added & -> & _).
      split; [exists ([j] ++ added); by rewrite app_assoc|].
      left. rewrite !elem_of_app, list_elem_of_singleton. tauto.
    + split; [by exists [j]|]. left. rewrite elem_of_app, list_elem_of_singleton. tauto.
Qed.

Lemma covers_app (out more l : list job) : covers out l -> covers (out ++ more) l.
Proof.
  intros Hc x Hx. destruct (Hc x Hx) as [?|(y & ? & ?)].
  - left. apply elem_of_app. by left.
  - right. exists y. split; [|done]. apply elem_of_app. by left.
Qed.

Lemma dedupe_loop_covers (jobs : list job) (m : nat) (todo u : list job) :
  (exists added, foldl (dedupe_step jobs m) u todo = u ++ added)
  /\ covers (foldl (dedupe_step jobs m) u todo) todo.
Proof.
  revert u. induction todo as [|j rest IH]; intros u.
  - split; [exists []; by rewrite app_nil_r|]. intros x Hx. by apply elem_of_nil in Hx.
  - change (foldl (dedupe_step jobs m) u (j :: rest))
      with (foldl (dedupe_step jobs m) (dedupe_step jobs m u j) rest).
    destruct (dedupe_step_covers jobs m u j) as [[a1 Ha1] Hj].
    destruct (IH (dedupe_step jobs m u j)) as [[a2 Ha2] Hrest].
    split.
    + exists (a1 ++ a2). by rewrite Ha2, Ha1, app_assoc.
    + intros x Hx. apply elem_of_cons in Hx as [->|Hx]; [|by apply Hrest].
      rewrite Ha2. apply (covers_app _ _ [j]); [|by left].
      intros z Hz. apply list_elem_of_singleton in Hz as ->. exact Hj.
Qed.

Lemma dedupe_head (j0 : job) (rest : list job) (m : nat) :
  head (foldl (dedupe_step (j0 :: rest) m) [] (j0 :: rest)) = Some j0.
Proof.
  set (l := j0 :: rest).
  change (foldl (dedupe_step l m) [] l)
    with (foldl (dedupe_step l m) (dedupe_step l m [] j0) rest).
  destruct (dedupe_loop_covers l m rest (dedupe_step l m [] j0)) as [[a2 ->] _].
  unfold dedupe_step. simpl existsb. cbv iota.
  destruct (_ && _); [|done].
  by destruct (readmit_extends m l ([] ++ [j0])) as (added & -> & _).
Qed.

(** X20.  What [remove_duplicate_jobs] never loses, whatever the
    readmissions: the answer holds records of the list only, it starts
    with the first record of the list, and every record of the list is
    either in the answer or a duplicate of a record of the answer. *)
Theorem dedupe_keeps_or_covers (l : list job) (m : nat) :
  (forall x, x ∈ remove_duplicate_jobs l m -> x ∈ l)
  /\ head (remove_duplicate_jobs l m) = head l
  /\ covers (remove_duplicate_jobs l m) l.
Proof.
  split; [intros x; apply remove_duplicate_jobs_subset|].
  unfold remove_duplicate_jobs. destruct l as [|j0 rest]; [split; [done|]|].
  { intros x Hx. by apply elem_of_nil in Hx. }
  destruct (_ <=? _).
  - split; [done|]. intros x Hx. by left.
  - split; [apply dedupe_head|]. apply dedupe_loop_covers.
Qed.

(** *** When nothing is readmitted *)

Lemma dedupe_step_plain (l : list job) (m : nat) (u : list job) (j : job) :
  m <= 1 \/ length l <= 3 -> dedupe_step l m u j = keep_unseen u j.
Proof.
  intros Hcase. unfold dedupe_step, keep_unseen.
  set (u1 := if existsb (is_duplicate_job j) u then u else u ++ [j]).
  assert (1 <= length u1) as Hlen.
  { unfold u1. destruct (existsb _ u) eqn:He.
    - destruct u; [done|simpl; lia].
    - rewrite length_app. simpl. lia. }
  destruct Hcase as [Hm|Hl].
  - replace (length u1 <? m) with false by (symmetry; apply Nat.ltb_ge; lia). done.
  - rewrite (gate_small (length l) (length u1)) by done. by rewrite andb_false_r.
Qed.

Lemma dedupe_loop_plain (l : list job) (m : nat) (todo u : list job) :
  m <= 1 \/ length l <= 3 ->
  foldl (dedupe_step l m) u todo = foldl keep_unseen u todo.
Proof.
  intros Hcase. revert u. induction todo as [|j rest IH]; intros u; [done|].
  simpl. rewrite dedupe_step_plain by done. apply IH.
Qed.

Lemma first_seen_only_snoc (u : list job) (j : job) :
  first_seen_only u -> existsb (is_duplicate_job j) u = false ->
  first_seen_only (u ++ [j]).
Proof.
  intros Hu He i k a b Hik Ha Hb.
  pose proof (lookup_lt_Some _ _ _ Hb) as Hk. rewrite length_app in Hk. simpl in Hk.
  destruct (decide (k < length u)) as [Hlt|Hge].
  - rewrite lookup_app_l in Ha, Hb by lia. exact (Hu i k a b Hik Ha Hb).
  - assert (k = length u) as -> by lia.
    rewrite lookup_app_l in Ha by lia.
    rewrite list_lookup_middle in Hb by done.
    assert (b = j) as -> by congruence.
    eapply existsb_false; [exact He|]. by eapply list_elem_of_lookup_2.
Qed.

Lemma keep_loop_spec (todo u : list job) :
  first_seen_only u ->
  first_seen_only (foldl keep_unseen u todo)
  /\ exists w, foldl keep_unseen u todo = u ++ w /\ sublist w todo.
Proof.
  revert u. induction todo as [|j rest IH]; intros u Hu.
  - split; [done|]. exists []. by rewrite app_nil_r.
  - simpl. unfold keep_unseen at 2 4.
    destruct (existsb (is_duplicate_job j) u) eqn:He.
    + destruct (IH u Hu) as (Hinv & w & Hw & Hsub).
      split; [done|]. exists w. split; [done|]. by apply sublist_cons.
    + destruct (IH (u ++ [j]) (first_seen_only_snoc u j Hu He)) as (Hinv & w & Hw & Hsub).
      split; [done|]. exists (j :: w). split; [by rewrite Hw, <- app_assoc|].
      by apply sublist_skip.
Qed.

(** X21.  When the readmission cannot start ([min_results] at most 1, or
    a list of at most 3 records) and the list is longer than
    [min_results], [remove_duplicate_jobs] is the plain pass that keeps a
    record unless it is a duplicate of a record kept before: the answer
    is a sublist of the list, in the order of the list, and no record of
    the answer is a duplicate of a record before it. *)
Theorem dedupe_without_readmission_is_first_seen_wins (l : list job) (m : nat) :
  m <= 1 \/ length l <= 3 ->
  m < length l ->
  remove_duplicate_jobs l m = foldl keep_unseen [] l
  /\ sublist (remove_duplicate_jobs l m) l
  /\ first_seen_only (remove_duplicate_jobs l m).
Proof.
  intros Hcase Hlen.
  assert (remove_duplicate_jobs l m = foldl keep_unseen [] l) as ->.
  { unfold remove_duplicate_jobs. destruct l as [|j0 rest]; [done|].
    replace (length (j0 :: rest) <=? m) with false by (symmetry; apply Nat.leb_gt; lia).
    by apply dedupe_loop_plain. }
  split; [done|].
  assert (first_seen_only []) as Hnil.
  { intros i k a b _ Ha. by rewrite lookup_nil in Ha. }
  destruct (keep_loop_spec l [] Hnil) as (Hinv & w & Hw & Hsub).
  split; [|exact Hinv]. rewrite Hw. exact Hsub.
Qed.

End DedupeMore.

(** *** The ratio of a text with itself *)

Section RatioOfEqualTexts.
Import Difflib.

Lemma common_prefix_refl (a : list ascii) : common_prefix a a = length a.
Proof.
  induction a as [|x a IH]; simpl; [done|]. by rewrite Ascii.eqb_refl, IH.
Qed.

Lemma common_prefix_le (a b : list ascii) : common_prefix a b <= length a.
Proof.
  revert b. induction a as [|x a IH]; intros [|y b]; simpl; try lia.
  destruct (Ascii.eqb x y); [|lia]. specialize (IH b). lia.
Qed.

Lemma scan_b_full (a_tail : list ascii) (i : nat) (b_tail : list ascii) (j : nat)
    (best : nat * nat * nat) :
  length a_tail <= snd best -> scan_b a_tail i b_tail j best = best.
Proof.
  intros Hbest. revert j. induction b_tail as [|y b IH]; intros j; [done|].
  change (scan_b a_tail i (y :: b) j best)
    with (scan_b a_tail i b (S j)
            (if (snd best <? common_prefix a_tail (y :: b))%nat
             then (i, j, common_prefix a_tail (y :: b)) else best)).
  pose proof (common_prefix_le a_tail (y :: b)).
  replace (snd best <? common_prefix a_tail (y :: b)) with false
    by (symmetry; apply Nat.ltb_ge; lia).
  apply IH.
Qed.

Lemma scan_a_full (a_tail : list ascii) (i : nat) (b : list ascii)
    (best : nat * nat * nat) :
  length a_tail <= snd best -> scan_a a_tail i b best = best.
Proof.
  revert i. induction a_tail as [|x a IH]; intros i Hbest; [done|].
  simpl scan_a. rewrite scan_b_full by done. apply IH. simpl in Hbest. lia.
Qed.

Lemma find_longest_match_refl (x : ascii) (a : list ascii) :
  find_longest_match (x :: a) (x :: a) = (0, 0, length (x :: a)).
Proof.
  unfold find_longest_match.
  change (scan_a (x :: a) 0 (x :: a) (0, 0, 0))
    with (scan_a a 1 (x :: a) (scan_b (x :: a) 0 (x :: a) 0 (0, 0, 0))).
  assert (scan_b (x :: a) 0 (x :: a) 0 (0, 0, 0) = (0, 0, length (x :: a))) as ->.
  { change (scan_b (x :: a) 0 (x :: a) 0 (0, 0, 0))
      with (scan_b (x :: a) 0 a 1
              (if (0 <? common_prefix (x :: a) (x :: a))%nat
               then (0, 0, common_prefix (x :: a) (x :: a)) else (0, 0, 0))).
    rewrite common_prefix_refl. simpl Nat.ltb. cbv iota.
    apply scan_b_full. simpl. lia. }
  apply scan_a_full. simpl. lia.
Qed.

Lemma matches_nil (fuel : nat) : matches fuel [] [] = 0.
Proof. by destruct fuel. Qed.

Lemma matches_refl (fuel : nat) (a : list ascii) :
  matches (S fuel) a a = length a.
Proof.
  destruct a as [|x a]; [done|].
  change (matches (S fuel) (x :: a) (x :: a))
    with (let '(i, j, k) := find_longest_match (x :: a) (x :: a) in
          if (k =? 0)%nat then 0
          else k + matches fuel (take i (x :: a)) (take j (x :: a))
                 + matches fuel (drop (i + k) (x :: a)) (drop (j + k) (x :: a))).
  rewrite find_longest_match_refl. cbv beta iota zeta.
  change (length (x :: a) =? 0) with false. cbv iota.
  rewrite take_0, Nat.add_0_l, drop_all, !matches_nil. lia.
Qed.

Lemma ratio_refl (s : string) : s <> "" -> Qeq_bool (ratio s s) 1 = true.
Proof.
  intros Hs. unfold ratio. rewrite matches_refl.
  set (n := length (list_ascii_of_string s)).
  assert (n <> 0) as Hn by (unfold n; by destruct s).
  replace (n + n =? 0) with false by (symmetry; apply Nat.eqb_neq; lia).
  apply Qeq_bool_iff. unfold Qeq. simpl.
  rewrite Z.mul_1_r.
  destruct (n + n) as [|p] eqn:Hp; [lia|].
  rewrite <- Pos.of_nat_succ, Zpos_P_of_succ_nat. lia.
Qed.

End RatioOfEqualTexts.

Section SameTitle.
Context `{Runtime}.
Import VectorStore Api Spec Facts.

(** X22.  With the ratio of [difflib], two records with the same title
    (case apart, under 200 characters) and the same location that is not
    empty are duplicates, whatever their companies and their links, as
    long as both have a company: the test on the exact title and the
    location does not look at the company. *)
Theorem same_title_and_location_are_duplicates (job1 job2 : job) :
  (forall a b, SequenceMatcher_ratio a b = Difflib.ratio a b) ->
  field_lower job1 "title" = field_lower job2 "title" ->
  field_lower job1 "title" <> "" ->
  String.length (field_lower job1 "title") < 200 ->
  field_lower job1 "company" <> "" -> field_lower job2 "company" <> "" ->
  field_lower job1 "location" = field_lower job2 "location" ->
  field_lower job1 "location" <> "" ->
  is_duplicate_job job1 job2 = true.
Proof.
  intros Hratio Ht Ht1 _ Hc1 Hc2 Hl Hl1.
  unfold is_duplicate_job, is_duplicate_job_with.
  rewrite <- Ht, <- Hl, !Hratio.
  rewrite !(nonempty_true _ Ht1), (nonempty_true _ Hc1), (nonempty_true _ Hc2),
    (nonempty_true _ Hl1).
  cbv [negb orb]. rewrite (ratio_refl _ Ht1), String.eqb_refl.
  destruct (_ && _ && _); [done|]. by destruct (_ && _).
Qed.

End SameTitle.

(** ** Further properties of the search endpoint *)

Section PipelineMore.
Context `{Runtime}.
Import VectorStore Api Spec Facts.

Lemma search_results_plain (st : JobVectorStore) (q : string) (k : nat)
    (f : option (job -> bool)) (rng : nat -> nat) :
  Forall plain_record (jobs st) ->
  Forall (fun r => typed r /\ r !! "_parsed_date" = None)
    (search_similar_jobs st q k f rng).
Proof.
  intros Hplain. apply Forall_forall. intros r Hr.
  apply search_origin in Hr as (j & s & Hj & -> & _).
  rewrite Forall_forall in Hplain. destruct (Hplain j Hj) as [Htyped Hdate].
  split.
  - eapply typed_core; [apply same_core_with_score|done].
  - unfold with_score. by rewrite lookup_insert_ne.
Qed.

Lemma remove_duplicate_jobs_nonempty (l : list job) (m : nat) :
  l <> [] -> remove_duplicate_jobs l m <> [].
Proof.
  intros Hl. unfold remove_duplicate_jobs. destruct l as [|j0 rest]; [done|].
  destruct (_ <=? _); [done|].
  pose proof (dedupe_head j0 rest m) as Hhead.
  by destruct (foldl _ _ _).
Qed.

Lemma append_fresh_spec (limit : nat) (more results : list job) :
  exists added, append_fresh limit more results = results ++ added
                /\ forall x, x ∈ added -> x ∈ more.
Proof.
  revert results. induction more as [|j rest IH]; intros results.
  - exists []. split; [by rewrite app_nil_r|]. intros x Hx. by apply elem_of_nil in Hx.
  - simpl. destruct (_ <=? _).
    + exists []. split; [by rewrite app_nil_r|]. intros x Hx. by apply elem_of_nil in Hx.
    + destruct (existsb _ _).
      * destruct (IH results) as (added & -> & Hin). exists added.
        split; [done|]. intros x Hx. right. by apply Hin.
      * destruct (IH (results ++ [j])) as (added & -> & Hin). exists (j :: added).
        split; [by rewrite <- app_assoc|]. intros x Hx.
        apply elem_of_cons in Hx as [->|Hx]; [by left|right; by apply Hin].
Qed.

Lemma dedupe_stage_keeps_records (st : JobVectorStore) (rq : request) (rnd : oracle)
    (l : list job) :
  morocco_only rq = false -> Forall plain_record (jobs st) ->
  l <> [] -> Forall dated_ok l ->
  dedupe_stage st rq rnd l <> [] /\ Forall dated_ok (dedupe_stage st rq rnd l).
Proof.
  intros Hmorocco Hplain Hl Hok. unfold dedupe_stage.
  destruct (remove_duplicates rq); [|done].
  pose proof (remove_duplicate_jobs_nonempty l (limit rq) Hl) as Hd.
  assert (Forall dated_ok (remove_duplicate_jobs l (limit rq))) as Hdok.
  { apply Forall_forall. intros x Hx. rewrite Forall_forall in Hok.
    by apply Hok, (remove_duplicate_jobs_subset l (limit rq)). }
  set (d := remove_duplicate_jobs l (limit rq)) in *.
  rewrite Hmorocco.
  set (more := search_similar_jobs st (query rq) (limit rq * 2) None (sample_at rnd 3)).
  assert (Forall dated_ok more) as Hmore.
  { eapply Forall_impl; [apply search_results_plain; exact Hplain|].
    intros r [_ Hr]. by left. }
  destruct (append_fresh_spec (limit rq) more d) as (added & Hadded & Hin).
  set (results := if _ && _ then _ else _).
  assert (results <> [] /\ Forall dated_ok results) as [Hr1 Hr2].
  { unfold results. destruct (_ && _); [|done]. rewrite Hadded. split.
    - by destruct d.
    - apply Forall_app. split; [done|]. apply Forall_forall. intros x Hx.
      rewrite Forall_forall in Hmore. by apply Hmore, Hin. }
  by destruct results.
Qed.

(** X23.  A request without filter always gets an answer with a record:
    when the store has records whose texts are strings, the filters are
    trivial and [limit] is 1 or more, [search_jobs] answers with at least
    one record and at most [limit], whether or not the provider embeds
    the query, and whatever the duplicates among the records. *)
Theorem search_jobs_answers_with_a_record (st : JobVectorStore) (rq : request)
    (now : Z) (rnd : oracle) :
  trivial_filters rq -> 1 <= limit rq ->
  jobs st <> [] -> Forall plain_record (jobs st) ->
  exists out, search_jobs st rq now rnd = Jobs out /\ 1 <= length out <= limit rq.
Proof.
  intros Htriv Hlimit Hne Hplain.
  pose proof Htriv as (_ & _ & _ & Hremote & Hmorocco & _).
  unfold search_jobs, pipeline, first_search. rewrite Hremote, Hmorocco. simpl.
  set (r0 := search_similar_jobs st (query rq) (limit rq * 5) None (sample_at rnd 0)).
  assert (r0 <> []) as Hr0 by (apply search_nonempty; [lia|done]).
  assert (match r0 with [] => take (limit rq * 5) (jobs st) | _ => r0 end = r0) as ->
    by (by destruct r0).
  pose proof (search_results_plain st (query rq) (limit rq * 5) None (sample_at rnd 0) Hplain)
    as Hres. fold r0 in Hres.
  assert (Forall typed r0) as Htyped0
    by (eapply Forall_impl; [exact Hres|]; by intros r [? ?]).
  assert (Forall (fun j => j !! "_parsed_date" = None) r0) as Hpd0
    by (eapply Forall_impl; [exact Hres|]; by intros r [? ?]).
  rewrite (enrich_ok r0 Htyped0). simpl.
  rewrite (hard_filters_trivial rq _ Htriv). simpl.
  rewrite (type_fallback_trivial st rq rnd _ Htriv).
  set (r1 := with_job_type <$> r0).
  assert (Forall (fun j => j !! "_parsed_date" = None) r1) as Hpd1.
  { unfold r1. apply Forall_fmap. eapply Forall_impl; [exact Hpd0|].
    intros j Hj. by apply with_job_type_no_date. }
  destruct (date_stage_ok rq now rnd r1 Hpd1) as (l1 & r2 & -> & Hcore2 & Hperm & Hok2).
  simpl. rewrite (recent_stage_trivial st rq now rnd _ Htriv). simpl.
  assert (r2 <> []) as Hr2.
  { intros ->. apply Permutation_nil_l in Hperm. subst l1.
    apply Forall2_length in Hcore2. unfold r1 in Hcore2.
    rewrite length_fmap in Hcore2. by destruct r0. }
  destruct (dedupe_stage_keeps_records st rq rnd r2 Hmorocco Hplain Hr2 Hok2)
    as [Hr3 Hok3].
  set (r3 := dedupe_stage st rq rnd r2) in *.
  destruct (format_all_ok now 0 (take (limit rq) r3)) as [out Hout];
    [by apply Forall_take|].
  rewrite Hout. exists out. split; [done|].
  rewrite (format_all_length _ _ _ _ Hout), length_take.
  destruct r3; [done|]. simpl. lia.
Qed.

(** *** The shape of the answer *)

Lemma format_job_keys (now : Z) (i : nat) (j r : job) :
  format_job now i j = Some r ->
  forall key, is_Some (r !! key) <-> key ∈ answer_keys.
Proof.
  unfold format_job.
  destruct (if negb _ then _ else _) as [posted_at|]; [|done]. simpl.
  destruct (not_older _ j) as [is_recent|]; [|done]. simpl.
  intros [= <-] key. rewrite !lookup_insert_is_Some', lookup_empty.
  unfold answer_keys. rewrite !elem_of_cons, elem_of_nil.
  assert (is_Some (@None pyval) <-> False) as -> by (split; [by intros [? ?]|done]).
  intuition congruence.
Qed.

Lemma format_all_records (now : Z) (i : nat) (l out : list job) (r : job) :
  format_all now i l = Some out -> r ∈ out ->
  exists i' j, j ∈ l /\ format_job now i' j = Some r.
Proof.
  revert i out. induction l as [|j l IH]; intros i out; simpl.
  - intros [= <-] Hr. by apply elem_of_nil in Hr.
  - destruct (format_job now i j) as [fj|] eqn:Hfj; [|done]. simpl.
    destruct (format_all now (S i) l) as [fs|] eqn:Hfs; [|done]. simpl.
    intros [= <-] Hr. apply elem_of_cons in Hr as [->|Hr].
    + exists i, j. split; [by left|done].
    + destruct (IH _ _ Hfs Hr) as (i' & j' & ? & ?). exists i', j'. split; [by right|done].
Qed.

(** X24.  Every record of the answer of [search_jobs] has the same
    seventeen keys, whatever keys the stored record had: the keys that
    are missing are filled with defaults, and no other key of the stored
    record goes out. *)
Theorem answer_records_have_the_seventeen_keys (st : JobVectorStore) (rq : request)
    (now : Z) (rnd : oracle) (r : job) :
  r ∈ response_jobs (search_jobs st rq now rnd) ->
  forall key, is_Some (r !! key) <-> key ∈ answer_keys.
Proof.
  unfold search_jobs. destruct (pipeline st rq now rnd) as [results|]; simpl;
    [|by intros Hr; apply elem_of_nil in Hr].
  destruct (format_all now 0 (take (limit rq) results)) as [out|] eqn:Hout; simpl;
    [|by intros Hr; apply elem_of_nil in Hr].
  intros Hr. destruct (format_all_records _ _ _ _ _ Hout Hr) as (i & j & _ & Hf).
  by eapply format_job_keys.
Qed.

(** *** One record that raises *)

Lemma malformed_with_score (j : job) (s : Q) :
  malformed j -> infer_job_type (with_score j s) = None.
Proof.
  intros [Hjt Hd]. unfold infer_job_type, with_score, get in *.
  rewrite !lookup_insert_ne by done. by rewrite Hjt, Hd.
Qed.

Lemma search_returns_all (st : JobVectorStore) (q : string) (k : nat)
    (rng : nat -> nat) (qv : Faiss.vec) (j : job) :
  aligned st -> encode q = Some qv -> length (jobs st) <= k -> j ∈ jobs st ->
  exists s, with_score j s ∈ search_similar_jobs st q k None rng.
Proof.
  intros Hal Hq Hk Hj.
  pose proof (search_goes_with_ranking st q k rng qv Hal Hq) as Hans.
  destruct Hal as [Hvec _]. pose proof (Forall2_length _ _ _ Hvec) as Hlen.
  set (ranking := Faiss.sort_asc (Faiss.distances (index st) qv)) in *.
  assert (length ranking = length (jobs st)) as Hrl.
  { unfold ranking. rewrite sort_asc_perm. unfold Faiss.distances.
    by rewrite length_imap. }
  rewrite take_ge in Hans by lia.
  apply list_elem_of_lookup in Hj as [p Hp].
  destruct (Forall2_lookup_l _ _ _ _ _ Hvec Hp) as (v & Hv & _).
  assert ((Faiss.l2_sqr qv v, Z.of_nat p) ∈ ranking) as Hc.
  { unfold ranking. rewrite sort_asc_perm. apply list_elem_of_lookup. exists p.
    unfold Faiss.distances. by rewrite list_lookup_imap, Hv. }
  apply list_elem_of_lookup in Hc as [i Hi].
  destruct (Forall2_lookup_l _ _ _ _ _ Hans Hi) as (r & Hr & j' & v' & Hj' & _ & _ & ->).
  simpl in Hj'. rewrite Nat2Z.id, Hp in Hj'. injection Hj' as <-.
  eexists. by eapply list_elem_of_lookup_2.
Qed.

(** X25.  One record is enough to fail a request.  On an aligned store
    of at most [5 * limit] records, with a query the provider embeds and
    neither the remote nor the Morocco flag, a single record with no
    contract type and with a description that is true and is not a string
    (a number, for one) makes [search_jobs] answer with the server error,
    whatever the other parameters: every record of the store is a
    candidate, and the guess of the contract type raises on that one. *)
Theorem one_malformed_record_fails_the_request (st : JobVectorStore) (rq : request)
    (now : Z) (rnd : oracle) (j : job) :
  aligned st -> is_Some (encode (query rq)) ->
  remote rq = false -> morocco_only rq = false ->
  length (jobs st) <= limit rq * 5 ->
  j ∈ jobs st -> malformed j ->
  search_jobs st rq now rnd = ServerError.
Proof.
  intros Hal [qv Hq] Hremote Hmorocco Hlen Hj Hbad.
  unfold search_jobs, pipeline, first_search. rewrite Hremote, Hmorocco. simpl.
  destruct (search_returns_all st (query rq) (limit rq * 5) (sample_at rnd 0) qv j
              Hal Hq Hlen Hj) as [s Hs].
  set (r0 := search_similar_jobs st (query rq) (limit rq * 5) None (sample_at rnd 0)) in *.
  assert (match r0 with [] => take (limit rq * 5) (jobs st) | _ => r0 end = r0) as ->.
  { destruct r0; [by apply elem_of_nil in Hs|done]. }
  rewrite (mapM_None_2 infer_job_type r0); [done|].
  apply Exists_exists. exists (with_score j s). split; [done|].
  by apply malformed_with_score.
Qed.

(** *** Dates that are made up *)

Lemma randint_range (r : nat) (lo hi : Z) :
  (lo <= hi)%Z -> (lo <= randint r lo hi <= hi)%Z.
Proof.
  intros Hle. unfold randint.
  pose proof (Z.mod_pos_bound (Z.of_nat r) (hi - lo + 1)) as Hmod. lia.
Qed.

(** X26.  Step 5 of [search_jobs] leaves a record with a true [created]
    as it is, and gives every other record a date of its own making:
    [_parsed_date] is a time of the 62 days before [now], never later
    than [now], and [created] is the print of that time. *)
Theorem invented_dates_are_recent (now : Z) (rnd : nat -> nat) (i : nat) (l : list job) :
  Forall2 (fun j j' =>
             if truthy (get j "created" PNone) then j' = j
             else exists t,
                 j' = <["_parsed_date" := PDate t]>
                        (<["created" := PStr (strftime_ymd t)]> j)
                 /\ (now - 62 * day <= t <= now)%Z)
    l (assign_dates now rnd i l).
Proof.
  revert i. induction l as [|j l IH]; intros i; simpl; [constructor|].
  destruct (truthy (get j "created" PNone)) eqn:Hc.
  - constructor; [by rewrite Hc|apply IH].
  - constructor; [|apply IH]. rewrite Hc. eexists. split; [reflexivity|].
    pose proof (randint_range (rnd i) 0 3 ltac:(lia)) as Hr.
    unfold day. lia.
Qed.

End PipelineMore.

(** ** The further properties on concrete stores *)

Section Witnesses.
Import VectorStore StoreOps Server Api Spec Facts Concrete Examples Samples.

Lemma search_results_are_scored_copies_witness :
  scored_copy store11 (with_score (titled "a") 1).
Proof.
  apply (search_results_are_scored_copies (H := by_length) store11 query43 3 None first_pick).
  apply list_elem_of_lookup. exists 0. vm_compute. reflexivity.
Defined.

Lemma search_applies_predicate_witness :
  exists j s, j ∈ jobs store11 /\ with_score (titled "a") 1 = with_score j s
    /\ (ends_of_line (with_score (titled "a") 1) = true \/ ends_of_line j = true
        \/ score_jobs (H := by_length) (split (lower query43)) (Some ends_of_line)
             (jobs store11) = []).
Proof.
  apply (search_applies_predicate (H := by_length) store11 query43 2 ends_of_line first_pick).
  apply list_elem_of_lookup. exists 0. vm_compute. reflexivity.
Defined.

Lemma filtered_search_honours_predicate_witness :
  Forall (fun r => remote_filter (H := by_length) r = true)
    (search_similar_jobs (H := by_length) store_desk "python" 5
       (Some (remote_filter (H := by_length))) first_pick).
Proof.
  apply (proj2 (filtered_search_honours_predicate (H := by_length))).
  - apply (proj1 (proj1 (filtered_search_honours_predicate (H := by_length)))).
  - vm_compute. discriminate.
Defined.

Lemma keywords_without_match_draw_at_random_witness :
  search_by_keywords (H := by_length) store_five [] 2 false first_pick
  = (fun j => with_score j (1 # 10))
      <$> random_sample first_pick (jobs store_five) (min 2 (length (jobs store_five))).
Proof.
  apply (keywords_without_match_draw_at_random (H := by_length) store_five [] 2 false
           first_pick).
  - vm_compute. discriminate.
  - change (jobs store_five) with five_jobs. repeat constructor.
Defined.

Lemma keyword_search_honours_keywords_witness :
  Forall (fun r => keyword_filter (H := by_length) ["python"; "cobol"] false r = true)
    (search_by_keywords (H := by_length) store_desk ["python"; "cobol"] 5 false first_pick).
Proof.
  apply (keyword_search_honours_keywords (H := by_length) store_desk ["python"; "cobol"]
           5 false first_pick
           (advert "Python developer" "Acme" "Remote" "Django and SQL") "python").
  - apply list_elem_of_lookup. exists 0. vm_compute. reflexivity.
  - vm_compute. reflexivity.
  - by left.
  - split; [discriminate|reflexivity].
  - vm_compute. reflexivity.
Defined.

Lemma unfiltered_search_returns_nearest_witness :
  length (search_similar_jobs (H := by_length) store11 query43 3 None first_pick)
  = min 3 (length (jobs store11)).
Proof.
  destruct (unfiltered_search_returns_nearest (H := by_length) store11 query43 3
              first_pick [43%Q]) as (_ & _ & _ & Hlen).
  - apply aligned_from_init.
  - vm_compute. reflexivity.
  - exact Hlen.
Defined.

Lemma load_without_snapshot_changes_nothing_witness :
  load store_nurses "job_vector_store" blank_disk = (false, store_nurses).
Proof.
  apply load_without_snapshot_changes_nothing.
  right. vm_compute. reflexivity.
Defined.

Lemma save_touches_its_two_files_only_witness :
  files (snd (save store_five "job_vector_store" blank_disk))
    !! index_path store_five "job_vector_store"
  = Some (IndexFile (index store_five))
  /\ files (snd (save store_five "job_vector_store" blank_disk))
       !! data_path store_five "job_vector_store"
     = Some (PickleFile (jobs store_five) (job_ids_map store_five)).
Proof.
  apply (proj1 (proj2 (save_touches_its_two_files_only store_five
                         "job_vector_store" blank_disk))).
  vm_compute. reflexivity.
Defined.

Lemma load_accepts_torn_snapshot_witness :
  exists d' st',
    save store_five "job_vector_store" protected_disk = (false, d')
    /\ load (init "elsewhere" (vector_dir store_five)) "job_vector_store" d' = (true, st')
    /\ index st' = index store_five /\ jobs st' = nurses /\ job_ids_map st' = ∅.
Proof.
  apply (load_accepts_torn_snapshot store_five "job_vector_store" "elsewhere"
           protected_disk nurses ∅).
  - intros Hin. apply list_elem_of_singleton in Hin. vm_compute in Hin. discriminate.
  - apply list_elem_of_singleton. vm_compute. reflexivity.
  - vm_compute. reflexivity.
Defined.

Lemma snapshots_under_two_names_coexist_witness :
  exists st',
    load (init "elsewhere" (vector_dir store_nurses)) "monday"
      (snd (save store_five "tuesday"
              (snd (save store_nurses "monday" blank_disk)))) = (true, st')
    /\ index st' = index store_nurses /\ jobs st' = jobs store_nurses
    /\ job_ids_map st' = job_ids_map store_nurses.
Proof.
  apply (snapshots_under_two_names_coexist store_nurses store_five "monday" "tuesday"
           "elsewhere" blank_disk).
  - reflexivity.
  - reflexivity.
  - discriminate.
  - reflexivity.
  - vm_compute. reflexivity.
Defined.

Lemma batch_without_embedding_changes_nothing_witness :
  fst (add_jobs_from_dataframe (H := picky) store_nurses [record "Agent" "secret service"])
  = store_nurses.
Proof.
  apply (proj2 (batch_without_embedding_changes_nothing (H := picky) store_nurses
                  [record "Agent" "secret service"])).
  vm_compute. reflexivity.
Defined.

Lemma directory_load_is_batch_load_witness :
  exists st' total,
    add_jobs_from_directory (H := by_length) (init "adzuna_data" "vector_store") data_tree
      (Some "adzuna_data") = Some (st', total)
    /\ st' = add_batches (H := by_length) (init "adzuna_data" "vector_store")
               (csv_batches data_tree "adzuna_data" data_listing)
    /\ jobs st' = jobs (init "adzuna_data" "vector_store")
                  ++ filter (embeddable (H := by_length))
                       (concat (csv_batches data_tree "adzuna_data" data_listing))
    /\ length (jobs st') = length (jobs (init "adzuna_data" "vector_store")) + total
    /\ (aligned (H := by_length) (init "adzuna_data" "vector_store")
        -> aligned (H := by_length) st').
Proof.
  apply (directory_load_is_batch_load (H := by_length) (init "adzuna_data" "vector_store")
           data_tree "adzuna_data" data_listing).
  vm_compute. reflexivity.
Defined.

Lemma initialize_serves_records_witness :
  snd (fst (initialize_vector_store (H := by_length) "adzuna_data" "vector_store"
              blank_disk flat_tree)) = init "adzuna_data" "vector_store"
  /\ snd (initialize_vector_store (H := by_length) "adzuna_data" "vector_store"
            blank_disk flat_tree) = blank_disk
  /\ exists rows, flat_tree !! "adzuna_data" = Some (File rows).
Proof.
  apply (proj2 (initialize_serves_records (H := by_length) "adzuna_data" "vector_store"
                  blank_disk flat_tree)).
  vm_compute. reflexivity.
Defined.

Lemma first_start_serves_samples_by_keywords_witness :
  jobs (snd (fst (initialize_vector_store (H := by_length) "adzuna_data" "vector_store"
                    blank_disk ∅))) = sample_jobs.
Proof.
  destruct (first_start_serves_samples_by_keywords (H := by_length) "adzuna_data"
              "vector_store" blank_disk ∅) as (_ & Hjobs & _).
  - vm_compute. reflexivity.
  - reflexivity.
  - exact Hjobs.
Defined.

Lemma rebuild_after_failed_load_keeps_stale_vectors_witness :
  length (index (snd (fst (initialize_vector_store (H := by_length) "adzuna_data"
                             "vector_store" half_damaged data_tree))))
  = length other_index
    + length (jobs (snd (fst (initialize_vector_store (H := by_length) "adzuna_data"
                                "vector_store" half_damaged data_tree)))).
Proof.
  destruct (rebuild_after_failed_load_keeps_stale_vectors (H := by_length) "adzuna_data"
              "vector_store" half_damaged data_tree other_index data_listing)
    as (_ & _ & _ & Hlen & _).
  - vm_compute. reflexivity.
  - vm_compute. reflexivity.
  - intros v j v' Hv Hj. injection Hj as <-.
    apply list_elem_of_In in Hv. simpl in Hv.
    destruct Hv as [<-|[<-|[]]]; reflexivity.
  - vm_compute. reflexivity.
  - vm_compute. discriminate.
  - exact Hlen.
Defined.

Lemma statistics_count_every_record_witness :
  exists s,
    get_job_statistics store_five = Some (Counted s)
    /\ total_jobs s = length (jobs store_five).
Proof.
  destruct (statistics_count_every_record store_five) as (s & Hs & Ht & _).
  - vm_compute. discriminate.
  - change (jobs store_five) with five_jobs.
    repeat (apply Forall_cons; split; [split; vm_compute; reflexivity|]). constructor.
  - exists s. split; [exact Hs|exact Ht].
Defined.

Lemma salary_ranges_partition_the_store_witness :
  ranged five_below_30k = length (jobs store_five)
  /\ length (unpriced (jobs store_five)) <= range_0_30k five_below_30k.
Proof.
  apply (proj1 (proj2 (salary_ranges_partition_the_store store_five)) five_below_30k).
  vm_compute. reflexivity.
Defined.

Lemma recommendations_are_bounded_and_not_empty_witness :
  exists out,
    Signed.get_recommendations (H := by_length) store_five "nurse, baker" 3 first_pick
    = Jobs out
    /\ (Z.of_nat (length out) <= 3)%Z
    /\ (jobs store_five <> [] -> (1 <= 3)%Z -> 1 <= length out).
Proof.
  apply (proj1 (recommendations_are_bounded_and_not_empty (H := by_length)
                  store_five "nurse, baker" 3 first_pick)).
  lia.
Defined.

Lemma search_never_exceeds_k_witness :
  exists l,
    Signed.search_similar_jobs (H := by_length) store11 query43 2 None first_pick = Some l
    /\ (Z.of_nat (length l) <= 2)%Z.
Proof.
  apply (proj1 (search_never_exceeds_k (H := by_length) store11 query43 2 None
                  first_pick [] false ltac:(lia))).
Defined.

Lemma dedupe_without_readmission_is_first_seen_wins_witness :
  remove_duplicate_jobs (H := by_length) three_twins 1
  = foldl (keep_unseen (H := by_length)) [] three_twins
  /\ sublist (remove_duplicate_jobs (H := by_length) three_twins 1) three_twins
  /\ first_seen_only (H := by_length) (remove_duplicate_jobs (H := by_length) three_twins 1).
Proof.
  apply (dedupe_without_readmission_is_first_seen_wins (H := by_length) three_twins 1).
  - left. lia.
  - vm_compute. lia.
Defined.

Lemma same_title_and_location_are_duplicates_witness :
  is_duplicate_job (H := by_length) at_acme at_globex = true.
Proof.
  apply (same_title_and_location_are_duplicates (H := by_length) at_acme at_globex).
  - intros a b. reflexivity.
  - vm_compute. reflexivity.
  - vm_compute. discriminate.
  - vm_compute. lia.
  - vm_compute. discriminate.
  - vm_compute. discriminate.
  - vm_compute. reflexivity.
  - vm_compute. discriminate.
Defined.

Lemma search_jobs_answers_with_a_record_witness :
  exists out,
    search_jobs (H := picky) store_nurses (plain_request "secret night" 2 true) noon zeros
    = Jobs out
    /\ 1 <= length out <= 2.
Proof.
  apply (search_jobs_answers_with_a_record (H := picky) store_nurses
           (plain_request "secret night" 2 true) noon zeros).
  - by repeat split.
  - vm_compute. lia.
  - vm_compute. discriminate.
  - change (jobs store_nurses) with nurses.
    repeat (apply Forall_cons; split;
            [split; [split; vm_compute; eexists; reflexivity|by vm_compute]|]).
    constructor.
Defined.

Lemma answer_records_have_the_seventeen_keys_witness :
  is_Some (first_answer !! "isRecent") <-> "isRecent" ∈ answer_keys.
Proof.
  apply (answer_records_have_the_seventeen_keys (H := by_length) store_five
           (plain_request "developer" 3 true) noon zeros first_answer).
  apply list_elem_of_lookup. exists 0. vm_compute. reflexivity.
Defined.

Lemma one_malformed_record_fails_the_request_witness :
  search_jobs (H := by_length) store_numbered (plain_request "clerk" 3 true) noon zeros
  = ServerError.
Proof.
  apply (one_malformed_record_fails_the_request (H := by_length) store_numbered
           (plain_request "clerk" 3 true) noon zeros numbered).
  - apply aligned_from_init.
  - vm_compute. eauto.
  - reflexivity.
  - reflexivity.
  - vm_compute. lia.
  - apply list_elem_of_lookup. exists 1. vm_compute. reflexivity.
  - split; vm_compute; reflexivity.
Defined.

End Witnesses.
